(** * Gmail-Automation-Tool: the automation controller of [app.py]

    A shallow embedding of class [GmailAutomation] (login, compose-and-send,
    human-paced typing, close) over an abstract browser.  The Selenium driver
    and the page it drives are an external collaborator: they are modelled as
    an environment record whose operations answer, for the current state of
    the browser, with a value or a raised exception.  The Python code is
    embedded as computations in a state-and-exception monad that threads the
    browser state and records every driver call in a trace. *)

From Stdlib Require Import String Ascii List ZArith NArith Bool Lia.
Import ListNotations.
Local Open Scope string_scope.
Local Open Scope Z_scope.

Set Implicit Arguments.

(* ===================================================================== *)
(** ** Python values used by the controller *)
(* ===================================================================== *)

(** Exceptions that reach the controller.  All of them derive from Python's
    [Exception], so both [except Exception] and a bare [except:] catch
    them. *)
Inductive exn : Type :=
| RuntimeError (msg : string)
| TimeoutException
| NoSuchElementException
| StaleElementReferenceException
| WebDriverException (msg : string)
| AttributeError.

(** The result of evaluating a Python expression or statement. *)
Inductive outcome (A : Type) : Type :=
| Ok (a : A)
| Raised (e : exn).
Arguments Ok {A} a.
Arguments Raised {A} e.

Definition is_ok {A} (r : outcome A) : bool :=
  match r with Ok _ => true | Raised _ => false end.

(** [selenium.webdriver.common.by.By], the three strategies the code uses. *)
Inductive By : Type := ID | CSS_SELECTOR | XPATH.

Definition locator : Type := (By * string)%type.

(** A [WebElement] handle.  [node] is the identity the browser gave the
    element; [found_by] is ghost data recording the locator through which
    the handle was obtained (the program never inspects it). *)
Record WebElement : Type := mkElement { found_by : locator; node : nat }.

(** First argument of [WebDriverWait]: the driver, or an element such as the
    compose dialog. *)
Inductive scope : Type :=
| InDriver
| InElement (e : WebElement).

(** [selenium.webdriver.support.expected_conditions]. *)
Inductive expected_condition : Type :=
| visibility_of_element_located
| element_to_be_clickable
| presence_of_element_located
| invisibility_of_element_located.

(** One keystroke of a [send_keys] argument: a character (a code point of
    the text) or one of the two special [Keys] the code uses. *)
Inductive key : Type :=
| CONTROL
| DELETE
| Char (c : ascii).

Fixpoint keys_of (text : string) : list key :=
  match text with
  | EmptyString => []
  | String c rest => Char c :: keys_of rest
  end.

Inductive level : Type := INFO | WARNING | ERROR.

(** The log lines of [app.py]; the f-string arguments are kept as data. *)
Inductive log_msg : Type :=
| ChromeInitialized
| ChromeInitFailed (e : exn)
| DriverInitFailed (e : exn)
| LoginAttempt (attempt max_attempts : Z)
| LoginSuccessful
| LoginAttemptFailed (attempt : Z) (e : exn)
| EmailSendingAttempt (attempt max_attempts : Z)
| EmailSentSuccessfully
| EmailSendingAttemptFailed (attempt : Z) (e : exn)
| TextMismatch (field_name : string)
| HumanTypeError (field_name : string) (e : exn)
| BrowserClosed
| ErrorClosingBrowser (e : exn).

(** Everything the controller does that is visible from outside, in the
    order it does it.  Durations are in milliseconds, timeouts in seconds. *)
Inductive event : Type :=
| EInitChrome (headless : bool)
| EGet (url : string)
| EReadyState (timeout : nat)
| ECurrentUrl
| EWait (sc : scope) (timeout : nat) (c : expected_condition) (l : locator)
| EFindElement (l : locator)
| ESendKeys (e : WebElement) (ks : list key)
| EClick (e : WebElement)
| EGetAttribute (e : WebElement) (name : string)
| EText (e : WebElement)
| ESaveScreenshot (filename : string)
| EDeleteAllCookies
| EQuit
| ESleep (min_ms max_ms : N)
| ELog (lvl : level) (m : log_msg).

(* ===================================================================== *)
(** ** String helpers: [in], [startswith], [strip] *)
(* ===================================================================== *)

(** [needle in hay]. *)
Fixpoint contains (needle hay : string) : bool :=
  if String.prefix needle hay then true
  else match hay with
       | EmptyString => false
       | String _ rest => contains needle rest
       end.

Definition startswith (s p : string) : bool := String.prefix p s.

(** A Python [str] is a sequence of code points.  It is modelled as a Rocq
    string with one character per code point: the 256 values of [ascii]
    stand for the code points U+0000 to U+00FF, so the model covers the
    texts whose code points are below U+0100 (a text with a code point
    above that has no counterpart here). *)

(** The code points below U+0100 for which [str.isspace] holds, which are
    the ones [str.strip] removes: U+0009 to U+000D, U+001C to U+001F,
    U+0020, U+0085 and U+00A0. *)
Definition is_space (c : ascii) : bool :=
  let n := nat_of_ascii c in
  (Nat.eqb n 32 || (Nat.leb 9 n && Nat.leb n 13) || (Nat.leb 28 n && Nat.leb n 31)
   || Nat.eqb n 133 || Nat.eqb n 160)%bool.

Fixpoint lstrip (s : string) : string :=
  match s with
  | EmptyString => EmptyString
  | String c rest => if is_space c then lstrip rest else s
  end.

Fixpoint rstrip (s : string) : string :=
  match s with
  | EmptyString => EmptyString
  | String c rest =>
      match rstrip rest with
      | EmptyString => if is_space c then EmptyString else String c EmptyString
      | r => String c r
      end
  end.

Definition strip (s : string) : string := rstrip (lstrip s).

(** [range(lo, hi)] on Python integers. *)
Definition range (lo hi : Z) : list Z :=
  map (fun i => lo + Z.of_nat i) (seq 0 (Z.to_nat (hi - lo))).

(* ===================================================================== *)
(** ** The browser and the monad *)
(* ===================================================================== *)

(** The capability set the controller needs from the automation driver.
    [World] is the state of the browser, the page and the clock; each
    operation answers in the current world and moves to the next one. *)
Record Browser (World : Type) : Type := mkBrowser {
  b_init_chrome : bool -> World -> outcome unit * World;
  b_get : string -> World -> outcome unit * World;
  b_ready_state : nat -> World -> outcome unit * World;
  b_current_url : World -> outcome string * World;
  b_wait : scope -> nat -> expected_condition -> locator ->
           World -> outcome nat * World;
  b_find_element : locator -> World -> outcome nat * World;
  b_send_keys : WebElement -> list key -> World -> outcome unit * World;
  b_click : WebElement -> World -> outcome unit * World;
  b_get_attribute : WebElement -> string -> World -> outcome (option string) * World;
  b_text : WebElement -> World -> outcome string * World;
  b_save_screenshot : string -> World -> outcome bool * World;
  b_delete_all_cookies : World -> outcome unit * World;
  b_quit : World -> outcome unit * World;
  b_sleep : N -> N -> World -> World
}.

(** What a run threads along: the world and the trace of events so far. *)
Record state (World : Type) : Type := mkState {
  world : World;
  trace : list event
}.

Definition M (World A : Type) : Type := state World -> outcome A * state World.

Definition ret {World A} (a : A) : M World A := fun s => (Ok a, s).

Definition raise {World A} (e : exn) : M World A := fun s => (Raised e, s).

Definition bind {World A B} (m : M World A) (k : A -> M World B) : M World B :=
  fun s => match m s with
           | (Ok a, s') => k a s'
           | (Raised e, s') => (Raised e, s')
           end.

(** [try: m  except ... as e: h e].  Effects of [m] before the exception
    stay. *)
Definition try_except {World A} (m : M World A) (h : exn -> M World A) : M World A :=
  fun s => match m s with
           | (Ok a, s') => (Ok a, s')
           | (Raised e, s') => h e s'
           end.

Declare Scope py_scope.
Delimit Scope py_scope with py.
Notation "x <- m ;; k" := (bind m (fun x => k))
  (at level 61, m at next level, right associativity) : py_scope.
Notation "m ;; k" := (bind m (fun _ => k))
  (at level 61, right associativity) : py_scope.
Local Open Scope py_scope.

(** A call that reaches the outside: record the event, ask the browser. *)
Definition perform {World A} (ev : event) (op : World -> outcome A * World)
  : M World A :=
  fun s => let (r, w) := op (world s) in
           (r, {| world := w; trace := trace s ++ [ev] |}).

(** [for x in xs: ... break ... ] where the body either breaks with a value
    ([Some]) or goes on to the next item ([None], also after [continue]).
    The result is [None] when the loop ran to its end without [break]. *)
Fixpoint for_first {World A B} (xs : list A) (body : A -> M World (option B))
  : M World (option B) :=
  match xs with
  | [] => ret None
  | x :: rest =>
      r <- body x ;;
      match r with
      | Some b => ret (Some b)
      | None => for_first rest body
      end
  end.

(* ===================================================================== *)
(** ** class GmailAutomation *)
(* ===================================================================== *)

(** The object returned by [webdriver.Chrome(...)]. *)
Inductive webdriver : Type := Chrome.

(** The instance attributes: [self.driver] ([None] until [setup_driver]
    succeeds) and [self.headless]. *)
Record GmailAutomation : Type := mkSelf {
  driver : option webdriver;
  headless : bool
}.

Definition default_max_attempts : Z := 3.

(** The double-quote character, and a word put between double quotes: the
    selectors of the source are single-quoted Python strings that contain
    double quotes. *)
Definition dq : string := String (ascii_of_nat 34) EmptyString.

Definition q (s : string) : string := dq ++ s ++ dq.

Definition urls : list string :=
  [ "https://mail.google.com";
    "https://accounts.google.com/ServiceLogin?service=mail";
    "https://accounts.google.com/v3/signin/identifier?service=mail" ].

Definition email_selectors : list string :=
  [ "input[type=" ++ q "email" ++ "]";
    "input[identifier=" ++ q "Email" ++ "]";
    "#identifierId";
    "input[name=" ++ q "identifier" ++ "]" ].

Definition next_buttons : list (string * string) :=
  [ ("id", "identifierNext");
    ("css", "button[data-primary-action=" ++ q "true" ++ "]");
    ("xpath", "//span[text()=" ++ q "Next" ++ "]") ].

Definition password_selectors : list string :=
  [ "input[type=" ++ q "password" ++ "]";
    "input[name=" ++ q "Passwd" ++ "]";
    "#password input" ].

Definition submit_buttons : list (string * string) :=
  [ ("id", "passwordNext");
    ("css", "button[data-primary-action=" ++ q "true" ++ "]");
    ("xpath", "//span[text()=" ++ q "Next" ++ "]") ].

Definition compose_xpath : string := "//div[text()=" ++ q "Compose" ++ "]".

Definition dialog_css : string := "div[role=" ++ q "dialog" ++ "]".

Definition recipient_selectors : list string :=
  [ "input[aria-label=" ++ q "To" ++ "]";
    "input[peoplekit-id=" ++ q "BbVjBd" ++ "]";
    "textarea[name=" ++ q "to" ++ "]";
    "input[type=" ++ q "text" ++ "][aria-label=" ++ q "To" ++ "]" ].

Definition subject_selectors : list string :=
  [ "input[name=" ++ q "subjectbox" ++ "]";
    "input[aria-label=" ++ q "Subject" ++ "]";
    "input[placeholder=" ++ q "Subject" ++ "]";
    "input[name=" ++ q "subject" ++ "]" ].

Definition body_selectors : list string :=
  [ "div[aria-label=" ++ q "Message Body" ++ "]";
    "div[role=" ++ q "textbox" ++ "]";
    "div[g_editable=" ++ q "true" ++ "]";
    "div[aria-label=" ++ q "Message Body" ++ "] > div" ].

Definition send_selectors : list string :=
  [ "div[aria-label*=" ++ q "Send" ++ "]";
    "div[role=" ++ q "button" ++ "][aria-label*=" ++ q "Send" ++ "]";
    "//div[text()=" ++ q "Send" ++ "]";
    "div[guidedhelpid=" ++ q "send_button" ++ "]" ].

Definition close_css : string := "div[aria-label*=" ++ q "Close" ++ "]".

Section Controller.

Context {World : Type} (b : Browser World).

Local Abbreviation Py := (M World).

(** *** Primitive calls *)

Definition log (lvl : level) (m : log_msg) : Py unit :=
  perform (ELog lvl m) (fun w => (Ok tt, w)).

(** [human_delay]: [random.uniform] then [time.sleep]; it cannot raise. *)
Definition human_delay (min_ms max_ms : N) : Py unit :=
  perform (ESleep min_ms max_ms) (fun w => (Ok tt, b_sleep b min_ms max_ms w)).

(** A method call on [self.driver]; on [None] Python raises
    [AttributeError] before anything reaches the browser. *)
Definition on_driver {A} (self : GmailAutomation) (ev : event)
  (op : World -> outcome A * World) : Py A :=
  match driver self with
  | Some Chrome => perform ev op
  | None => raise AttributeError
  end.

Definition get (self : GmailAutomation) (url : string) : Py unit :=
  on_driver self (EGet url) (b_get b url).

Definition current_url (self : GmailAutomation) : Py string :=
  on_driver self ECurrentUrl (b_current_url b).

Definition save_screenshot (self : GmailAutomation) (filename : string) : Py bool :=
  on_driver self (ESaveScreenshot filename) (b_save_screenshot b filename).

Definition delete_all_cookies (self : GmailAutomation) : Py unit :=
  on_driver self EDeleteAllCookies (b_delete_all_cookies b).

Definition quit (self : GmailAutomation) : Py unit :=
  on_driver self EQuit (b_quit b).

Definition found (l : locator) (r : outcome nat * World) : outcome WebElement * World :=
  match r with
  | (Ok n, w) => (Ok {| found_by := l; node := n |}, w)
  | (Raised e, w) => (Raised e, w)
  end.

Definition find_element (self : GmailAutomation) (l : locator) : Py WebElement :=
  on_driver self (EFindElement l) (fun w => found l (b_find_element b l w)).

(** [WebDriverWait(sc, timeout).until(c(l))].  With the driver as scope the
    wait polls [self.driver]; with an element as scope it polls that
    element. *)
Definition wait_until (self : GmailAutomation) (sc : scope) (timeout : nat)
  (c : expected_condition) (l : locator) : Py WebElement :=
  match sc with
  | InDriver =>
      on_driver self (EWait sc timeout c l) (fun w => found l (b_wait b sc timeout c l w))
  | InElement _ =>
      perform (EWait sc timeout c l) (fun w => found l (b_wait b sc timeout c l w))
  end.

Definition send_keys (element : WebElement) (ks : list key) : Py unit :=
  perform (ESendKeys element ks) (b_send_keys b element ks).

Definition click (element : WebElement) : Py unit :=
  perform (EClick element) (b_click b element).

Definition get_attribute (element : WebElement) (name : string) : Py (option string) :=
  perform (EGetAttribute element name) (b_get_attribute b element name).

Definition text (element : WebElement) : Py string :=
  perform (EText element) (b_text b element).

(** [s.strip()] on a value that may be [None]. *)
Definition strip_method (v : option string) : Py string :=
  match v with
  | Some s => ret (strip s)
  | None => raise AttributeError
  end.

(** *** setup_driver, wait_for_page_load *)

(** [_init_chrome]: the options are fixed but for [--headless=new]; starting
    Chrome and hiding [navigator.webdriver] is one call to the outside.  An
    exception is logged and raised again. *)
Definition _init_chrome (self : GmailAutomation) : Py webdriver :=
  try_except
    (perform (EInitChrome (headless self)) (b_init_chrome b (headless self)) ;;
     ret Chrome)
    (fun e =>
       log ERROR (ChromeInitFailed e) ;;
       raise e).

Definition setup_driver (self : GmailAutomation) : Py GmailAutomation :=
  try_except
    (d <- _init_chrome self ;;
     log INFO ChromeInitialized ;;
     ret {| driver := Some d; headless := headless self |})
    (fun e =>
       log ERROR (DriverInitFailed e) ;;
       raise (RuntimeError "Failed to initialize Chrome driver")).

(** [__init__]. *)
Definition init (headless : bool) : Py GmailAutomation :=
  setup_driver {| driver := None; headless := headless |}.

Definition wait_for_page_load (self : GmailAutomation) (timeout : nat) : Py unit :=
  on_driver self (EReadyState timeout) (b_ready_state b timeout).

(** *** clear_field, human_type *)

Definition clear_field (element : WebElement) : Py unit :=
  send_keys element [CONTROL; Char "a"] ;;
  send_keys element [DELETE] ;;
  human_delay 200 500.

(** [for char in text: element.send_keys(char); self.human_delay(0.1, 0.3)] *)
Fixpoint type_chars (element : WebElement) (text : string) : Py unit :=
  match text with
  | EmptyString => ret tt
  | String char rest =>
      send_keys element [Char char] ;;
      human_delay 100 300 ;;
      type_chars element rest
  end.

Definition human_type (element : WebElement) (txt field_name : string) : Py bool :=
  try_except
    (clear_field element ;;
     type_chars element txt ;;
     entered_text <- (if String.eqb field_name "body"
                      then (t <- text element ;; ret (Some t))
                      else get_attribute element "value") ;;
     entered <- strip_method entered_text ;;
     (if negb (String.eqb entered (strip txt)) then
        log WARNING (TextMismatch field_name) ;;
        clear_field element ;;
        send_keys element (keys_of txt)
      else ret tt) ;;
     ret true)
    (fun e =>
       log ERROR (HumanTypeError field_name e) ;;
       ret false).

(** *** The selector cascades *)

(** The four typed-field cascades of [login_to_gmail] and
    [compose_and_send_email] are the same loop up to scope, timeout,
    selector list, text, field name and what follows a successful entry:
<<
    success = False
    for selector in selectors:
        try:
            field = WebDriverWait(sc, timeout).until(
                EC.visibility_of_element_located((By.CSS_SELECTOR, selector)))
            if self.human_type(field, text, field_name):
                success = True
                after
                break
        except:
            continue
>>
    The result is [Some field] when the loop left through [break] (the flag
    is [True] and [field] is the element typed into) and [None] when the
    flag is still [False]. *)
Definition typed_cascade (self : GmailAutomation) (sc : scope) (timeout : nat)
  (selectors : list string) (txt field_name : string) (after : Py unit)
  : Py (option WebElement) :=
  for_first selectors (fun selector =>
    try_except
      (field <- wait_until self sc timeout visibility_of_element_located
                  (CSS_SELECTOR, selector) ;;
       typed <- human_type field txt field_name ;;
       if typed then after ;; ret (Some field) else ret None)
      (fun _ => ret None)).

(** [if not success: raise RuntimeError(msg)] *)
Definition require {A} (r : option A) (msg : string) : Py A :=
  match r with
  | Some a => ret a
  | None => raise (RuntimeError msg)
  end.

Definition by_of (locator_type : string) : By :=
  if String.eqb locator_type "id" then ID
  else if String.eqb locator_type "css" then CSS_SELECTOR
  else XPATH.

(** The button cascades of the login ("next" and "submit"): a [for ... else]
    loop that clicks the first candidate that becomes clickable. *)
Definition click_cascade (self : GmailAutomation) (buttons : list (string * string))
  (min_ms max_ms : N) : Py (option WebElement) :=
  for_first buttons (fun '(locator_type, loc) =>
    try_except
      (btn <- wait_until self InDriver 10 element_to_be_clickable
                (by_of locator_type, loc) ;;
       click btn ;;
       human_delay min_ms max_ms ;;
       ret (Some btn))
      (fun _ => ret None)).

(** *** login_to_gmail *)

(** "Load Gmail with multiple URL options": the [for url in urls] loop. *)
Definition load_gmail (self : GmailAutomation) : Py (option unit) :=
  for_first urls (fun url =>
    try_except
      (get self url ;;
       wait_for_page_load self 30 ;;
       human_delay 3000 5000 ;;
       u <- current_url self ;;
       if contains "google.com/accounts" u then ret (Some tt)
       else
         u' <- current_url self ;;
         if contains "mail.google.com" u' then ret (Some tt) else ret None)
      (fun _ => ret None)).

Definition email_entry (self : GmailAutomation) (email : string) : Py WebElement :=
  r <- typed_cascade self InDriver 10 email_selectors email "email" (ret tt) ;;
  require r "Could not enter email address".

Definition click_next_button (self : GmailAutomation) : Py WebElement :=
  r <- click_cascade self next_buttons 2000 4000 ;;
  require r "Could not click next button".

Definition password_entry (self : GmailAutomation) (password : string) : Py WebElement :=
  r <- typed_cascade self InDriver 15 password_selectors password "password" (ret tt) ;;
  require r "Could not enter password".

Definition submit_login (self : GmailAutomation) : Py WebElement :=
  r <- click_cascade self submit_buttons 5000 8000 ;;
  require r "Could not submit login".

Definition verify_login_success (self : GmailAutomation) : Py WebElement :=
  wait_until self InDriver 30 presence_of_element_located (XPATH, compose_xpath).

(** What a login attempt does after its first log line, up to its
    [return True]. *)
Definition login_steps (self : GmailAutomation) (email password : string) : Py bool :=
  loaded <- load_gmail self ;;
  require loaded "Could not load Gmail login page" ;;
  email_entry self email ;;
  click_next_button self ;;
  password_entry self password ;;
  submit_login self ;;
  verify_login_success self ;;
  log INFO LoginSuccessful ;;
  ret true.

(** The [try] block of one login attempt. *)
Definition login_attempt (self : GmailAutomation) (email password : string)
  (attempt max_attempts : Z) : Py bool :=
  log INFO (LoginAttempt attempt max_attempts) ;;
  login_steps self email password.

(** The [except Exception as e] block of one login attempt.  [Some false]
    is [return False]; [None] falls through to the next attempt. *)
Definition login_failed (self : GmailAutomation) (attempt max_attempts : Z) (e : exn)
  : Py (option bool) :=
  log ERROR (LoginAttemptFailed attempt e) ;;
  if attempt =? max_attempts then
    save_screenshot self "login_failure.png" ;;
    ret (Some false)
  else
    delete_all_cookies self ;;
    human_delay 5000 10000 ;;
    ret None.

(** [login_to_gmail]: [Some true] and [Some false] are [True] and [False];
    [None] is the [None] Python returns when the [for] loop runs out. *)
Definition login_to_gmail (self : GmailAutomation) (email password : string)
  (max_attempts : Z) : Py (option bool) :=
  for_first (range 1 (max_attempts + 1)) (fun attempt =>
    try_except
      (r <- login_attempt self email password attempt max_attempts ;; ret (Some r))
      (login_failed self attempt max_attempts)).

(** *** compose_and_send_email *)

Definition click_compose_button (self : GmailAutomation) : Py WebElement :=
  compose_btn <- wait_until self InDriver 20 element_to_be_clickable
                   (XPATH, compose_xpath) ;;
  human_delay 1000 2000 ;;
  click compose_btn ;;
  ret compose_btn.

Definition wait_for_compose_window (self : GmailAutomation) : Py WebElement :=
  compose_dialog <- wait_until self InDriver 15 visibility_of_element_located
                      (CSS_SELECTOR, dialog_css) ;;
  human_delay 1000 2000 ;;
  ret compose_dialog.

Definition fill_recipient_field (self : GmailAutomation) (compose_dialog : WebElement)
  (recipient : string) : Py WebElement :=
  r <- typed_cascade self (InElement compose_dialog) 10 recipient_selectors
         recipient "recipient" (human_delay 1000 2000) ;;
  require r "Could not fill recipient field".

Definition fill_subject_field (self : GmailAutomation) (compose_dialog : WebElement)
  (subject : string) : Py WebElement :=
  r <- typed_cascade self (InElement compose_dialog) 10 subject_selectors
         subject "subject" (human_delay 1000 2000) ;;
  require r "Could not fill subject field".

Definition fill_body_content (self : GmailAutomation) (compose_dialog : WebElement)
  (body : string) : Py WebElement :=
  r <- for_first body_selectors (fun selector =>
         try_except
           (body_field <- wait_until self (InElement compose_dialog) 10
                            visibility_of_element_located (CSS_SELECTOR, selector) ;;
            click body_field ;;
            human_delay 500 1000 ;;
            send_keys body_field (keys_of body) ;;
            human_delay 1000 2000 ;;
            ret (Some body_field))
           (fun _ => ret None)) ;;
  require r "Could not fill body field".

Definition send_email (self : GmailAutomation) (compose_dialog : WebElement)
  : Py WebElement :=
  r <- for_first send_selectors (fun selector =>
         try_except
           (send_btn <- (if startswith selector "//"
                         then wait_until self (InElement compose_dialog) 10
                                element_to_be_clickable (XPATH, selector)
                         else wait_until self (InElement compose_dialog) 10
                                element_to_be_clickable (CSS_SELECTOR, selector)) ;;
            human_delay 1000 2000 ;;
            click send_btn ;;
            ret (Some send_btn))
           (fun _ => ret None)) ;;
  require r "Could not click send button".

Definition verify_send_completion (self : GmailAutomation) : Py WebElement :=
  wait_until self InDriver 15 invisibility_of_element_located (CSS_SELECTOR, dialog_css).

(** What a send attempt does after its first log line, up to its
    [return True]. *)
Definition send_steps (self : GmailAutomation) (recipient subject body : string)
  : Py bool :=
  click_compose_button self ;;
  compose_dialog <- wait_for_compose_window self ;;
  fill_recipient_field self compose_dialog recipient ;;
  fill_subject_field self compose_dialog subject ;;
  fill_body_content self compose_dialog body ;;
  send_email self compose_dialog ;;
  verify_send_completion self ;;
  log INFO EmailSentSuccessfully ;;
  ret true.

(** The [try] block of one send attempt. *)
Definition send_attempt (self : GmailAutomation) (recipient subject body : string)
  (attempt max_attempts : Z) : Py bool :=
  log INFO (EmailSendingAttempt attempt max_attempts) ;;
  send_steps self recipient subject body.

(** "Try to close the compose window if it's stuck". *)
Definition close_stuck_window (self : GmailAutomation) : Py unit :=
  try_except
    (close_btn <- find_element self (CSS_SELECTOR, close_css) ;;
     click close_btn ;;
     human_delay 2000 3000)
    (fun _ => ret tt).

Definition send_failed (self : GmailAutomation) (attempt max_attempts : Z) (e : exn)
  : Py (option bool) :=
  log ERROR (EmailSendingAttemptFailed attempt e) ;;
  if attempt =? max_attempts then
    save_screenshot self "send_email_failure.png" ;;
    ret (Some false)
  else
    close_stuck_window self ;;
    human_delay 5000 10000 ;;
    ret None.

Definition compose_and_send_email (self : GmailAutomation)
  (recipient subject body : string) (max_attempts : Z) : Py (option bool) :=
  for_first (range 1 (max_attempts + 1)) (fun attempt =>
    try_except
      (r <- send_attempt self recipient subject body attempt max_attempts ;;
       ret (Some r))
      (send_failed self attempt max_attempts)).

(** *** close *)

Definition close (self : GmailAutomation) : Py unit :=
  match driver self with
  | Some _ =>
      try_except
        (quit self ;;
         log INFO BrowserClosed)
        (fun e => log ERROR (ErrorClosingBrowser e))
  | None => ret tt
  end.

End Controller.

(* ===================================================================== *)
(** ** Reading a trace *)
(* ===================================================================== *)

Definition By_eqb (x y : By) : bool :=
  match x, y with
  | ID, ID | CSS_SELECTOR, CSS_SELECTOR | XPATH, XPATH => true
  | _, _ => false
  end.

Definition locator_eqb (x y : locator) : bool :=
  (By_eqb (fst x) (fst y) && String.eqb (snd x) (snd y))%bool.

(** The first candidate of each cascade. *)
Definition first_css (selectors : list string) : locator :=
  (CSS_SELECTOR, hd EmptyString selectors).

Definition passwordNext : locator := (ID, "passwordNext").

Definition identifierNext : locator := (ID, "identifierNext").

(** The operations of the end-to-end scenario, in the spec's words. *)
Inductive operation : Type :=
| navigate
| fill_email
| click_next
| fill_password
| click_submit
| detect_landmark
| open_compose
| fill_recipient
| fill_subject
| fill_body
| click_send
| detect_dialog_closed.

(** Start of an attempt (its first log line) or a screenshot. *)
Definition attempt_or_screenshot (ev : event) : bool :=
  match ev with
  | ELog INFO (LoginAttempt _ _) => true
  | ELog INFO (EmailSendingAttempt _ _) => true
  | ESaveScreenshot _ => true
  | _ => false
  end.

Definition is_attempt (ev : event) : bool :=
  match ev with
  | ELog INFO (LoginAttempt _ _) => true
  | ELog INFO (EmailSendingAttempt _ _) => true
  | _ => false
  end.

(** An event that touches the "passwordNext" control: a probe for it or a
    click on an element found through it. *)
Definition touches_submit (ev : event) : bool :=
  match ev with
  | EWait _ _ _ l => locator_eqb l passwordNext
  | EFindElement l => locator_eqb l passwordNext
  | EClick e => locator_eqb (found_by e) passwordNext
  | _ => false
  end.

(** A probe for an element; it sends nothing to the page. *)
Definition is_probe (ev : event) : bool :=
  match ev with
  | EWait _ _ _ _ => true
  | _ => false
  end.

(** Events through which the controller acts on an element or reads it. *)
Definition on_element (ev : event) : option WebElement :=
  match ev with
  | ESendKeys e _ | EClick e | EGetAttribute e _ | EText e => Some e
  | _ => None
  end.

Definition is_readback (ev : event) : bool :=
  match ev with
  | EGetAttribute _ _ | EText _ => true
  | _ => false
  end.

(** The keystroke that empties a field: [Keys.DELETE], which [clear_field]
    sends after Ctrl+A. *)
Definition is_clear (ev : event) : bool :=
  match ev with
  | ESendKeys _ [DELETE] => true
  | _ => false
  end.

(** A retype is announced by the "Text mismatch" warning. *)
Definition is_retype (ev : event) : bool :=
  match ev with
  | ELog WARNING (TextMismatch _) => true
  | _ => false
  end.

(** Does the message of an error name every candidate of the list? *)
Definition names_all (msg : string) (candidates : list string) : bool :=
  forallb (fun c => contains c msg) candidates.

(** [m] raises [RuntimeError msg] from every state, having done nothing but
    the probes listed. *)
Definition fails_after_probing {World A : Type} (m : M World A) (msg : string)
  (probes : list event) : Prop :=
  forall s, fst (m s) = Raised (RuntimeError msg) /\
            trace (snd (m s)) = (trace s ++ probes)%list.

(** The probes of a css cascade and of a button cascade, in order. *)
Definition css_probes (sc : scope) (timeout : nat) (selectors : list string) : list event :=
  map (fun sel => EWait sc timeout visibility_of_element_located (CSS_SELECTOR, sel))
      selectors.

Definition button_probes (buttons : list (string * string)) : list event :=
  map (fun p => EWait InDriver 10 element_to_be_clickable (by_of (fst p), snd p)) buttons.

Definition send_locator (selector : string) : locator :=
  (if startswith selector "//" then XPATH else CSS_SELECTOR, selector).

Definition send_probes (sc : scope) : list event :=
  map (fun sel => EWait sc 10 element_to_be_clickable (send_locator sel)) send_selectors.

(** The messages of the eight cascades, each with its candidates. *)
Definition cascade_messages : list (string * list string) :=
  [ ("Could not enter email address", email_selectors);
    ("Could not click next button", map snd next_buttons);
    ("Could not enter password", password_selectors);
    ("Could not submit login", map snd submit_buttons);
    ("Could not fill recipient field", recipient_selectors);
    ("Could not fill subject field", subject_selectors);
    ("Could not fill body field", body_selectors);
    ("Could not click send button", send_selectors) ].

(** Does the message name at least one of the candidates? *)
Definition names_some (msg : string) (candidates : list string) : bool :=
  existsb (fun c => contains c msg) candidates.

(** Events after the probe that found [field]: no further probe, and
    nothing on any other element. *)
Definition on_field (field : WebElement) (ev : event) : Prop :=
  is_probe ev = false /\ (on_element ev = None \/ on_element ev = Some field).

(** The read [human_type] makes after typing, as the browser answers it:
    the text of the element when the field is the body, its [value]
    attribute otherwise. *)
Definition read_back {World : Type} (b : Browser World) (e : WebElement)
  (field_name : string) (w : World) : outcome (option string) * World :=
  if String.eqb field_name "body" then
    match b_text b e w with
    | (Ok t, w') => (Ok (Some t), w')
    | (Raised x, w') => (Raised x, w')
    end
  else b_get_attribute b e "value" w.

(** A text field as typing expects it: its content can be read, the way
    [human_type] reads a field of that name, without changing anything; a
    pause leaves it alone; Ctrl+A then Delete empties it; and the text [T]
    sent in one piece into the empty field is kept as it is.  Nothing is
    asked of keystrokes sent one at a time, nor of the read [human_type]
    does not make (the text of an input, the [value] of the body). *)
Record text_field {World : Type} (b : Browser World) (e : WebElement)
  (field_name : string) (content : World -> string) (T : string) : Prop := {
  tf_read : forall w, read_back b e field_name w = (Ok (Some (content w)), w);
  tf_sleep : forall lo hi w, content (b_sleep b lo hi w) = content w;
  tf_select : forall w, fst (b_send_keys b e [CONTROL; Char "a"] w) = Ok tt;
  tf_delete : forall w,
      fst (b_send_keys b e [DELETE] (snd (b_send_keys b e [CONTROL; Char "a"] w))) = Ok tt /\
      content (snd (b_send_keys b e [DELETE] (snd (b_send_keys b e [CONTROL; Char "a"] w))))
      = EmptyString;
  tf_atomic : forall w, content w = EmptyString ->
      fst (b_send_keys b e (keys_of T) w) = Ok tt /\
      content (snd (b_send_keys b e (keys_of T) w)) = T
}.

(** At most [n] events of the extension are selected by [f]. *)
Definition at_most (f : event -> bool) (n : nat) {A} (r : outcome A) (t : list event)
  : Prop :=
  (length (filter f t) <= n)%nat.

Definition anything {A : Type} : A -> Prop := fun _ => True.

Definition nothing {A : Type} : A -> Prop := fun _ => False.

Definition not_passwordNext (l : locator) : Prop := locator_eqb l passwordNext = false.

(** The event does not touch the passwordNext control. *)
Definition no_submit (ev : event) : Prop := touches_submit ev = false.

(** The extension of the trace starts with [ev]. *)
Definition starts_with (ev : event) {A} (r : outcome A) (t : list event) : Prop :=
  exists t', t = ev :: t'.

(* ===================================================================== *)
(** ** Judgements on computations *)
(* ===================================================================== *)

Section Judgements.

Context {World : Type}.

(** From every state, [m] extends the trace by some [t] such that [Q] holds
    of its outcome and [t]. *)
Definition triple {A} (m : M World A) (Q : outcome A -> list event -> Prop) : Prop :=
  forall s, exists t, trace (snd (m s)) = (trace s ++ t)%list /\ Q (fst (m s)) t.

(** [m] emits only events satisfying [P]; a value it returns satisfies [V],
    an exception it raises satisfies [E]. *)
Definition sat {A} (P : event -> Prop) (V : A -> Prop) (E : exn -> Prop)
  (m : M World A) : Prop :=
  triple m (fun r t =>
    Forall P t /\ match r with Ok a => V a | Raised e => E e end).

End Judgements.

(** The resolver always fails: no wait is ever met. *)
Definition never_resolves {World : Type} (b : Browser World) : Prop :=
  forall sc t c l w, exists e, fst (b_wait b sc t c l w) = Raised e.

(* ===================================================================== *)
(** ** A simulated page, for concrete runs *)
(* ===================================================================== *)

Module Sim.

(** The page: the content of each text field, by node, and the field whose
    content is selected, if any. *)
Record page : Type := mkPage {
  values : list (nat * string);
  selected : option nat
}.

Definition blank : page := {| values := []; selected := None |}.

Fixpoint value_of (n : nat) (vs : list (nat * string)) : string :=
  match vs with
  | [] => EmptyString
  | (m, v) :: rest => if Nat.eqb m n then v else value_of n rest
  end.

Fixpoint set_value (n : nat) (v : string) (vs : list (nat * string))
  : list (nat * string) :=
  match vs with
  | [] => [(n, v)]
  | (m, u) :: rest => if Nat.eqb m n then (n, v) :: rest else (m, u) :: set_value n v rest
  end.

Fixpoint take (k : nat) (s : string) : string :=
  match k, s with
  | S k', String c rest => String c (take k' rest)
  | _, _ => EmptyString
  end.

Definition clip (limit : option nat) (s : string) : string :=
  match limit with
  | Some k => take k s
  | None => s
  end.

Definition is_selected (n : nat) (p : page) : bool :=
  match selected p with
  | Some m => Nat.eqb m n
  | None => false
  end.

(** Keystrokes into the field [n]: Ctrl+A selects its content, Delete
    removes a selection, a character replaces a selection or is appended;
    a field with a length limit drops what does not fit. *)
Fixpoint press (limit : option nat) (n : nat) (ctrl : bool) (ks : list key) (p : page)
  : page :=
  match ks with
  | [] => p
  | CONTROL :: rest => press limit n true rest p
  | DELETE :: rest =>
      press limit n false rest
        (if is_selected n p
         then {| values := set_value n EmptyString (values p); selected := None |}
         else p)
  | Char c :: rest =>
      press limit n false rest
        (if ctrl then {| values := values p; selected := Some n |}
         else
           let old := if is_selected n p then EmptyString else value_of n (values p) in
           {| values := set_value n (clip limit (old ++ String c EmptyString)) (values p);
              selected := None |})
  end.

(** What varies between scenarios. *)
Record config : Type := mkConfig {
  url : string;
  resolves : expected_condition -> locator -> option nat;
  typable : nat -> bool;
  maxlength : option nat;
  cookies_ok : bool;
  screenshot_ok : bool
}.

Definition answer {A} (ok : bool) (a : A) (p : page) : outcome A * page :=
  if ok then (Ok a, p) else (Raised (WebDriverException "invalid session id"), p).

Definition browser (c : config) : Browser page := {|
  b_init_chrome := fun _ p => (Ok tt, p);
  b_get := fun _ p => (Ok tt, p);
  b_ready_state := fun _ p => (Ok tt, p);
  b_current_url := fun p => (Ok (url c), p);
  b_wait := fun _ _ cond l p =>
    match resolves c cond l with
    | Some n => (Ok n, p)
    | None => (Raised TimeoutException, p)
    end;
  b_find_element := fun l p =>
    match resolves c presence_of_element_located l with
    | Some n => (Ok n, p)
    | None => (Raised NoSuchElementException, p)
    end;
  b_send_keys := fun e ks p =>
    if typable c (node e)
    then (Ok tt, press (maxlength c) (node e) false ks p)
    else (Raised (WebDriverException "element not interactable"), p);
  b_click := fun _ p => (Ok tt, p);
  b_get_attribute := fun e _ p => (Ok (Some (value_of (node e) (values p))), p);
  b_text := fun e p => (Ok (value_of (node e) (values p)), p);
  b_save_screenshot := fun _ p => answer (screenshot_ok c) true p;
  b_delete_all_cookies := fun p => answer (cookies_ok c) tt p;
  b_quit := fun p => (Ok tt, p);
  b_sleep := fun _ _ p => p
|}.

Definition node_of (l : locator) : nat := String.length (snd l).

Definition inbox : string := "https://mail.google.com/mail/u/0/#inbox".

(** Every locator resolves, every field takes what is typed. *)
Definition happy : config := {|
  url := inbox;
  resolves := fun _ l => Some (node_of l);
  typable := fun _ => true;
  maxlength := None;
  cookies_ok := true;
  screenshot_ok := true
|}.

(** No locator ever resolves. *)
Definition nothing_resolves : config := {|
  url := inbox;
  resolves := fun _ _ => None;
  typable := fun _ => true;
  maxlength := None;
  cookies_ok := true;
  screenshot_ok := true
|}.

(** Only the css selector [sel] resolves; its field takes keystrokes or
    not. *)
Definition only (sel : string) (takes_keys : bool) : config := {|
  url := inbox;
  resolves := fun _ l =>
    if locator_eqb l (CSS_SELECTOR, sel) then Some (node_of l) else None;
  typable := fun _ => takes_keys;
  maxlength := None;
  cookies_ok := true;
  screenshot_ok := true
|}.

(** Everything resolves except the password selectors. *)
Definition no_password_field : config := {|
  url := inbox;
  resolves := fun _ l =>
    if existsb (fun sel => locator_eqb l (CSS_SELECTOR, sel)) password_selectors
    then None else Some (node_of l);
  typable := fun _ => true;
  maxlength := None;
  cookies_ok := true;
  screenshot_ok := true
|}.

(** Every field resolves, the one behind [sel] refuses keystrokes. *)
Definition refuses (sel : string) : config := {|
  url := inbox;
  resolves := fun _ l => Some (node_of l);
  typable := fun n => negb (Nat.eqb n (String.length sel));
  maxlength := None;
  cookies_ok := true;
  screenshot_ok := true
|}.

(** Fields keep at most [k] characters. *)
Definition limited (k : nat) : config := {|
  url := inbox;
  resolves := fun _ l => Some (node_of l);
  typable := fun _ => true;
  maxlength := Some k;
  cookies_ok := true;
  screenshot_ok := true
|}.

(** The session is gone: no element is found and the driver's own calls
    raise. *)
Definition dead_session : config := {|
  url := inbox;
  resolves := fun _ _ => None;
  typable := fun _ => false;
  maxlength := None;
  cookies_ok := false;
  screenshot_ok := false
|}.

(** No locator resolves and the screenshot fails; cookies can be deleted. *)
Definition no_screenshot : config := {|
  url := inbox;
  resolves := fun _ _ => None;
  typable := fun _ => true;
  maxlength := None;
  cookies_ok := true;
  screenshot_ok := false
|}.

Definition start : state page := {| world := blank; trace := [] |}.

Definition me : GmailAutomation := {| driver := Some Chrome; headless := false |}.

Definition field (sel : string) : WebElement :=
  {| found_by := (CSS_SELECTOR, sel); node := node_of (CSS_SELECTOR, sel) |}.

End Sim.

(** Predicates on events that a claim about one kind of event leaves free:
    [P] holds of every event except, possibly, the first log line of an
    attempt, a screenshot, and a probe or click whose locator is not
    [ok]. *)
Record quiet (ok : locator -> Prop) (P : event -> Prop) : Prop := {
  q_get : forall u, P (EGet u);
  q_ready : forall t, P (EReadyState t);
  q_url : P ECurrentUrl;
  q_wait : forall sc t c l, ok l -> P (EWait sc t c l);
  q_find : forall l, ok l -> P (EFindElement l);
  q_click : forall e, ok (found_by e) -> P (EClick e);
  q_keys : forall e ks, P (ESendKeys e ks);
  q_attr : forall e n, P (EGetAttribute e n);
  q_text : forall e, P (EText e);
  q_cookies : P EDeleteAllCookies;
  q_sleep : forall lo hi, P (ESleep lo hi);
  q_log : forall lvl m, is_attempt (ELog lvl m) = false -> P (ELog lvl m)
}.

(** The password field never becomes visible, whatever selector is tried. *)
Definition password_hidden {World : Type} (b : Browser World) : Prop :=
  forall sel sc t w, In sel password_selectors ->
    exists e, fst (b_wait b sc t visibility_of_element_located (CSS_SELECTOR, sel) w)
              = Raised e.

(** The driver's own calls in the failure handlers go through. *)
Definition cleanup_succeeds {World : Type} (b : Browser World) : Prop :=
  (forall f w, exists r, fst (b_save_screenshot b f w) = Ok r) /\
  (forall w, fst (b_delete_all_cookies b w) = Ok tt).

(* ===================================================================== *)
(** ** The interaction shell: the "Send Email" button of [ui.py] *)
(* ===================================================================== *)

(** What the status area shows when the handler of the button is done: one
    of the four fixed messages, or "An error occurred" with the exception. *)
Inductive status : Type :=
| please_fill_in_all_fields
| failed_to_login
| email_sent
| failed_to_send
| an_error_occurred (e : exn).

(** Truth value of a Python string: only the empty string is false. *)
Definition truthy (s : string) : bool :=
  match s with
  | EmptyString => false
  | String _ _ => true
  end.

(** Truth value of what login and send return: [True], [False] or [None]. *)
Definition truthy_result (r : option bool) : bool :=
  match r with
  | Some true => true
  | _ => false
  end.

Section Shell.

Context {World : Type} (b : Browser World).

(** The body of [if st.button("Send Email"):] in [main].  The computation
    returns the message the status area shows in the end; the status is
    written before [automation.close()], and an exception raised anywhere
    inside the [try] replaces it in the [except] clause. *)
Definition send_email_button (email password recipient subject body : string)
  (headless_mode : bool) : M World status :=
  if negb (forallb truthy [email; password; recipient; subject; body]) then
    ret please_fill_in_all_fields
  else
    try_except
      (automation <- init b headless_mode ;;
       login_status <- login_to_gmail b automation email password default_max_attempts ;;
       if negb (truthy_result login_status) then
         close b automation ;;
         ret failed_to_login
       else
         send_status <- compose_and_send_email b automation recipient subject body
                          default_max_attempts ;;
         close b automation ;;
         ret (if truthy_result send_status then email_sent else failed_to_send))
      (fun e => ret (an_error_occurred e)).

End Shell.

(* ===================================================================== *)
(** ** More readers of a trace *)
(* ===================================================================== *)

Definition is_quit (ev : event) : bool :=
  match ev with
  | EQuit => true
  | _ => false
  end.

(** The call that starts Chrome. *)
Definition is_start (ev : event) : bool :=
  match ev with
  | EInitChrome _ => true
  | _ => false
  end.

Definition is_screenshot (ev : event) : bool :=
  match ev with
  | ESaveScreenshot _ => true
  | _ => false
  end.

Definition is_navigation (ev : event) : bool :=
  match ev with
  | EGet _ => true
  | _ => false
  end.

(** An event of [compose_and_send_email]: the first log line of one of its
    attempts. *)
Definition is_send_attempt (ev : event) : bool :=
  match ev with
  | ELog INFO (EmailSendingAttempt _ _) => true
  | _ => false
  end.

(** An event that reaches an element of the page or looks for one. *)
Definition touches_page (ev : event) : bool :=
  match ev with
  | EWait _ _ _ _ | EFindElement _ | ESendKeys _ _ | EClick _
  | EGetAttribute _ _ | EText _ => true
  | _ => false
  end.

(** The test of the URL loop: the page the browser is on counts as the
    login page or the mailbox. *)
Definition lands (u : string) : bool :=
  (contains "google.com/accounts" u || contains "mail.google.com" u)%bool.

(** The keystrokes and pauses of [clear_field] and of the per-character
    loop of [human_type]. *)
Definition clearing_events (e : WebElement) : list event :=
  [ESendKeys e [CONTROL; Char "a"]; ESendKeys e [DELETE]; ESleep 200 500].

Definition typing_events (e : WebElement) (txt : string) : list event :=
  flat_map (fun k => [ESendKeys e [k]; ESleep 100 300]) (keys_of txt).

(** What typing into the element [e] may do: send keys to [e], read [e],
    pause, log. *)
Definition typing_event (e : WebElement) (ev : event) : Prop :=
  match ev with
  | ESendKeys e' _ | EGetAttribute e' _ | EText e' => e' = e
  | ESleep _ _ | ELog _ _ => True
  | _ => False
  end.

(** The read of the field after typing: its text for the body, its
    [value] otherwise. *)
Definition readback_event (e : WebElement) (field_name : string) : event :=
  if String.eqb field_name "body" then EText e else EGetAttribute e "value".

(** A field that takes keystrokes as an empty text input does: its content
    can be read, the way [human_type] reads a field of that name (its text
    for the body, its [value] otherwise), without changing anything; a
    pause leaves it alone; Ctrl+A then Delete empties it; and a character
    typed while nothing is selected ([ready]) is appended. *)
Record faithful_field {World : Type} (b : Browser World) (e : WebElement)
  (field_name : string) (content : World -> string) (ready : World -> Prop) : Prop := {
  ff_read : forall w, read_back b e field_name w = (Ok (Some (content w)), w);
  ff_sleep : forall lo hi w,
      content (b_sleep b lo hi w) = content w /\ (ready w -> ready (b_sleep b lo hi w));
  ff_select : forall w, fst (b_send_keys b e [CONTROL; Char "a"] w) = Ok tt;
  ff_delete : forall w,
      fst (b_send_keys b e [DELETE] (snd (b_send_keys b e [CONTROL; Char "a"] w))) = Ok tt /\
      content (snd (b_send_keys b e [DELETE] (snd (b_send_keys b e [CONTROL; Char "a"] w))))
      = EmptyString /\
      ready (snd (b_send_keys b e [DELETE] (snd (b_send_keys b e [CONTROL; Char "a"] w))));
  ff_char : forall c w, ready w ->
      fst (b_send_keys b e [Char c] w) = Ok tt /\
      content (snd (b_send_keys b e [Char c] w)) = (content w ++ String c EmptyString)%string /\
      ready (snd (b_send_keys b e [Char c] w))
}.

(** The locators of the candidate lists, as the loops build them. *)
Definition css (selectors : list string) : list locator :=
  map (fun sel => (CSS_SELECTOR, sel)) selectors.

Definition buttons_of (buttons : list (string * string)) : list locator :=
  map (fun p => (by_of (fst p), snd p)) buttons.

(** No candidate of the list resolves: a wait for one of them, in the scope
    and with the timeout and the condition of the cascade, is never met. *)
Definition unresolved {World : Type} (b : Browser World) (sc : scope) (timeout : nat)
  (c : expected_condition) (candidates : list locator) : Prop :=
  forall l, In l candidates ->
    forall w, exists e, fst (b_wait b sc timeout c l w) = Raised e.

(** Where login looks for elements: in the whole page, for the candidates
    of its four cascades and for the Compose landmark. *)
Definition login_probe (sc : scope) (l : locator) : Prop :=
  sc = InDriver /\
  In l (css email_selectors ++ buttons_of next_buttons ++ css password_selectors
        ++ buttons_of submit_buttons ++ [(XPATH, compose_xpath)])%list.

(** Where send looks for elements: in the whole page for the Compose button
    and the dialog, inside the dialog for the candidates of its fields and
    of the Send button. *)
Definition send_probe (sc : scope) (l : locator) : Prop :=
  match sc with
  | InDriver => In l [(XPATH, compose_xpath); (CSS_SELECTOR, dialog_css)]
  | InElement d =>
      found_by d = (CSS_SELECTOR, dialog_css) /\
      In l (css recipient_selectors ++ css subject_selectors ++ css body_selectors
            ++ map send_locator send_selectors)%list
  end.

(** Everything [login_to_gmail] can send to the outside: navigation to the
    three entry URLs, probes for the candidates of its four cascades and
    for the Compose landmark, keystrokes into and reads of the email and
    password fields, clicks on the "next" and "submit" candidates, the
    screenshot [login_failure.png], the deletion of the cookies, pauses and
    log lines. *)
Definition login_event (ev : event) : Prop :=
  match ev with
  | EGet u => In u urls
  | EReadyState t => t = 30%nat
  | ECurrentUrl => True
  | EWait sc _ _ l => login_probe sc l
  | ESendKeys e _ => In (found_by e) (css email_selectors ++ css password_selectors)%list
  | EGetAttribute e n =>
      In (found_by e) (css email_selectors ++ css password_selectors)%list /\ n = "value"
  | EClick e => In (found_by e) (buttons_of next_buttons ++ buttons_of submit_buttons)%list
  | ESaveScreenshot f => f = "login_failure.png"
  | EDeleteAllCookies => True
  | ESleep _ _ => True
  | ELog _ _ => True
  | EInitChrome _ | EFindElement _ | EText _ | EQuit => False
  end.

(** Everything [compose_and_send_email] can send to the outside. *)
Definition send_event (ev : event) : Prop :=
  match ev with
  | EWait sc _ _ l => send_probe sc l
  | EFindElement l => l = (CSS_SELECTOR, close_css)
  | ESendKeys e _ =>
      In (found_by e) (css recipient_selectors ++ css subject_selectors
                       ++ css body_selectors)%list
  | EGetAttribute e n =>
      In (found_by e) (css recipient_selectors ++ css subject_selectors)%list /\ n = "value"
  | EClick e =>
      In (found_by e) ((XPATH, compose_xpath) :: (CSS_SELECTOR, close_css)
                       :: css body_selectors ++ map send_locator send_selectors)%list
  | ESaveScreenshot f => f = "send_email_failure.png"
  | ESleep _ _ => True
  | ELog _ _ => True
  | EInitChrome _ | EGet _ | EReadyState _ | ECurrentUrl | EText _
  | EDeleteAllCookies | EQuit => False
  end.

(** Where the steps of an attempt may go: the pages they may navigate to,
    the locators they may look for in a scope, the locators of the elements
    they may type into, read the [value] of, and click. *)
Record alphabet : Type := mkAlphabet {
  a_pages : string -> Prop;
  a_probes : scope -> locator -> Prop;
  a_typed : locator -> Prop;
  a_read : locator -> Prop;
  a_clicked : locator -> Prop
}.

(** [P] holds of every event within the alphabet, of every pause, and of
    every log line other than the first of an attempt. *)
Record permits (A : alphabet) (P : event -> Prop) : Prop := {
  p_get : forall u, a_pages A u -> P (EGet u);
  p_ready : forall u, a_pages A u -> P (EReadyState 30);
  p_url : forall u, a_pages A u -> P ECurrentUrl;
  p_wait : forall sc t c l, a_probes A sc l -> P (EWait sc t c l);
  p_keys : forall e ks, a_typed A (found_by e) -> P (ESendKeys e ks);
  p_value : forall e, a_read A (found_by e) -> P (EGetAttribute e "value");
  p_click : forall e, a_clicked A (found_by e) -> P (EClick e);
  p_sleep : forall lo hi, P (ESleep lo hi);
  p_log : forall lvl m, is_attempt (ELog lvl m) = false -> P (ELog lvl m)
}.

(** The alphabet holds what the steps of a login attempt need. *)
Definition covers_login (A : alphabet) : Prop :=
  (forall u, In u urls -> a_pages A u) /\
  (forall l, In l (css email_selectors ++ css password_selectors)%list ->
     a_probes A InDriver l /\ a_typed A l /\ a_read A l) /\
  (forall l, In l (buttons_of next_buttons ++ buttons_of submit_buttons)%list ->
     a_probes A InDriver l /\ a_clicked A l) /\
  a_probes A InDriver (XPATH, compose_xpath).

(** The alphabet holds what the steps of a send attempt need. *)
Definition covers_send (A : alphabet) : Prop :=
  (a_probes A InDriver (XPATH, compose_xpath) /\ a_clicked A (XPATH, compose_xpath)) /\
  a_probes A InDriver (CSS_SELECTOR, dialog_css) /\
  (forall d l, found_by d = (CSS_SELECTOR, dialog_css) ->
     In l (css recipient_selectors ++ css subject_selectors)%list ->
     a_probes A (InElement d) l /\ a_typed A l /\ a_read A l) /\
  (forall d l, found_by d = (CSS_SELECTOR, dialog_css) -> In l (css body_selectors) ->
     a_probes A (InElement d) l /\ a_typed A l /\ a_clicked A l) /\
  (forall d l, found_by d = (CSS_SELECTOR, dialog_css) ->
     In l (map send_locator send_selectors) ->
     a_probes A (InElement d) l /\ a_clicked A l).

(** No restriction. *)
Definition everywhere : alphabet :=
  {| a_pages := anything;
     a_probes := fun _ _ => True;
     a_typed := anything;
     a_read := anything;
     a_clicked := anything |}.

(** The alphabets of login and of send, as [login_event] and [send_event]
    have them. *)
Definition login_alphabet : alphabet :=
  {| a_pages := fun u => In u urls;
     a_probes := login_probe;
     a_typed := fun l => In l (css email_selectors ++ css password_selectors)%list;
     a_read := fun l => In l (css email_selectors ++ css password_selectors)%list;
     a_clicked := fun l => In l (buttons_of next_buttons ++ buttons_of submit_buttons)%list |}.

Definition send_alphabet : alphabet :=
  {| a_pages := nothing;
     a_probes := send_probe;
     a_typed := fun l => In l (css recipient_selectors ++ css subject_selectors
                               ++ css body_selectors)%list;
     a_read := fun l => In l (css recipient_selectors ++ css subject_selectors)%list;
     a_clicked := fun l => In l ((XPATH, compose_xpath) :: (CSS_SELECTOR, close_css)
                                 :: css body_selectors
                                 ++ map send_locator send_selectors)%list |}.

(** Keystrokes into, and clicks on, an element found through one of the
    locators [ls]. *)
Definition keys_into (ls : list locator) (ev : event) : Prop :=
  match ev with
  | ESendKeys e _ => In (found_by e) ls
  | _ => False
  end.

Definition click_on (ls : list locator) (ev : event) : Prop :=
  match ev with
  | EClick e => In (found_by e) ls
  | _ => False
  end.

(** In [t], every event of kind [B] comes after an event of kind [A]. *)
Definition preceded (A B : event -> Prop) (t : list event) : Prop :=
  forall u ev v, t = (u ++ ev :: v)%list -> B ev -> Exists A u.

(** No locator of [l1] is in [l2]. *)
Definition apart (l1 l2 : list locator) : bool :=
  forallb (fun l => negb (existsb (locator_eqb l) l2)) l1.

(** Nowhere at all. *)
Definition nowhere : alphabet :=
  {| a_pages := nothing;
     a_probes := fun _ _ => False;
     a_typed := nothing;
     a_read := nothing;
     a_clicked := nothing |}.

(** What the screenshots of a run say about its result, [shot] being the
    screenshot of the final failure: after [False] the screenshot was taken
    once, as the last call of the run; after [True] or [None] none was
    taken; if the run raised, at most that one was asked for. *)
Definition screenshot_verdict (shot : event) (r : outcome (option bool)) (t : list event)
  : Prop :=
  match r with
  | Ok (Some false) => exists t', t = (t' ++ [shot])%list /\ filter is_screenshot t' = []
  | Ok _ => filter is_screenshot t = []
  | Raised _ => filter is_screenshot t = [] \/ filter is_screenshot t = [shot]
  end.

(** The events of the retype of [human_type]: the warning, one more
    [clear_field], the whole text in one [send_keys]. *)
Definition retype_events (e : WebElement) (txt field_name : string) : list event :=
  ELog WARNING (TextMismatch field_name) :: clearing_events e ++ [ESendKeys e (keys_of txt)].

(** The events of a [human_type] in which no call raises: one
    [clear_field], the text one character at a time, the read-back and, when
    the read-back differed ([retyped]), the retype. *)
Definition human_type_events (e : WebElement) (txt field_name : string) (retyped : bool)
  : list event :=
  clearing_events e ++ typing_events e txt ++
  readback_event e field_name :: (if retyped then retype_events e txt field_name else []).

(** The events [t] of a run that was to emit [L] and return a value in [V]:
    all of [L] when it returned, the events up to and including the call
    that raised otherwise. *)
Definition spelt {A} (V : A -> Prop) (L : list event) (r : outcome A) (t : list event)
  : Prop :=
  match r with
  | Ok a => V a /\ t = L
  | Raised _ => exists rest, L = (t ++ rest)%list
  end.

(** The same when the events to emit are [Ls true] or [Ls false]. *)
Definition spelt_either {A} (V : A -> Prop) (Ls : bool -> list event)
  (r : outcome A) (t : list event) : Prop :=
  exists c : bool, spelt V (Ls c) r t.

(** [m] returns, and the value it returns and the events it emits satisfy
    [R]. *)
Definition returns {World A : Type} (m : M World A) (R : A -> list event -> Prop) : Prop :=
  triple m (fun r t => exists a, r = Ok a /\ R a t).

(** *** The end-to-end scenario *)

(** What the browser answered during a login attempt that went through:
    the node of each element found, whether the address of the page was
    read a second time (the first test of the URL loop did not hold), and
    whether a read-back differed, so that the text was retyped. *)
Record login_replies : Type := mkLoginReplies {
  url_read_twice : bool;
  email_node : nat;
  email_retyped : bool;
  next_node : nat;
  password_node : nat;
  password_retyped : bool;
  submit_node : nat
}.

(** The same for a send attempt. *)
Record send_replies : Type := mkSendReplies {
  compose_node : nat;
  dialog_node : nat;
  recipient_node : nat;
  recipient_retyped : bool;
  subject_node : nat;
  subject_retyped : bool;
  body_node : nat;
  send_node : nat
}.

(** The operations of a login in which every cascade resolves on its first
    candidate, each with the browser calls and pauses that make it up, in
    the order the code makes them. *)
Definition login_scenario (a : login_replies) (email password : string)
  : list (operation * list event) :=
  let email_field := mkElement (first_css email_selectors) (email_node a) in
  let next_btn := mkElement identifierNext (next_node a) in
  let password_field := mkElement (first_css password_selectors) (password_node a) in
  let submit_btn := mkElement passwordNext (submit_node a) in
  ([ (navigate,
     [EGet "https://mail.google.com"; EReadyState 30; ESleep 3000 5000; ECurrentUrl]
     ++ (if url_read_twice a then [ECurrentUrl] else []));
    (fill_email,
     EWait InDriver 10 visibility_of_element_located (first_css email_selectors)
     :: human_type_events email_field email "email" (email_retyped a));
    (click_next,
     [EWait InDriver 10 element_to_be_clickable identifierNext;
      EClick next_btn;
      ESleep 2000 4000]);
    (fill_password,
     EWait InDriver 15 visibility_of_element_located (first_css password_selectors)
     :: human_type_events password_field password "password" (password_retyped a));
    (click_submit,
     [EWait InDriver 10 element_to_be_clickable passwordNext;
      EClick submit_btn;
      ESleep 5000 8000]);
    (detect_landmark,
     [EWait InDriver 30 presence_of_element_located (XPATH, compose_xpath)]) ])%list.

(** The operations of a send in which every cascade resolves on its first
    candidate. *)
Definition send_scenario (a : send_replies) (recipient subject body : string)
  : list (operation * list event) :=
  let compose_btn := mkElement (XPATH, compose_xpath) (compose_node a) in
  let compose_dialog := mkElement (CSS_SELECTOR, dialog_css) (dialog_node a) in
  let recipient_field := mkElement (first_css recipient_selectors) (recipient_node a) in
  let subject_field := mkElement (first_css subject_selectors) (subject_node a) in
  let body_field := mkElement (first_css body_selectors) (body_node a) in
  let send_btn := mkElement (send_locator (hd EmptyString send_selectors)) (send_node a) in
  ([ (open_compose,
     [EWait InDriver 20 element_to_be_clickable (XPATH, compose_xpath);
      ESleep 1000 2000;
      EClick compose_btn;
      EWait InDriver 15 visibility_of_element_located (CSS_SELECTOR, dialog_css);
      ESleep 1000 2000]);
    (fill_recipient,
     EWait (InElement compose_dialog) 10 visibility_of_element_located
       (first_css recipient_selectors)
     :: human_type_events recipient_field recipient "recipient" (recipient_retyped a)
     ++ [ESleep 1000 2000]);
    (fill_subject,
     EWait (InElement compose_dialog) 10 visibility_of_element_located
       (first_css subject_selectors)
     :: human_type_events subject_field subject "subject" (subject_retyped a)
     ++ [ESleep 1000 2000]);
    (fill_body,
     [EWait (InElement compose_dialog) 10 visibility_of_element_located
        (first_css body_selectors);
      EClick body_field;
      ESleep 500 1000;
      ESendKeys body_field (keys_of body);
      ESleep 1000 2000]);
    (click_send,
     [EWait (InElement compose_dialog) 10 element_to_be_clickable
        (send_locator (hd EmptyString send_selectors));
      ESleep 1000 2000;
      EClick send_btn]);
    (detect_dialog_closed,
     [EWait InDriver 15 invisibility_of_element_located (CSS_SELECTOR, dialog_css)]) ])%list.

(** All the events of a login followed by a send, both successful at the
    first attempt: the log line that starts each attempt, the events of the
    operations, the log line that reports each success. *)
Definition happy_path_events (la : login_replies) (sa : send_replies)
  (email password recipient subject body : string) : list event :=
  (ELog INFO (LoginAttempt 1 default_max_attempts)
   :: flat_map snd (login_scenario la email password)
   ++ ELog INFO LoginSuccessful
   :: ELog INFO (EmailSendingAttempt 1 default_max_attempts)
   :: flat_map snd (send_scenario sa recipient subject body)
   ++ [ELog INFO EmailSentSuccessfully])%list.

(** What a plain text field holds after the keys of one [send_keys]: the
    state is the content and whether all of it is selected.  [Keys.CONTROL]
    stays down until the end of the call; Ctrl+A selects the content,
    Delete removes a selection, a character replaces a selection or is
    appended. *)
Fixpoint press_keys (ctrl : bool) (ks : list key) (st : string * bool) : string * bool :=
  match ks with
  | [] => st
  | CONTROL :: rest => press_keys true rest st
  | DELETE :: rest =>
      press_keys ctrl rest (if snd st then (EmptyString, false) else st)
  | Char c :: rest =>
      press_keys ctrl rest
        (if ctrl then (if Ascii.eqb c "a" then (fst st, true) else st)
         else ((if snd st then EmptyString else fst st) ++ String c EmptyString, false)%string)
  end.

(** The state of such a field, found through [l], after the keystrokes that
    the events [t] send to it. *)
Definition keyed (l : locator) (st : string * bool) (t : list event) : string * bool :=
  fold_left (fun st ev =>
               match ev with
               | ESendKeys e ks =>
                   if locator_eqb (found_by e) l then press_keys false ks st else st
               | _ => st
               end) t st.

(** What the keystrokes of [t] enter into the field found through [l], empty
    at first. *)
Definition entered (l : locator) (t : list event) : string :=
  fst (keyed l (EmptyString, false) t).

(** An event that sends no key to the field found through [l]. *)
Definition elsewhere (l : locator) (ev : event) : Prop :=
  match ev with
  | ESendKeys e _ => locator_eqb (found_by e) l = false
  | _ => True
  end.

(** *** Every cascade resolves on its first candidate *)

(** The waits of the end-to-end scenario: for the first candidate of each
    cascade, for the Compose button and for the compose dialog, each with
    the scope, the timeout and the condition the code waits with. *)
Inductive first_candidate : scope -> nat -> expected_condition -> locator -> Prop :=
| fc_email :
    first_candidate InDriver 10 visibility_of_element_located (first_css email_selectors)
| fc_next :
    first_candidate InDriver 10 element_to_be_clickable identifierNext
| fc_password :
    first_candidate InDriver 15 visibility_of_element_located (first_css password_selectors)
| fc_submit :
    first_candidate InDriver 10 element_to_be_clickable passwordNext
| fc_landmark :
    first_candidate InDriver 30 presence_of_element_located (XPATH, compose_xpath)
| fc_compose :
    first_candidate InDriver 20 element_to_be_clickable (XPATH, compose_xpath)
| fc_dialog :
    first_candidate InDriver 15 visibility_of_element_located (CSS_SELECTOR, dialog_css)
| fc_recipient d :
    found_by d = (CSS_SELECTOR, dialog_css) ->
    first_candidate (InElement d) 10 visibility_of_element_located
      (first_css recipient_selectors)
| fc_subject d :
    found_by d = (CSS_SELECTOR, dialog_css) ->
    first_candidate (InElement d) 10 visibility_of_element_located
      (first_css subject_selectors)
| fc_body d :
    found_by d = (CSS_SELECTOR, dialog_css) ->
    first_candidate (InElement d) 10 visibility_of_element_located
      (first_css body_selectors)
| fc_send d :
    found_by d = (CSS_SELECTOR, dialog_css) ->
    first_candidate (InElement d) 10 element_to_be_clickable
      (send_locator (hd EmptyString send_selectors))
| fc_closed :
    first_candidate InDriver 15 invisibility_of_element_located (CSS_SELECTOR, dialog_css).

(** The first candidates of the four cascades that type with
    [human_type]. *)
Definition typed_first (l : locator) : Prop :=
  l = first_css email_selectors \/ l = first_css password_selectors \/
  l = first_css recipient_selectors \/ l = first_css subject_selectors.

(** The locators of the elements the scenario clicks. *)
Definition clicked_first (l : locator) : Prop :=
  l = identifierNext \/ l = passwordNext \/ l = (XPATH, compose_xpath) \/
  l = first_css body_selectors \/ l = send_locator (hd EmptyString send_selectors).

(** The browser of the end-to-end scenario: the first URL loads and lands
    on the login page or on the mailbox; every cascade resolves on its
    first candidate, and so do the waits for the Compose button and the
    compose dialog; the elements found that way take keystrokes and clicks,
    and the ones typed into with [human_type] have a [value].  Nothing is
    asked of any other URL, locator or element. *)
Record first_try {World : Type} (b : Browser World) : Prop := {
  ft_get : forall w, fst (b_get b "https://mail.google.com" w) = Ok tt;
  ft_ready : forall w, fst (b_ready_state b 30 w) = Ok tt;
  ft_url :
    (forall w, exists u,
        fst (b_current_url b w) = Ok u /\ contains "google.com/accounts" u = true) \/
    (forall w, exists u,
        fst (b_current_url b w) = Ok u /\ contains "mail.google.com" u = true);
  ft_wait : forall sc t c l, first_candidate sc t c l ->
      forall w, exists n, fst (b_wait b sc t c l w) = Ok n;
  ft_keys : forall e ks w,
      typed_first (found_by e) \/ found_by e = first_css body_selectors ->
      fst (b_send_keys b e ks w) = Ok tt;
  ft_value : forall e w, typed_first (found_by e) ->
      exists v, fst (b_get_attribute b e "value" w) = Ok (Some v);
  ft_click : forall e w, clicked_first (found_by e) -> fst (b_click b e w) = Ok tt
}.

(** Scenarios of the simulated page used below. *)

(** No locator resolves and the cookies cannot be deleted. *)
Definition sim_no_cookie_deletion : Sim.config := {|
  Sim.url := Sim.inbox;
  Sim.resolves := fun _ _ => None;
  Sim.typable := fun _ => true;
  Sim.maxlength := None;
  Sim.cookies_ok := false;
  Sim.screenshot_ok := true
|}.

(** The page on which everything resolves, with input elements as they
    are: the content of an input is its [value], its text is empty. *)
Definition sim_input : Browser Sim.page := {|
  b_init_chrome := b_init_chrome (Sim.browser Sim.happy);
  b_get := b_get (Sim.browser Sim.happy);
  b_ready_state := b_ready_state (Sim.browser Sim.happy);
  b_current_url := b_current_url (Sim.browser Sim.happy);
  b_wait := b_wait (Sim.browser Sim.happy);
  b_find_element := b_find_element (Sim.browser Sim.happy);
  b_send_keys := b_send_keys (Sim.browser Sim.happy);
  b_click := b_click (Sim.browser Sim.happy);
  b_get_attribute := b_get_attribute (Sim.browser Sim.happy);
  b_text := fun _ p => (Ok EmptyString, p);
  b_save_screenshot := b_save_screenshot (Sim.browser Sim.happy);
  b_delete_all_cookies := b_delete_all_cookies (Sim.browser Sim.happy);
  b_quit := b_quit (Sim.browser Sim.happy);
  b_sleep := b_sleep (Sim.browser Sim.happy)
|}.

(** An input that misses the keystrokes sent one at a time (a script of the
    page swallows them) and takes what is sent in one piece.  It is an
    input element: its content is its [value], its text is empty. *)
Definition sim_slow_input : Browser Sim.page := {|
  b_init_chrome := b_init_chrome (Sim.browser Sim.happy);
  b_get := b_get (Sim.browser Sim.happy);
  b_ready_state := b_ready_state (Sim.browser Sim.happy);
  b_current_url := b_current_url (Sim.browser Sim.happy);
  b_wait := b_wait (Sim.browser Sim.happy);
  b_find_element := b_find_element (Sim.browser Sim.happy);
  b_send_keys := fun e ks p =>
    match ks with
    | [Char _] => (Ok tt, p)
    | _ => b_send_keys (Sim.browser Sim.happy) e ks p
    end;
  b_click := b_click (Sim.browser Sim.happy);
  b_get_attribute := b_get_attribute (Sim.browser Sim.happy);
  b_text := fun _ p => (Ok EmptyString, p);
  b_save_screenshot := b_save_screenshot (Sim.browser Sim.happy);
  b_delete_all_cookies := b_delete_all_cookies (Sim.browser Sim.happy);
  b_quit := b_quit (Sim.browser Sim.happy);
  b_sleep := b_sleep (Sim.browser Sim.happy)
|}.

(** Only the first candidate of each cascade resolves, with the Compose
    button and the compose dialog; no other locator does. *)
Definition sim_first_only : Sim.config := {|
  Sim.url := Sim.inbox;
  Sim.resolves := fun _ l =>
    if existsb (locator_eqb l)
         [ first_css email_selectors; identifierNext;
           first_css password_selectors; passwordNext;
           (XPATH, compose_xpath); (CSS_SELECTOR, dialog_css);
           first_css recipient_selectors; first_css subject_selectors;
           first_css body_selectors; send_locator (hd EmptyString send_selectors) ]
    then Some (Sim.node_of l) else None;
  Sim.typable := fun _ => true;
  Sim.maxlength := None;
  Sim.cookies_ok := true;
  Sim.screenshot_ok := true
|}.

(** Every page loads, but the browser ends up on a page that is neither
    the login page nor the mailbox. *)
Definition sim_elsewhere : Sim.config := {|
  Sim.url := "https://www.google.com/sorry/index";
  Sim.resolves := fun _ l => Some (Sim.node_of l);
  Sim.typable := fun _ => true;
  Sim.maxlength := None;
  Sim.cookies_ok := true;
  Sim.screenshot_ok := true
|}.

(* ===================================================================== *)
(** ** Rules of the judgements *)
(* ===================================================================== *)

Section Rules.

Context {World : Type}.

Implicit Types (s : state World) (t : list event).

Lemma triple_ret A (a : A) (Q : outcome A -> list event -> Prop) :
  Q (Ok a) [] -> triple (World:=World) (ret a) Q.
Proof.
  intros H s. exists []. simpl. rewrite app_nil_r. auto.
Qed.

Lemma triple_raise A (e : exn) (Q : outcome A -> list event -> Prop) :
  Q (Raised e) [] -> triple (World:=World) (raise e) Q.
Proof.
  intros H s. exists []. simpl. rewrite app_nil_r. auto.
Qed.

Lemma triple_perform A ev (op : World -> outcome A * World)
  (Q : outcome A -> list event -> Prop) :
  (forall w, Q (fst (op w)) [ev]) -> triple (perform ev op) Q.
Proof.
  intros H s. exists [ev]. unfold perform.
  specialize (H (world s)). destruct (op (world s)) as [r w]. simpl in *. auto.
Qed.

Lemma triple_bind A B (m : M World A) (k : A -> M World B)
  (Q1 : outcome A -> list event -> Prop) (Q : outcome B -> list event -> Prop) :
  triple m Q1 ->
  (forall a t1, Q1 (Ok a) t1 -> triple (k a) (fun r t2 => Q r (t1 ++ t2)%list)) ->
  (forall e t1, Q1 (Raised e) t1 -> Q (Raised e) t1) ->
  triple (bind m k) Q.
Proof.
  intros Hm Hk He s. unfold bind.
  destruct (Hm s) as [t1 [Ht1 HQ1]].
  destruct (m s) as [[a | e] s1]; simpl in *.
  - destruct (Hk a t1 HQ1 s1) as [t2 [Ht2 HQ2]].
    exists (t1 ++ t2)%list. rewrite Ht2, Ht1, app_assoc. auto.
  - exists t1. auto.
Qed.

Lemma triple_try A (m : M World A) (h : exn -> M World A)
  (Q1 Q : outcome A -> list event -> Prop) :
  triple m Q1 ->
  (forall a t1, Q1 (Ok a) t1 -> Q (Ok a) t1) ->
  (forall e t1, Q1 (Raised e) t1 -> triple (h e) (fun r t2 => Q r (t1 ++ t2)%list)) ->
  triple (try_except m h) Q.
Proof.
  intros Hm Hok Hh s. unfold try_except.
  destruct (Hm s) as [t1 [Ht1 HQ1]].
  destruct (m s) as [[a | e] s1]; simpl in *.
  - exists t1. auto.
  - destruct (Hh e t1 HQ1 s1) as [t2 [Ht2 HQ2]].
    exists (t1 ++ t2)%list. rewrite Ht2, Ht1, app_assoc. auto.
Qed.

Lemma triple_conseq A (m : M World A) (Q Q' : outcome A -> list event -> Prop) :
  triple m Q -> (forall r t, Q r t -> Q' r t) -> triple m Q'.
Proof.
  intros Hm HQ s. destruct (Hm s) as [t [Ht H]]. exists t. auto.
Qed.

(** What a triple says about one run. *)
Lemma triple_run A (m : M World A) (Q : outcome A -> list event -> Prop) s :
  triple m Q -> exists t, trace (snd (m s)) = (trace s ++ t)%list /\ Q (fst (m s)) t.
Proof. intros H. apply H. Qed.

(** *** Rules of [sat] *)

Lemma sat_ret A P (V : A -> Prop) E (a : A) :
  V a -> sat (World:=World) P V E (ret a).
Proof. intros H. apply triple_ret. auto. Qed.

Lemma sat_raise A P (V : A -> Prop) (E : exn -> Prop) e :
  E e -> sat (World:=World) P V E (raise e).
Proof. intros H. apply triple_raise. auto. Qed.

Lemma sat_perform A P (V : A -> Prop) (E : exn -> Prop) ev
  (op : World -> outcome A * World) :
  P ev ->
  (forall w, match fst (op w) with Ok a => V a | Raised e => E e end) ->
  sat P V E (perform ev op).
Proof.
  intros HP H. apply triple_perform. intros w.
  split; [repeat constructor; exact HP | apply H].
Qed.

Lemma sat_bind A B P (V1 : A -> Prop) (V2 : B -> Prop) E
  (m : M World A) (k : A -> M World B) :
  sat P V1 E m -> (forall a, V1 a -> sat P V2 E (k a)) -> sat P V2 E (bind m k).
Proof.
  intros Hm Hk. eapply triple_bind; [exact Hm | | ].
  - intros a t1 [Ht1 Ha]. eapply triple_conseq; [apply (Hk a Ha) | ].
    intros r t2 [Ht2 Hr]. split; [apply Forall_app; auto | exact Hr].
  - intros e t1 [Ht1 He]. auto.
Qed.

Lemma sat_try A P (V : A -> Prop) (E1 E2 : exn -> Prop)
  (m : M World A) (h : exn -> M World A) :
  sat P V E1 m -> (forall e, E1 e -> sat P V E2 (h e)) -> sat P V E2 (try_except m h).
Proof.
  intros Hm Hh. eapply triple_try; [exact Hm | | ].
  - intros a t1 [Ht1 Ha]. auto.
  - intros e t1 [Ht1 He]. eapply triple_conseq; [apply (Hh e He) | ].
    intros r t2 [Ht2 Hr]. split; [apply Forall_app; auto | exact Hr].
Qed.

Lemma sat_conseq A (P P' : event -> Prop) (V V' : A -> Prop) (E E' : exn -> Prop)
  (m : M World A) :
  sat P V E m ->
  (forall ev, P ev -> P' ev) -> (forall a, V a -> V' a) -> (forall e, E e -> E' e) ->
  sat P' V' E' m.
Proof.
  intros Hm HP HV HE. eapply triple_conseq; [exact Hm | ].
  intros r t [Ht Hr]. split.
  - eapply Forall_impl; [exact HP | exact Ht].
  - destruct r; auto.
Qed.

(** A loop whose body never breaks with a value outside [V]. *)
Lemma sat_for_first A B P (V : option B -> Prop) E (xs : list A)
  (body : A -> M World (option B)) :
  V None ->
  (forall x, In x xs ->
     sat P (fun r => match r with Some y => V (Some y) | None => True end) E (body x)) ->
  sat P V E (for_first xs body).
Proof.
  intros HN. induction xs as [| x rest IH]; intros Hbody; simpl.
  - apply sat_ret. exact HN.
  - eapply sat_bind; [apply Hbody; left; reflexivity | ].
    intros [y |] Hy.
    + apply sat_ret. exact Hy.
    + apply IH. intros x' Hx'. apply Hbody. right. exact Hx'.
Qed.

End Rules.

(* ===================================================================== *)
(** ** What each block of the controller can emit, on any browser *)
(* ===================================================================== *)

Section Blocks.

Context {World : Type} (b : Browser World) (self : GmailAutomation).
Context (ok : locator -> Prop) (P : event -> Prop) (HP : quiet ok P).

Lemma found_ok l (r : outcome nat * World) :
  match fst (found l r) with Ok e => found_by e = l | Raised _ => True end.
Proof. destruct r as [[n | e] w]; simpl; auto. Qed.

Lemma found_raised l (r : outcome nat * World) e :
  fst r = Raised e -> fst (found l r) = Raised e.
Proof. destruct r as [[n | e'] w]; simpl; congruence. Qed.

Lemma found_value l (r : outcome nat * World) n :
  fst r = Ok n -> fst (found l r) = Ok {| found_by := l; node := n |}.
Proof. destruct r as [[n' | e'] w]; simpl; congruence. Qed.

Lemma log_sat lvl m (E : exn -> Prop) :
  P (ELog lvl m) -> sat (World:=World) P anything E (log lvl m).
Proof.
  intros H. apply sat_perform; [exact H | intros w; exact I].
Qed.

Lemma human_delay_sat lo hi (E : exn -> Prop) :
  sat P anything E (human_delay b lo hi).
Proof.
  apply sat_perform; [apply (q_sleep HP) | intros w; exact I].
Qed.

Lemma on_driver_sat A ev (op : World -> outcome A * World) (V : A -> Prop) :
  P ev ->
  (forall w, match fst (op w) with Ok a => V a | Raised _ => True end) ->
  sat P V anything (on_driver self ev op).
Proof.
  intros Hev Hop. unfold on_driver. destruct (driver self) as [[] |].
  - apply sat_perform; [exact Hev | ].
    intros w. specialize (Hop w). destruct (fst (op w)); [exact Hop | exact I].
  - apply sat_raise. exact I.
Qed.

Lemma wait_until_sat sc t c l :
  ok l -> sat P (fun e => found_by e = l) anything (wait_until b self sc t c l).
Proof.
  intros Hl. unfold wait_until. destruct sc.
  - apply on_driver_sat; [apply (q_wait HP); exact Hl | ].
    intros w. apply found_ok.
  - apply sat_perform; [apply (q_wait HP); exact Hl | ].
    intros w. generalize (found_ok l (b_wait b (InElement e) t c l w)).
    destruct (fst (found l (b_wait b (InElement e) t c l w))); auto.
Qed.

Lemma send_keys_sat e ks : sat P anything anything (send_keys b e ks).
Proof.
  apply sat_perform; [apply (q_keys HP) | ].
  intros w. destruct (fst (b_send_keys b e ks w)); exact I.
Qed.

Lemma click_sat e : ok (found_by e) -> sat P anything anything (click b e).
Proof.
  intros He. apply sat_perform; [apply (q_click HP); exact He | ].
  intros w. destruct (fst (b_click b e w)); exact I.
Qed.

Lemma clear_field_sat e : sat P anything anything (clear_field b e).
Proof.
  unfold clear_field.
  eapply sat_bind; [apply send_keys_sat | intros _ _].
  eapply sat_bind; [apply send_keys_sat | intros _ _].
  apply human_delay_sat.
Qed.

Lemma type_chars_sat e txt : sat P anything anything (type_chars b e txt).
Proof.
  induction txt as [| c rest IH]; simpl.
  - apply sat_ret. exact I.
  - eapply sat_bind; [apply send_keys_sat | intros _ _].
    eapply sat_bind; [apply human_delay_sat | intros _ _].
    exact IH.
Qed.

Lemma readback_sat e field_name :
  sat P anything anything
    (if String.eqb field_name "body"
     then bind (text b e) (fun t => ret (Some t))
     else get_attribute b e "value").
Proof.
  destruct (String.eqb field_name "body").
  - eapply sat_bind with (V1 := anything).
    + apply sat_perform; [apply (q_text HP) | ].
      intros w. destruct (fst (b_text b e w)); exact I.
    + intros t _. apply sat_ret. exact I.
  - apply sat_perform; [apply (q_attr HP) | ].
    intros w. destruct (fst (b_get_attribute b e "value" w)); exact I.
Qed.

(** [human_type] catches whatever typing raises: it returns, [True] or
    [False]. *)
Lemma human_type_sat e txt field_name (E : exn -> Prop) :
  sat P anything E (human_type b e txt field_name).
Proof.
  unfold human_type. eapply sat_try with (E1 := anything).
  - eapply sat_bind; [apply clear_field_sat | intros _ _].
    eapply sat_bind; [apply type_chars_sat | intros _ _].
    eapply sat_bind; [apply readback_sat | intros entered_text _].
    eapply sat_bind with (V1 := anything).
    + destruct entered_text; [apply sat_ret | apply sat_raise]; exact I.
    + intros entered _.
      eapply sat_bind with (V1 := anything); [ | intros; apply sat_ret; exact I].
      destruct (negb (String.eqb entered (strip txt))).
      * eapply sat_bind; [apply log_sat; apply (q_log HP); reflexivity | intros _ _].
        eapply sat_bind; [apply clear_field_sat | intros _ _].
        apply send_keys_sat.
      * apply sat_ret. exact I.
  - intros ex _.
    eapply sat_bind; [apply log_sat; apply (q_log HP); reflexivity | intros _ _].
    apply sat_ret. exact I.
Qed.

(** A typed cascade never raises; the field it returns was found through
    one of its selectors. *)
Lemma typed_cascade_sat sc timeout selectors txt field_name after (E : exn -> Prop) :
  (forall sel, In sel selectors -> ok (CSS_SELECTOR, sel)) ->
  sat P anything anything after ->
  sat P (fun r => match r with
                  | Some e => exists sel, In sel selectors /\ found_by e = (CSS_SELECTOR, sel)
                  | None => True
                  end) E
    (typed_cascade b self sc timeout selectors txt field_name after).
Proof.
  intros Hok Hafter. unfold typed_cascade.
  apply sat_for_first; [exact I | ].
  intros sel Hsel. eapply sat_try with (E1 := anything).
  - eapply sat_bind; [apply wait_until_sat; apply Hok; exact Hsel | ].
    intros field Hfield.
    eapply sat_bind; [apply human_type_sat | intros typed _].
    destruct typed.
    + eapply sat_bind; [exact Hafter | intros _ _].
      apply sat_ret. exists sel. auto.
    + apply sat_ret. exact I.
  - intros e _. apply sat_ret. exact I.
Qed.

Lemma click_cascade_sat buttons lo hi (E : exn -> Prop) :
  (forall ty loc, In (ty, loc) buttons -> ok (by_of ty, loc)) ->
  sat P (fun r => match r with
                  | Some e => exists ty loc, In (ty, loc) buttons /\ found_by e = (by_of ty, loc)
                  | None => True
                  end) E
    (click_cascade b self buttons lo hi).
Proof.
  intros Hok. unfold click_cascade.
  apply sat_for_first; [exact I | ].
  intros [ty loc] Hin. eapply sat_try with (E1 := anything).
  - eapply sat_bind; [apply wait_until_sat; apply Hok; exact Hin | ].
    intros btn Hbtn.
    eapply sat_bind; [apply click_sat; rewrite Hbtn; apply Hok; exact Hin | intros _ _].
    eapply sat_bind; [apply human_delay_sat | intros _ _].
    apply sat_ret. exists ty, loc. auto.
  - intros e _. apply sat_ret. exact I.
Qed.

Lemma load_gmail_sat (E : exn -> Prop) : sat P anything E (load_gmail b self).
Proof.
  unfold load_gmail. apply sat_for_first; [exact I | ].
  intros u _. eapply sat_try with (E1 := anything).
  - eapply sat_bind with (V1 := anything);
      [apply on_driver_sat; [apply (q_get HP) | intros w; destruct (fst _); exact I] | intros _ _].
    eapply sat_bind with (V1 := anything);
      [apply on_driver_sat; [apply (q_ready HP) | intros w; destruct (fst _); exact I] | intros _ _].
    eapply sat_bind; [apply human_delay_sat | intros _ _].
    eapply sat_bind with (V1 := anything);
      [apply on_driver_sat; [apply (q_url HP) | intros w; destruct (fst _); exact I] | intros u1 _].
    destruct (contains "google.com/accounts" u1); [apply sat_ret; exact I | ].
    eapply sat_bind with (V1 := anything);
      [apply on_driver_sat; [apply (q_url HP) | intros w; destruct (fst _); exact I] | intros u2 _].
    destruct (contains "mail.google.com" u2); apply sat_ret; exact I.
  - intros e _. apply sat_ret. exact I.
Qed.

Lemma require_sat A (r : option A) msg (V : A -> Prop) :
  (forall a, r = Some a -> V a) ->
  sat (World:=World) P V (fun e => e = RuntimeError msg) (require r msg).
Proof.
  intros H. destruct r; simpl; [apply sat_ret; auto | apply sat_raise; reflexivity].
Qed.

End Blocks.

(** After a cascade: [if not success: raise RuntimeError(msg)]. *)
Lemma require_any {World A} (P : event -> Prop) (r : option A) msg :
  sat (World:=World) P anything anything (require r msg).
Proof.
  eapply sat_conseq;
    [apply require_sat with (P := P) (V := anything); intros; exact I
    | auto | auto | intros; exact I].
Qed.

(* ===================================================================== *)
(** ** The attempt loop *)
(* ===================================================================== *)

Lemma filter_none (f : event -> bool) (t : list event) :
  Forall (fun ev => f ev = false) t -> filter f t = [].
Proof.
  induction 1 as [| ev t Hev _ IH]; simpl; [reflexivity | ].
  rewrite Hev. exact IH.
Qed.

Lemma quiet_no_attempt_or_screenshot :
  quiet anything (fun ev => attempt_or_screenshot ev = false).
Proof.
  constructor; try reflexivity.
  intros lvl m. destruct lvl, m; simpl; congruence.
Qed.

Lemma quiet_no_attempt :
  quiet anything (fun ev => is_attempt ev = false).
Proof.
  constructor; try reflexivity. intros lvl m H. exact H.
Qed.

Lemma range_empty lo : range lo lo = [].
Proof. unfold range. rewrite Z.sub_diag. reflexivity. Qed.

Lemma range_snoc lo hi : lo <= hi -> range lo (hi + 1) = (range lo hi ++ [hi])%list.
Proof.
  intros H. unfold range.
  replace (Z.to_nat (hi + 1 - lo)) with (S (Z.to_nat (hi - lo))) by lia.
  rewrite seq_S, map_app. simpl. f_equal. f_equal. lia.
Qed.

Lemma range_bounds lo hi a : In a (range lo hi) -> lo <= a < hi.
Proof.
  unfold range. rewrite in_map_iff. intros [i [Hi Hin]].
  apply in_seq in Hin. lia.
Qed.

Section Attempts.

Context {World : Type}.

(** The loop when no attempt succeeds: every attempt but the last goes on
    to the next one, the last one ends the loop.  [f] selects the events
    counted, [mk a] is what attempt [a] shows of them, [last] what the
    final handler adds. *)
Lemma attempts_exhausted (f : event -> bool) (mk : Z -> event) (last : event)
  (body : Z -> M World (option bool)) (max_attempts : Z) (l : list Z) :
  (forall a, a <> max_attempts ->
     triple (body a) (fun r t => r = Ok None /\ filter f t = [mk a])) ->
  triple (body max_attempts) (fun r t => filter f t = [mk max_attempts; last]) ->
  ~ In max_attempts l ->
  triple (for_first (l ++ [max_attempts]) body)
    (fun r t => filter f t = (map mk (l ++ [max_attempts]) ++ [last])%list).
Proof.
  intros Hgo Hend. induction l as [| a rest IH]; intros Hnot; simpl.
  - eapply triple_bind; [exact Hend | | ].
    + intros [y |] t1 H1.
      * apply triple_ret. rewrite app_nil_r. exact H1.
      * apply triple_ret. rewrite app_nil_r. exact H1.
    + intros e t1 H1. exact H1.
  - assert (Ha : a <> max_attempts) by (intros ->; apply Hnot; left; reflexivity).
    eapply triple_bind; [apply (Hgo a Ha) | | ].
    + intros r t1 [Hr H1]. inversion Hr; subst r.
      eapply triple_conseq; [apply IH; intros Hin; apply Hnot; right; exact Hin | ].
      intros r t2 H2. simpl in H2. rewrite filter_app, H1, H2. reflexivity.
    + intros e t1 [Hr _]. discriminate Hr.
Qed.

(** The loop never runs more attempts than its list has items, whatever the
    attempts do, provided each shows exactly one start. *)
Lemma attempts_bounded (f : event -> bool) (E : exn -> Prop)
  (body : Z -> M World (option bool)) (l : list Z) :
  (forall a, In a l ->
     triple (body a) (fun r t =>
       length (filter f t) = 1%nat /\ match r with Ok _ => True | Raised e => E e end)) ->
  triple (for_first l body) (fun r t =>
    (length (filter f t) <= length l)%nat /\
    match r with Ok _ => True | Raised e => E e end).
Proof.
  induction l as [| a rest IH]; intros Hbody; simpl.
  - apply triple_ret. simpl. auto.
  - eapply triple_bind; [apply Hbody; left; reflexivity | | ].
    + intros [y |] t1 [H1 _].
      * apply triple_ret. rewrite app_nil_r, H1. split; [lia | exact I].
      * eapply triple_conseq; [apply IH; intros a' Ha'; apply Hbody; right; exact Ha' | ].
        intros r t2 [H2 Hr]. rewrite filter_app, length_app, H1. split; [lia | exact Hr].
    + intros e t1 [H1 He]. rewrite H1. split; [lia | exact He].
Qed.

(** If the last attempt of the list always ends the loop with a Boolean,
    the loop returns a Boolean. *)
Lemma attempts_answer (P : event -> Prop) (E : exn -> Prop)
  (body : Z -> M World (option bool)) (max_attempts : Z) (l : list Z) :
  (forall a, sat P anything E (body a)) ->
  sat P (fun r => r <> None) E (body max_attempts) ->
  In max_attempts l ->
  sat P (fun r => r <> None) E (for_first l body).
Proof.
  intros Hany Hend. induction l as [| a rest IH]; intros Hin; simpl.
  - destruct Hin.
  - destruct (Z.eq_dec a max_attempts) as [-> | Hne].
    + eapply sat_bind; [exact Hend | ].
      intros [y |] Hy; [apply sat_ret; discriminate | congruence].
    + eapply sat_bind; [apply Hany | ].
      intros [y |] _; [apply sat_ret; discriminate | ].
      apply IH. destruct Hin as [Heq | Hin]; [congruence | exact Hin].
Qed.

End Attempts.

(* ===================================================================== *)
(** ** Attempts and their failure handlers *)
(* ===================================================================== *)

Section Handlers.

Context {World : Type} (b : Browser World) (self : GmailAutomation).
Context (ok : locator -> Prop) (P : event -> Prop) (HP : quiet ok P).

Lemma save_screenshot_sat filename (E : exn -> Prop) :
  P (ESaveScreenshot filename) ->
  (forall e, E e) \/ (driver self = Some Chrome /\ cleanup_succeeds b) ->
  sat P anything E (save_screenshot b self filename).
Proof.
  intros Hshot [HE | [Hd [Hs _]]]; unfold save_screenshot, on_driver.
  - destruct (driver self) as [[] |]; [ | apply sat_raise; apply HE].
    apply sat_perform; [exact Hshot | ].
    intros w. destruct (fst (b_save_screenshot b filename w)); [exact I | apply HE].
  - rewrite Hd. apply sat_perform; [exact Hshot | ].
    intros w. destruct (Hs filename w) as [r Hr]. rewrite Hr. exact I.
Qed.

Lemma delete_all_cookies_sat (E : exn -> Prop) :
  (forall e, E e) \/ (driver self = Some Chrome /\ cleanup_succeeds b) ->
  sat P anything E (delete_all_cookies b self).
Proof.
  intros [HE | [Hd [_ Hc]]]; unfold delete_all_cookies, on_driver.
  - destruct (driver self) as [[] |]; [ | apply sat_raise; apply HE].
    apply sat_perform; [apply (q_cookies HP) | ].
    intros w. destruct (fst (b_delete_all_cookies b w)); [exact I | apply HE].
  - rewrite Hd. apply sat_perform; [apply (q_cookies HP) | ].
    intros w. rewrite Hc. exact I.
Qed.

(** The login handler returns [False] on the last attempt and goes on
    otherwise; it raises only if its own driver call does. *)
Lemma login_failed_sat attempt max_attempts e (E : exn -> Prop) :
  P (ESaveScreenshot "login_failure.png") ->
  (forall e, E e) \/ (driver self = Some Chrome /\ cleanup_succeeds b) ->
  sat P (fun r => r <> Some true /\ (attempt = max_attempts -> r <> None)) E
    (login_failed b self attempt max_attempts e).
Proof.
  intros Hshot HE. unfold login_failed.
  eapply sat_bind; [apply log_sat; apply (q_log HP); reflexivity | intros _ _].
  destruct (Z.eqb_spec attempt max_attempts) as [Heq | Hne].
  - eapply sat_bind; [apply save_screenshot_sat; assumption | intros _ _].
    apply sat_ret. split; intros; discriminate.
  - eapply sat_bind; [apply delete_all_cookies_sat; assumption | intros _ _].
    eapply sat_bind; [apply (human_delay_sat b HP) | intros _ _].
    apply sat_ret. split; [discriminate | intros Heq; contradiction].
Qed.

Lemma close_stuck_window_sat (E : exn -> Prop) :
  ok (CSS_SELECTOR, close_css) ->
  sat P anything E (close_stuck_window b self).
Proof.
  intros Hok. unfold close_stuck_window. eapply sat_try with (E1 := anything).
  - eapply sat_bind with (V1 := fun e => found_by e = (CSS_SELECTOR, close_css)).
    + unfold find_element. apply on_driver_sat; [apply (q_find HP); exact Hok | ].
      intros w. apply found_ok.
    + intros close_btn Hbtn.
      eapply sat_bind; [apply (click_sat b HP); rewrite Hbtn; exact Hok | intros _ _].
      apply (human_delay_sat b HP).
  - intros e _. apply sat_ret. exact I.
Qed.

(** The send handler raises only if the screenshot does. *)
Lemma send_failed_sat attempt max_attempts e (E : exn -> Prop) :
  P (ESaveScreenshot "send_email_failure.png") ->
  ok (CSS_SELECTOR, close_css) ->
  (forall e, E e) \/ (driver self = Some Chrome /\ cleanup_succeeds b) ->
  sat P (fun r => r <> Some true /\ (attempt = max_attempts -> r <> None)) E
    (send_failed b self attempt max_attempts e).
Proof.
  intros Hshot Hok HE. unfold send_failed.
  eapply sat_bind; [apply log_sat; apply (q_log HP); reflexivity | intros _ _].
  destruct (Z.eqb_spec attempt max_attempts) as [Heq | Hne].
  - eapply sat_bind; [apply save_screenshot_sat; assumption | intros _ _].
    apply sat_ret. split; intros; discriminate.
  - eapply sat_bind; [apply close_stuck_window_sat; exact Hok | intros _ _].
    eapply sat_bind; [apply (human_delay_sat b HP) | intros _ _].
    apply sat_ret. split; [discriminate | intros Heq; contradiction].
Qed.

Lemma email_entry_sat email :
  (forall sel, In sel email_selectors -> ok (CSS_SELECTOR, sel)) ->
  sat P anything anything (email_entry b self email).
Proof.
  intros Hok. unfold email_entry.
  eapply sat_bind; [apply (typed_cascade_sat b self HP); [exact Hok | apply sat_ret; exact I] | ].
  intros ? _. apply require_any.
Qed.

Lemma password_entry_sat password :
  (forall sel, In sel password_selectors -> ok (CSS_SELECTOR, sel)) ->
  sat P anything anything (password_entry b self password).
Proof.
  intros Hok. unfold password_entry.
  eapply sat_bind; [apply (typed_cascade_sat b self HP); [exact Hok | apply sat_ret; exact I] | ].
  intros ? _. apply require_any.
Qed.

Lemma click_next_button_sat :
  (forall ty loc, In (ty, loc) next_buttons -> ok (by_of ty, loc)) ->
  sat P anything anything (click_next_button b self).
Proof.
  intros Hok. unfold click_next_button.
  eapply sat_bind; [apply (click_cascade_sat b self HP); exact Hok | ].
  intros ? _. apply require_any.
Qed.

Lemma submit_login_sat :
  (forall ty loc, In (ty, loc) submit_buttons -> ok (by_of ty, loc)) ->
  sat P anything anything (submit_login b self).
Proof.
  intros Hok. unfold submit_login.
  eapply sat_bind; [apply (click_cascade_sat b self HP); exact Hok | ].
  intros ? _. apply require_any.
Qed.

Lemma wait_until_any sc t c l :
  ok l -> sat P anything anything (wait_until b self sc t c l).
Proof.
  intros Hl. eapply sat_conseq; [apply (wait_until_sat b self HP); exact Hl | auto | | auto].
  intros; exact I.
Qed.

Lemma fill_body_content_sat compose_dialog body :
  (forall sel, In sel body_selectors -> ok (CSS_SELECTOR, sel)) ->
  sat P anything anything (fill_body_content b self compose_dialog body).
Proof.
  intros Hok. unfold fill_body_content.
  eapply sat_bind with (V1 := anything); [ | intros ? _; apply require_any].
  apply sat_for_first; [exact I | ].
  intros sel Hsel. eapply sat_try with (E1 := anything).
  - eapply sat_bind; [apply (wait_until_sat b self HP); apply Hok; exact Hsel | ].
    intros body_field Hfield.
    eapply sat_bind;
      [apply (click_sat b HP); rewrite Hfield; apply Hok; exact Hsel | intros _ _].
    eapply sat_bind; [apply (human_delay_sat b HP) | intros _ _].
    eapply sat_bind; [apply (send_keys_sat b HP) | intros _ _].
    eapply sat_bind; [apply (human_delay_sat b HP) | intros _ _].
    apply sat_ret. exact I.
  - intros e _. apply sat_ret. exact I.
Qed.

Lemma send_email_sat compose_dialog :
  (forall sel, In sel send_selectors ->
     ok (if startswith sel "//" then XPATH else CSS_SELECTOR, sel)) ->
  sat P anything anything (send_email b self compose_dialog).
Proof.
  intros Hok. unfold send_email.
  eapply sat_bind with (V1 := anything); [ | intros ? _; apply require_any].
  apply sat_for_first; [exact I | ].
  intros sel Hsel. specialize (Hok sel Hsel).
  eapply sat_try with (E1 := anything).
  - eapply sat_bind with
      (V1 := fun e => found_by e = (if startswith sel "//" then XPATH else CSS_SELECTOR, sel)).
    + destruct (startswith sel "//"); apply (wait_until_sat b self HP); exact Hok.
    + intros send_btn Hbtn.
      eapply sat_bind; [apply (human_delay_sat b HP) | intros _ _].
      eapply sat_bind; [apply (click_sat b HP); rewrite Hbtn; exact Hok | intros _ _].
      apply sat_ret. exact I.
  - intros e _. apply sat_ret. exact I.
Qed.

End Handlers.

(** With no locator singled out, every step of an attempt is quiet. *)
Section Steps.

Context {World : Type} (b : Browser World) (self : GmailAutomation).
Context (P : event -> Prop) (HP : quiet anything P).

Lemma login_steps_sat email password :
  sat P anything anything (login_steps b self email password).
Proof.
  unfold login_steps.
  eapply sat_bind; [apply (load_gmail_sat b self HP) | ].
  intros loaded _. eapply sat_bind with (V1 := anything).
  { apply require_any. }
  intros _ _.
  eapply sat_bind; [apply (email_entry_sat b self HP); intros; exact I | intros _ _].
  eapply sat_bind; [apply (click_next_button_sat b self HP); intros; exact I | intros _ _].
  eapply sat_bind; [apply (password_entry_sat b self HP); intros; exact I | intros _ _].
  eapply sat_bind; [apply (submit_login_sat b self HP); intros; exact I | intros _ _].
  eapply sat_bind; [apply (wait_until_any b self HP); exact I | intros _ _].
  eapply sat_bind; [apply log_sat; apply (q_log HP); reflexivity | intros _ _].
  apply sat_ret. exact I.
Qed.

Lemma send_steps_sat recipient subject body :
  sat P anything anything (send_steps b self recipient subject body).
Proof.
  unfold send_steps, click_compose_button, wait_for_compose_window.
  eapply sat_bind with (V1 := anything).
  { eapply sat_bind; [apply (wait_until_any b self HP); exact I | intros compose_btn _].
    eapply sat_bind; [apply (human_delay_sat b HP) | intros _ _].
    eapply sat_bind; [apply (click_sat b HP); exact I | intros _ _].
    apply sat_ret. exact I. }
  intros _ _. eapply sat_bind with (V1 := anything).
  { eapply sat_bind; [apply (wait_until_any b self HP); exact I | intros compose_dialog _].
    eapply sat_bind; [apply (human_delay_sat b HP) | intros _ _].
    apply sat_ret. exact I. }
  intros compose_dialog _.
  eapply sat_bind with (V1 := anything).
  { unfold fill_recipient_field. eapply sat_bind;
      [apply (typed_cascade_sat b self HP); [intros; exact I | apply (human_delay_sat b HP)] | ].
    intros ? _. apply require_any. }
  intros _ _. eapply sat_bind with (V1 := anything).
  { unfold fill_subject_field. eapply sat_bind;
      [apply (typed_cascade_sat b self HP); [intros; exact I | apply (human_delay_sat b HP)] | ].
    intros ? _. apply require_any. }
  intros _ _.
  eapply sat_bind; [apply (fill_body_content_sat b self HP); intros; exact I | intros _ _].
  eapply sat_bind; [apply (send_email_sat b self HP); intros; exact I | intros _ _].
  eapply sat_bind; [apply (wait_until_any b self HP); exact I | intros _ _].
  eapply sat_bind; [apply log_sat; apply (q_log HP); reflexivity | intros _ _].
  apply sat_ret. exact I.
Qed.

End Steps.

(* ===================================================================== *)
(** ** One attempt: its start, its steps, its handler *)
(* ===================================================================== *)

Section AttemptBody.

Context {World : Type}.

(** An attempt shows its first log line once; then either its steps return
    and so does the attempt, or they raise and the handler takes over. *)
Lemma attempt_body_triple (f : event -> bool) (L : log_msg)
  (steps : M World bool) (handler : exn -> M World (option bool))
  (Vs : bool -> Prop) (Qh : outcome (option bool) -> list event -> Prop) :
  f (ELog INFO L) = true ->
  sat (fun ev => f ev = false) Vs anything steps ->
  (forall e, triple (handler e) Qh) ->
  triple
    (try_except (bind (bind (log INFO L) (fun _ => steps)) (fun r => ret (Some r))) handler)
    (fun r t =>
       (exists v, r = Ok (Some v) /\ Vs v /\ filter f t = [ELog INFO L]) \/
       (exists t1 t2, t = (t1 ++ t2)%list /\ filter f t1 = [ELog INFO L] /\ Qh r t2)).
Proof.
  intros HL Hsteps Hh.
  eapply triple_try with
    (Q1 := fun r t => filter f t = [ELog INFO L] /\
                      match r with Ok v => exists x, v = Some x /\ Vs x | Raised _ => True end).
  - eapply triple_bind with
      (Q1 := fun r t => filter f t = [ELog INFO L] /\
                        match r with Ok v => Vs v | Raised _ => True end).
    + eapply triple_bind with (Q1 := fun r t => t = [ELog INFO L]).
      * apply triple_perform. intros w. reflexivity.
      * intros _ t1 ->. eapply triple_conseq; [exact Hsteps | ].
        intros r t2 [Ht2 Hr]. simpl. rewrite HL, (filter_none f Ht2).
        split; [reflexivity | destruct r; [exact Hr | exact I]].
      * intros e t1 ->. simpl. rewrite HL. split; [reflexivity | exact I].
    + intros r t1 [H1 Hr]. apply triple_ret. rewrite app_nil_r. split; [exact H1 | eauto].
    + intros e t1 [H1 _]. auto.
  - intros v t1 [H1 [x [-> Hx]]]. left. eauto.
  - intros e t1 [H1 _]. eapply triple_conseq; [apply Hh | ].
    intros r t2 H2. right. exists t1, t2. auto.
Qed.

End AttemptBody.

Section Exhausted.

Context {World : Type} (b : Browser World) (self : GmailAutomation).
Context (Hd : driver self = Some Chrome).
Context (P : event -> Prop) (HP : quiet anything P).

Lemma wait_until_never sc t c l :
  never_resolves b -> sat P nothing anything (wait_until b self sc t c l).
Proof.
  intros Hnever. unfold wait_until.
  assert (Hw : forall w, match fst (found l (b_wait b sc t c l w)) with
                         | Ok a => nothing a | Raised _ => anything tt end).
  { intros w. destruct (Hnever sc t c l w) as [e He].
    rewrite (found_raised l _ He). exact I. }
  destruct sc.
  - unfold on_driver. rewrite Hd.
    apply sat_perform; [apply (q_wait HP); exact I | ].
    intros w. specialize (Hw w). destruct (fst _); [destruct Hw | exact I].
  - apply sat_perform; [apply (q_wait HP); exact I | ].
    intros w. specialize (Hw w). destruct (fst _); [destruct Hw | exact I].
Qed.

Lemma login_steps_never email password :
  never_resolves b -> sat P nothing anything (login_steps b self email password).
Proof.
  intros Hnever. unfold login_steps.
  eapply sat_bind; [apply (load_gmail_sat b self HP) | ].
  intros loaded _. eapply sat_bind with (V1 := anything).
  { apply require_any. }
  intros _ _. eapply sat_bind with (V1 := nothing); [ | intros a []].
  unfold email_entry, typed_cascade.
  eapply sat_bind with (V1 := fun r => r = None).
  - apply sat_for_first; [reflexivity | ].
    intros sel _. eapply sat_try with (E1 := anything).
    + eapply sat_bind with (V1 := nothing);
        [apply wait_until_never; exact Hnever | intros a []].
    + intros e _. apply sat_ret. exact I.
  - intros r ->. apply sat_raise. exact I.
Qed.

Lemma send_steps_never recipient subject body :
  never_resolves b -> sat P nothing anything (send_steps b self recipient subject body).
Proof.
  intros Hnever. unfold send_steps, click_compose_button.
  eapply sat_bind with (V1 := nothing); [ | intros a []].
  eapply sat_bind with (V1 := nothing);
    [apply wait_until_never; exact Hnever | intros a []].
Qed.

End Exhausted.

Section Screenshots.

Context {World : Type} (b : Browser World) (self : GmailAutomation).
Context (Hd : driver self = Some Chrome).

Lemma login_failed_next attempt max_attempts e :
  (forall w, fst (b_delete_all_cookies b w) = Ok tt) ->
  attempt <> max_attempts ->
  triple (login_failed b self attempt max_attempts e)
    (fun r t => r = Ok None /\ filter attempt_or_screenshot t = []).
Proof.
  intros Hc Hne.
  eapply triple_conseq with
    (Q := fun r t => Forall (fun ev => attempt_or_screenshot ev = false) t /\
                     match r with Ok v => v = None | Raised e => nothing e end).
  - unfold login_failed. apply Z.eqb_neq in Hne. rewrite Hne.
    eapply sat_bind; [apply log_sat; reflexivity | intros _ _].
    eapply sat_bind with (V1 := anything).
    + unfold delete_all_cookies, on_driver. rewrite Hd.
      apply sat_perform; [reflexivity | ]. intros w. rewrite Hc. exact I.
    + intros _ _.
      eapply sat_bind; [apply (human_delay_sat b quiet_no_attempt_or_screenshot) | intros _ _].
      apply sat_ret. reflexivity.
  - intros r t [Ht Hr]. split; [ | apply filter_none; exact Ht].
    destruct r as [v | e']; [subst v; reflexivity | destruct Hr].
Qed.

Lemma login_failed_last max_attempts e :
  triple (login_failed b self max_attempts max_attempts e)
    (fun r t => filter attempt_or_screenshot t = [ESaveScreenshot "login_failure.png"]).
Proof.
  unfold login_failed. rewrite Z.eqb_refl.
  eapply triple_bind with
    (Q1 := fun r t => r = Ok tt /\ filter attempt_or_screenshot t = []).
  - apply triple_perform. intros w. split; reflexivity.
  - intros _ t1 [_ H1].
    eapply triple_bind with
      (Q1 := fun r t => t = [ESaveScreenshot "login_failure.png"]).
    + unfold save_screenshot, on_driver. rewrite Hd.
      apply triple_perform. intros w. reflexivity.
    + intros _ t2 ->. apply triple_ret.
      rewrite app_nil_r, filter_app, H1. reflexivity.
    + intros e' t2 ->. rewrite filter_app, H1. reflexivity.
  - intros e' t1 [Hr _]. discriminate Hr.
Qed.

Lemma send_failed_next attempt max_attempts e :
  attempt <> max_attempts ->
  triple (send_failed b self attempt max_attempts e)
    (fun r t => r = Ok None /\ filter attempt_or_screenshot t = []).
Proof.
  intros Hne.
  eapply triple_conseq with
    (Q := fun r t => Forall (fun ev => attempt_or_screenshot ev = false) t /\
                     match r with Ok v => v = None | Raised e => nothing e end).
  - unfold send_failed. apply Z.eqb_neq in Hne. rewrite Hne.
    eapply sat_bind; [apply log_sat; reflexivity | intros _ _].
    eapply sat_bind;
      [apply (close_stuck_window_sat b self quiet_no_attempt_or_screenshot); exact I
      | intros _ _].
    eapply sat_bind; [apply (human_delay_sat b quiet_no_attempt_or_screenshot) | intros _ _].
    apply sat_ret. reflexivity.
  - intros r t [Ht Hr]. split; [ | apply filter_none; exact Ht].
    destruct r as [v | e']; [subst v; reflexivity | destruct Hr].
Qed.

Lemma send_failed_last max_attempts e :
  triple (send_failed b self max_attempts max_attempts e)
    (fun r t =>
       filter attempt_or_screenshot t = [ESaveScreenshot "send_email_failure.png"]).
Proof.
  unfold send_failed. rewrite Z.eqb_refl.
  eapply triple_bind with
    (Q1 := fun r t => r = Ok tt /\ filter attempt_or_screenshot t = []).
  - apply triple_perform. intros w. split; reflexivity.
  - intros _ t1 [_ H1].
    eapply triple_bind with
      (Q1 := fun r t => t = [ESaveScreenshot "send_email_failure.png"]).
    + unfold save_screenshot, on_driver. rewrite Hd.
      apply triple_perform. intros w. reflexivity.
    + intros _ t2 ->. apply triple_ret.
      rewrite app_nil_r, filter_app, H1. reflexivity.
    + intros e' t2 ->. rewrite filter_app, H1. reflexivity.
  - intros e' t1 [Hr _]. discriminate Hr.
Qed.

End Screenshots.

(* ===================================================================== *)
(** ** Claims on the attempt counter and the diagnostic screenshot *)
(* ===================================================================== *)

(** Two facts about the same run name the same extension of the trace. *)
Lemma same_extension (t0 t1 t2 t : list event) :
  t = (t0 ++ t1)%list -> t = (t0 ++ t2)%list -> t1 = t2.
Proof. intros -> H. exact (app_inv_head _ _ _ H). Qed.

Section Counter.

Context {World : Type} (b : Browser World) (self : GmailAutomation).
Context (Hd : driver self = Some Chrome) (Hnever : never_resolves b).

Lemma login_exhausted email password max_attempts :
  (forall w, fst (b_delete_all_cookies b w) = Ok tt) ->
  1 <= max_attempts ->
  triple (login_to_gmail b self email password max_attempts)
    (fun r t =>
       filter attempt_or_screenshot t =
       (map (fun a => ELog INFO (LoginAttempt a max_attempts)) (range 1 (max_attempts + 1))
        ++ [ESaveScreenshot "login_failure.png"])%list).
Proof.
  intros Hc Hmax. unfold login_to_gmail. rewrite range_snoc by exact Hmax.
  assert (Hsteps : sat (fun ev => attempt_or_screenshot ev = false) nothing anything
                     (login_steps b self email password))
    by (apply login_steps_never; auto using quiet_no_attempt_or_screenshot).
  apply attempts_exhausted with
    (mk := fun a => ELog INFO (LoginAttempt a max_attempts)).
  - intros a Ha. eapply triple_conseq.
    + unfold login_attempt.
      apply attempt_body_triple with (f := attempt_or_screenshot) (Vs := nothing);
        [reflexivity | exact Hsteps | ].
      intros e. apply login_failed_next; assumption.
    + intros r t [[v [_ [[] _]]] | [t1 [t2 [-> [H1 [Hr H2]]]]]].
      split; [exact Hr | ]. rewrite filter_app, H1, H2. reflexivity.
  - eapply triple_conseq.
    + unfold login_attempt.
      apply attempt_body_triple with (f := attempt_or_screenshot) (Vs := nothing);
        [reflexivity | exact Hsteps | ].
      intros e. apply login_failed_last; assumption.
    + intros r t [[v [_ [[] _]]] | [t1 [t2 [-> [H1 H2]]]]].
      rewrite filter_app, H1, H2. reflexivity.
  - intros Hin. apply range_bounds in Hin. lia.
Qed.

Lemma send_exhausted recipient subject body max_attempts :
  1 <= max_attempts ->
  triple (compose_and_send_email b self recipient subject body max_attempts)
    (fun r t =>
       filter attempt_or_screenshot t =
       (map (fun a => ELog INFO (EmailSendingAttempt a max_attempts))
            (range 1 (max_attempts + 1))
        ++ [ESaveScreenshot "send_email_failure.png"])%list).
Proof.
  intros Hmax. unfold compose_and_send_email. rewrite range_snoc by exact Hmax.
  assert (Hsteps : sat (fun ev => attempt_or_screenshot ev = false) nothing anything
                     (send_steps b self recipient subject body))
    by (apply send_steps_never; auto using quiet_no_attempt_or_screenshot).
  apply attempts_exhausted with
    (mk := fun a => ELog INFO (EmailSendingAttempt a max_attempts)).
  - intros a Ha. eapply triple_conseq.
    + unfold send_attempt.
      apply attempt_body_triple with (f := attempt_or_screenshot) (Vs := nothing);
        [reflexivity | exact Hsteps | ].
      intros e. apply send_failed_next; assumption.
    + intros r t [[v [_ [[] _]]] | [t1 [t2 [-> [H1 [Hr H2]]]]]].
      split; [exact Hr | ]. rewrite filter_app, H1, H2. reflexivity.
  - eapply triple_conseq.
    + unfold send_attempt.
      apply attempt_body_triple with (f := attempt_or_screenshot) (Vs := nothing);
        [reflexivity | exact Hsteps | ].
      intros e. apply send_failed_last; assumption.
    + intros r t [[v [_ [[] _]]] | [t1 [t2 [-> [H1 H2]]]]].
      rewrite filter_app, H1, H2. reflexivity.
  - intros Hin. apply range_bounds in Hin. lia.
Qed.

End Counter.

Section Cookies.

Context {World : Type} (b : Browser World) (self : GmailAutomation).
Context (Hd : driver self = Some Chrome) (Hnever : never_resolves b).

(** The handler of a login attempt that is not the last: it takes no
    screenshot, and either goes on to the next attempt or raises what the
    cookie deletion raised, that call being its last. *)
Lemma login_failed_between attempt max_attempts e :
  attempt <> max_attempts ->
  triple (login_failed b self attempt max_attempts e)
    (fun r t =>
       filter attempt_or_screenshot t = [] /\
       (r = Ok None \/
        (exists x, r = Raised x) /\ exists t', t = (t' ++ [EDeleteAllCookies])%list)).
Proof.
  intros Hne. unfold login_failed. apply Z.eqb_neq in Hne. rewrite Hne.
  eapply triple_bind with
    (Q1 := fun r t => r = Ok tt /\ t = [ELog ERROR (LoginAttemptFailed attempt e)]).
  - apply triple_perform. intros w. split; reflexivity.
  - intros _ t1 [_ ->].
    eapply triple_bind with (Q1 := fun r t => t = [EDeleteAllCookies]).
    + unfold delete_all_cookies, on_driver. rewrite Hd.
      apply triple_perform. intros w. reflexivity.
    + intros _ t2 ->.
      eapply triple_bind with (Q1 := fun r t => r = Ok tt /\ exists lo hi, t = [ESleep lo hi]).
      * apply triple_perform. intros w. split; [reflexivity | eauto].
      * intros _ t3 [_ [lo [hi ->]]]. apply triple_ret. simpl. auto.
      * intros x t3 [Hx _]. discriminate Hx.
    + intros x t2 ->. simpl. split; [reflexivity | right].
      split; [eauto | ]. exists [ELog ERROR (LoginAttemptFailed attempt e)]. reflexivity.
  - intros x t1 [Hx _]. discriminate Hx.
Qed.

(** A login attempt that is not the last, when no locator resolves. *)
Lemma login_attempt_between email password attempt max_attempts :
  attempt <> max_attempts ->
  triple
    (try_except
       (bind (login_attempt b self email password attempt max_attempts)
             (fun r => ret (Some r)))
       (login_failed b self attempt max_attempts))
    (fun r t =>
       filter attempt_or_screenshot t = [ELog INFO (LoginAttempt attempt max_attempts)] /\
       (r = Ok None \/
        (exists x, r = Raised x) /\ exists t', t = (t' ++ [EDeleteAllCookies])%list)).
Proof.
  intros Hne. eapply triple_conseq.
  - unfold login_attempt.
    apply attempt_body_triple with (f := attempt_or_screenshot) (Vs := nothing);
      [reflexivity
      | apply login_steps_never; auto using quiet_no_attempt_or_screenshot
      | ].
    intros e. apply login_failed_between. exact Hne.
  - intros r t [[v [_ [[] _]]] | [t1 [t2 [-> [H1 [H2 Hr]]]]]].
    split; [rewrite filter_app, H1, H2; reflexivity | ].
    destruct Hr as [-> | [Hx [t' ->]]]; [left; reflexivity | right].
    split; [exact Hx | ]. exists (t1 ++ t')%list. rewrite app_assoc. reflexivity.
Qed.

(** The last login attempt, when no locator resolves. *)
Lemma login_attempt_last email password max_attempts :
  triple
    (try_except
       (bind (login_attempt b self email password max_attempts max_attempts)
             (fun r => ret (Some r)))
       (login_failed b self max_attempts max_attempts))
    (fun r t =>
       filter attempt_or_screenshot t
       = [ELog INFO (LoginAttempt max_attempts max_attempts);
          ESaveScreenshot "login_failure.png"]).
Proof.
  eapply triple_conseq.
  - unfold login_attempt.
    apply attempt_body_triple with (f := attempt_or_screenshot) (Vs := nothing);
      [reflexivity
      | apply login_steps_never; auto using quiet_no_attempt_or_screenshot
      | ].
    intros e. apply login_failed_last. exact Hd.
  - intros r t [[v [_ [[] _]]] | [t1 [t2 [-> [H1 H2]]]]].
    rewrite filter_app, H1, H2. reflexivity.
Qed.

(** Login with three attempts when no locator resolves: three attempts and
    the screenshot, or one or two attempts cut short by the cookie deletion
    that raised. *)
Lemma login_three_attempts email password :
  triple (login_to_gmail b self email password 3)
    (fun r t =>
       filter attempt_or_screenshot t =
         [ELog INFO (LoginAttempt 1 3); ELog INFO (LoginAttempt 2 3);
          ELog INFO (LoginAttempt 3 3); ESaveScreenshot "login_failure.png"] \/
       (exists x, r = Raised x) /\
       (exists t', t = (t' ++ [EDeleteAllCookies])%list) /\
       (filter attempt_or_screenshot t = [ELog INFO (LoginAttempt 1 3)] \/
        filter attempt_or_screenshot t =
          [ELog INFO (LoginAttempt 1 3); ELog INFO (LoginAttempt 2 3)])).
Proof.
  unfold login_to_gmail. replace (range 1 (3 + 1)) with [1; 2; 3] by reflexivity.
  simpl for_first.
  eapply triple_bind; [apply (login_attempt_between email password (attempt := 1)); lia | | ].
  - intros r1 t1 [H1 [Hr1 | [[x Hx] _]]]; [ | discriminate Hx].
    inversion Hr1; subst r1.
    eapply triple_bind;
      [apply (login_attempt_between email password (attempt := 2)); lia | | ].
    + intros r2 t2 [H2 [Hr2 | [[x Hx] _]]]; [ | discriminate Hx].
      inversion Hr2; subst r2.
      eapply triple_bind; [apply login_attempt_last | | ].
      * intros r3 t3 H3.
        assert (Hall : filter attempt_or_screenshot (t1 ++ t2 ++ t3) =
                       [ELog INFO (LoginAttempt 1 3); ELog INFO (LoginAttempt 2 3);
                        ELog INFO (LoginAttempt 3 3); ESaveScreenshot "login_failure.png"])
          by (rewrite !filter_app, H1, H2, H3; reflexivity).
        destruct r3; [apply triple_ret | apply triple_ret];
          rewrite app_nil_r; left; exact Hall.
      * intros x t3 H3. left. rewrite !filter_app, H1, H2, H3. reflexivity.
    + intros x t2 [H2 [Hr2 | [_ [t' ->]]]]; [discriminate Hr2 | ]. right.
      split; [eauto | ]. split.
      * exists (t1 ++ t')%list. rewrite app_assoc. reflexivity.
      * right. rewrite filter_app, H1, H2. reflexivity.
  - intros x t1 [H1 [Hr1 | [_ Ht1]]]; [discriminate Hr1 | ]. right.
    split; [eauto | ]. split; [exact Ht1 | left; exact H1].
Qed.

End Cookies.

(** C4, as the code has it.  With [max_attempts = 3], an existing driver and
    a resolver that always fails, sending starts exactly three attempts and
    takes exactly one screenshot, after the third, to
    [send_email_failure.png]: of the events of the run, the starts of
    attempts and the screenshots are exactly the four listed, in that order.
    Login does the same, with [login_failure.png], when the cookie deletion
    between its attempts goes through.  When that call raises, after the
    first or the second attempt, it is the last call of the run:
    [login_to_gmail] raises, fewer than three attempts were started and no
    screenshot is taken.  In no case is there a screenshot before the third
    attempt. *)
Theorem three_attempts_one_screenshot :
  forall (World : Type) (b : Browser World) (self : GmailAutomation)
         (email password recipient subject body : string) (s : state World),
    driver self = Some Chrome ->
    never_resolves b ->
    (exists t,
       trace (snd (login_to_gmail b self email password 3 s)) = (trace s ++ t)%list /\
       (filter attempt_or_screenshot t =
          [ELog INFO (LoginAttempt 1 3); ELog INFO (LoginAttempt 2 3);
           ELog INFO (LoginAttempt 3 3); ESaveScreenshot "login_failure.png"] \/
        (exists x, fst (login_to_gmail b self email password 3 s) = Raised x) /\
        (exists t', t = (t' ++ [EDeleteAllCookies])%list) /\
        (filter attempt_or_screenshot t = [ELog INFO (LoginAttempt 1 3)] \/
         filter attempt_or_screenshot t =
           [ELog INFO (LoginAttempt 1 3); ELog INFO (LoginAttempt 2 3)])) /\
       ((forall w, fst (b_delete_all_cookies b w) = Ok tt) ->
        filter attempt_or_screenshot t =
          [ELog INFO (LoginAttempt 1 3); ELog INFO (LoginAttempt 2 3);
           ELog INFO (LoginAttempt 3 3); ESaveScreenshot "login_failure.png"])) /\
    (exists t,
       trace (snd (compose_and_send_email b self recipient subject body 3 s))
         = (trace s ++ t)%list /\
       filter attempt_or_screenshot t =
         [ELog INFO (EmailSendingAttempt 1 3); ELog INFO (EmailSendingAttempt 2 3);
          ELog INFO (EmailSendingAttempt 3 3); ESaveScreenshot "send_email_failure.png"]).
Proof.
  intros World b self email password recipient subject body s Hd Hnever. split.
  - destruct (@login_three_attempts World b self Hd Hnever email password s)
      as [t [Ht Hcases]].
    exists t. split; [exact Ht | ]. split; [exact Hcases | ].
    intros Hc.
    assert (H : triple (login_to_gmail b self email password 3)
                  (fun r t => filter attempt_or_screenshot t =
                     (map (fun a => ELog INFO (LoginAttempt a 3)) (range 1 (3 + 1))
                      ++ [ESaveScreenshot "login_failure.png"])%list))
      by (apply login_exhausted; auto; lia).
    destruct (H s) as [t' [Ht' Hf]].
    assert (t' = t) by (eapply same_extension; eassumption). subst t'. exact Hf.
  - assert (H : triple (compose_and_send_email b self recipient subject body 3)
                  (fun r t => filter attempt_or_screenshot t =
                     (map (fun a => ELog INFO (EmailSendingAttempt a 3)) (range 1 (3 + 1))
                      ++ [ESaveScreenshot "send_email_failure.png"])%list))
      by (apply send_exhausted; auto; lia).
    destruct (H s) as [t [Ht Hf]]. exists t. split; [exact Ht | exact Hf].
Qed.

Lemma three_attempts_one_screenshot_witness :
  (forall w, fst (b_delete_all_cookies (Sim.browser Sim.nothing_resolves) w) = Ok tt) /\
  (exists t,
     trace (snd (login_to_gmail (Sim.browser Sim.nothing_resolves) Sim.me
                   "u@x.com" "pw" 3 Sim.start)) = (trace Sim.start ++ t)%list /\
     filter attempt_or_screenshot t =
       [ELog INFO (LoginAttempt 1 3); ELog INFO (LoginAttempt 2 3);
        ELog INFO (LoginAttempt 3 3); ESaveScreenshot "login_failure.png"]) /\
  (exists t,
     trace (snd (compose_and_send_email (Sim.browser Sim.nothing_resolves) Sim.me
                   "r@y.com" "Hi" "Hello" 3 Sim.start)) = (trace Sim.start ++ t)%list /\
     filter attempt_or_screenshot t =
       [ELog INFO (EmailSendingAttempt 1 3); ELog INFO (EmailSendingAttempt 2 3);
        ELog INFO (EmailSendingAttempt 3 3); ESaveScreenshot "send_email_failure.png"]).
Proof.
  assert (Hc : forall w, fst (b_delete_all_cookies (Sim.browser Sim.nothing_resolves) w)
                         = Ok tt) by (intros w; reflexivity).
  split; [exact Hc | ].
  destruct (@three_attempts_one_screenshot Sim.page (Sim.browser Sim.nothing_resolves) Sim.me
              "u@x.com" "pw" "r@y.com" "Hi" "Hello" Sim.start eq_refl
              (fun sc t c l w => ex_intro _ TimeoutException eq_refl))
    as [[t [Ht [_ Hall]]] Hsend].
  split; [exists t; split; [exact Ht | exact (Hall Hc)] | exact Hsend].
Defined.

(** C4 as stated fails for login: no locator resolves, [max_attempts] is 3,
    and the cookie deletion after the first attempt raises.  The exception
    leaves [login_to_gmail]: one attempt was started, not three, and no
    screenshot is taken. *)
Lemma failed_cookie_deletion_stops_the_attempts :
  driver Sim.me = Some Chrome /\
  never_resolves (Sim.browser sim_no_cookie_deletion) /\
  fst (login_to_gmail (Sim.browser sim_no_cookie_deletion) Sim.me "u@x.com" "pw" 3 Sim.start)
    = Raised (WebDriverException "invalid session id") /\
  filter attempt_or_screenshot
    (trace (snd (login_to_gmail (Sim.browser sim_no_cookie_deletion) Sim.me
                   "u@x.com" "pw" 3 Sim.start)))
    = [ELog INFO (LoginAttempt 1 3)].
Proof.
  split; [reflexivity | ]. split.
  - intros sc t c l w. exists TimeoutException. reflexivity.
  - vm_compute. auto.
Qed.

(* ===================================================================== *)
(** ** Claims on what a caller of login, send and close can see *)
(* ===================================================================== *)

Section AttemptResult.

Context {World : Type}.

(** What an attempt returns: [Some] of what its steps return, or what its
    handler returns. *)
Lemma attempt_body_sat (P : event -> Prop) (L : log_msg)
  (steps : M World bool) (handler : exn -> M World (option bool))
  (Vs : bool -> Prop) (V : option bool -> Prop) (E : exn -> Prop) :
  P (ELog INFO L) ->
  sat P Vs anything steps ->
  (forall e, sat P V E (handler e)) ->
  sat P (fun r => (exists x, r = Some x /\ Vs x) \/ V r) E
    (try_except (bind (bind (log INFO L) (fun _ => steps)) (fun r => ret (Some r))) handler).
Proof.
  intros HL Hsteps Hh. eapply sat_try with (E1 := anything).
  - eapply sat_bind with (V1 := Vs).
    + eapply sat_bind; [apply log_sat; exact HL | intros _ _; exact Hsteps].
    + intros r Hr. apply sat_ret. left. eauto.
  - intros e _. eapply sat_conseq; [apply Hh | auto | | auto].
    intros a Ha. right. exact Ha.
Qed.

End AttemptResult.

Lemma in_range_last max_attempts : 1 <= max_attempts -> In max_attempts (range 1 (max_attempts + 1)).
Proof.
  intros H. rewrite range_snoc by exact H. apply in_or_app. right. left. reflexivity.
Qed.

Lemma length_range lo hi : length (range lo hi) = Z.to_nat (hi - lo).
Proof. unfold range. rewrite length_map, length_seq. reflexivity. Qed.

Lemma quiet_anything ok : quiet ok anything.
Proof. constructor; intros; exact I. Qed.

Section Results.

Context {World : Type} (b : Browser World) (self : GmailAutomation).

Lemma login_body_sat (P : event -> Prop) (E : exn -> Prop) email password attempt max_attempts :
  quiet anything P ->
  P (ELog INFO (LoginAttempt attempt max_attempts)) ->
  P (ESaveScreenshot "login_failure.png") ->
  (forall e, E e) \/ (driver self = Some Chrome /\ cleanup_succeeds b) ->
  sat P (fun r => attempt = max_attempts -> r <> None) E
    (try_except
       (bind (login_attempt b self email password attempt max_attempts)
             (fun r => ret (Some r)))
       (login_failed b self attempt max_attempts)).
Proof.
  intros HP HL Hshot HE. eapply sat_conseq.
  - unfold login_attempt.
    apply attempt_body_sat with (Vs := anything);
      [exact HL | apply login_steps_sat; exact HP | ].
    intros e. eapply login_failed_sat; [exact HP | exact Hshot | exact HE].
  - auto.
  - intros r [[x [-> _]] | [_ Hr]]; [discriminate | exact Hr].
  - auto.
Qed.

Lemma send_body_sat (P : event -> Prop) (E : exn -> Prop) recipient subject body
  attempt max_attempts :
  quiet anything P ->
  P (ELog INFO (EmailSendingAttempt attempt max_attempts)) ->
  P (ESaveScreenshot "send_email_failure.png") ->
  (forall e, E e) \/ (driver self = Some Chrome /\ cleanup_succeeds b) ->
  sat P (fun r => attempt = max_attempts -> r <> None) E
    (try_except
       (bind (send_attempt b self recipient subject body attempt max_attempts)
             (fun r => ret (Some r)))
       (send_failed b self attempt max_attempts)).
Proof.
  intros HP HL Hshot HE. eapply sat_conseq.
  - unfold send_attempt.
    apply attempt_body_sat with (Vs := anything);
      [exact HL | apply send_steps_sat; exact HP | ].
    intros e. eapply send_failed_sat; [exact HP | exact Hshot | exact I | exact HE].
  - auto.
  - intros r [[x [-> _]] | [_ Hr]]; [discriminate | exact Hr].
  - auto.
Qed.

(** With working handlers, login answers [True] or [False]. *)
Lemma login_answers email password max_attempts :
  driver self = Some Chrome -> cleanup_succeeds b -> 1 <= max_attempts ->
  sat anything (fun r => r <> None) nothing
    (login_to_gmail b self email password max_attempts).
Proof.
  intros Hd Hc Hmax. unfold login_to_gmail.
  apply attempts_answer with (max_attempts := max_attempts).
  - intros a. eapply sat_conseq;
      [apply login_body_sat with (P := anything) (E := nothing) | auto | | auto];
      try exact I; auto using quiet_anything. intros; exact I.
  - eapply sat_conseq;
      [apply login_body_sat with (P := anything) (E := nothing) | auto | | auto];
      try exact I; auto using quiet_anything.
  - apply in_range_last. exact Hmax.
Qed.

Lemma send_answers recipient subject body max_attempts :
  driver self = Some Chrome -> cleanup_succeeds b -> 1 <= max_attempts ->
  sat anything (fun r => r <> None) nothing
    (compose_and_send_email b self recipient subject body max_attempts).
Proof.
  intros Hd Hc Hmax. unfold compose_and_send_email.
  apply attempts_answer with (max_attempts := max_attempts).
  - intros a. eapply sat_conseq;
      [apply send_body_sat with (P := anything) (E := nothing) | auto | | auto];
      try exact I; auto using quiet_anything. intros; exact I.
  - eapply sat_conseq;
      [apply send_body_sat with (P := anything) (E := nothing) | auto | | auto];
      try exact I; auto using quiet_anything.
  - apply in_range_last. exact Hmax.
Qed.

End Results.

Section Ceiling.

Context {World : Type} (b : Browser World) (self : GmailAutomation).

(** Whatever the browser does, login starts at most [max_attempts]
    attempts. *)
Lemma login_ceiling email password max_attempts :
  triple (login_to_gmail b self email password max_attempts)
    (fun r t => (length (filter is_attempt t) <= Z.to_nat max_attempts)%nat).
Proof.
  eapply triple_conseq.
  - unfold login_to_gmail.
    apply attempts_bounded with (f := is_attempt) (E := anything).
    intros a _. eapply triple_conseq.
    + unfold login_attempt.
      apply attempt_body_triple with
        (f := is_attempt) (Vs := anything)
        (Qh := fun r t => Forall (fun ev => is_attempt ev = false) t /\
                          match r with Ok v => anything v | Raised e => anything e end);
        [reflexivity | apply login_steps_sat; exact quiet_no_attempt | ].
      intros e. eapply sat_conseq;
        [eapply login_failed_sat with (E := anything);
           [exact quiet_no_attempt | reflexivity | left; intros; exact I]
        | auto | intros; exact I | auto].
    + intros r t [[v [-> [_ Hf]]] | [t1 [t2 [-> [H1 [H2 _]]]]]].
      * rewrite Hf. split; [reflexivity | exact I].
      * rewrite filter_app, H1, (filter_none _ H2). split; [reflexivity | ].
        destruct r; exact I.
  - intros r t [Hlen _]. rewrite length_range in Hlen.
    replace (max_attempts + 1 - 1) with max_attempts in Hlen by lia. exact Hlen.
Qed.

Lemma send_ceiling recipient subject body max_attempts :
  triple (compose_and_send_email b self recipient subject body max_attempts)
    (fun r t => (length (filter is_attempt t) <= Z.to_nat max_attempts)%nat).
Proof.
  eapply triple_conseq.
  - unfold compose_and_send_email.
    apply attempts_bounded with (f := is_attempt) (E := anything).
    intros a _. eapply triple_conseq.
    + unfold send_attempt.
      apply attempt_body_triple with
        (f := is_attempt) (Vs := anything)
        (Qh := fun r t => Forall (fun ev => is_attempt ev = false) t /\
                          match r with Ok v => anything v | Raised e => anything e end);
        [reflexivity | apply send_steps_sat; exact quiet_no_attempt | ].
      intros e. eapply sat_conseq;
        [eapply send_failed_sat with (E := anything);
           [exact quiet_no_attempt | reflexivity | exact I | left; intros; exact I]
        | auto | intros; exact I | auto].
    + intros r t [[v [-> [_ Hf]]] | [t1 [t2 [-> [H1 [H2 _]]]]]].
      * rewrite Hf. split; [reflexivity | exact I].
      * rewrite filter_app, H1, (filter_none _ H2). split; [reflexivity | ].
        destruct r; exact I.
  - intros r t [Hlen _]. rewrite length_range in Hlen.
    replace (max_attempts + 1 - 1) with max_attempts in Hlen by lia. exact Hlen.
Qed.

(** [close] returns from every state; whatever [quit] raises is logged. *)
Lemma close_returns (s : state World) : fst (close b self s) = Ok tt.
Proof.
  unfold close. destruct (driver self) as [[] |] eqn:Hd; [ | reflexivity].
  unfold try_except, bind, quit, on_driver, log, perform. rewrite Hd.
  destruct (b_quit b (world s)) as [[[] | e] w]; reflexivity.
Qed.

End Ceiling.

(** C8, as the code has it.  On an existing driver, with [max_attempts >= 1],
    and provided the driver calls that the failure handlers themselves make
    (the screenshot; the cookie deletion between login attempts) go
    through, login and send return [True] or [False] and raise nothing,
    whatever fails inside an attempt; and they start at most [max_attempts]
    attempts. *)
Theorem exhaustion_reported_as_boolean :
  forall (World : Type) (b : Browser World) (self : GmailAutomation)
         (email password recipient subject body : string) (max_attempts : Z)
         (s : state World),
    driver self = Some Chrome ->
    cleanup_succeeds b ->
    1 <= max_attempts ->
    (exists v t,
       fst (login_to_gmail b self email password max_attempts s) = Ok (Some v) /\
       trace (snd (login_to_gmail b self email password max_attempts s))
         = (trace s ++ t)%list /\
       (length (filter is_attempt t) <= Z.to_nat max_attempts)%nat) /\
    (exists v t,
       fst (compose_and_send_email b self recipient subject body max_attempts s)
         = Ok (Some v) /\
       trace (snd (compose_and_send_email b self recipient subject body max_attempts s))
         = (trace s ++ t)%list /\
       (length (filter is_attempt t) <= Z.to_nat max_attempts)%nat).
Proof.
  intros World b self email password recipient subject body max_attempts s Hd Hc Hmax.
  split.
  - destruct (@login_answers _ b self email password max_attempts Hd Hc Hmax s)
      as [t1 [_ [_ Hr]]].
    destruct (@login_ceiling _ b self email password max_attempts s) as [t [Ht Hlen]].
    destruct (fst (login_to_gmail b self email password max_attempts s))
      as [[v |] | e]; [ | congruence | destruct Hr].
    exists v, t. auto.
  - destruct (@send_answers _ b self recipient subject body max_attempts Hd Hc Hmax s)
      as [t1 [_ [_ Hr]]].
    destruct (@send_ceiling _ b self recipient subject body max_attempts s)
      as [t [Ht Hlen]].
    destruct (fst (compose_and_send_email b self recipient subject body max_attempts s))
      as [[v |] | e]; [ | congruence | destruct Hr].
    exists v, t. auto.
Qed.

Lemma exhaustion_reported_as_boolean_witness :
  (exists v t,
     fst (login_to_gmail (Sim.browser Sim.nothing_resolves) Sim.me "u@x.com" "pw" 3 Sim.start)
       = Ok (Some v) /\
     trace (snd (login_to_gmail (Sim.browser Sim.nothing_resolves) Sim.me
                   "u@x.com" "pw" 3 Sim.start)) = (trace Sim.start ++ t)%list /\
     (length (filter is_attempt t) <= Z.to_nat 3)%nat) /\
  (exists v t,
     fst (compose_and_send_email (Sim.browser Sim.nothing_resolves) Sim.me
            "r@y.com" "Hi" "Hello" 3 Sim.start) = Ok (Some v) /\
     trace (snd (compose_and_send_email (Sim.browser Sim.nothing_resolves) Sim.me
                   "r@y.com" "Hi" "Hello" 3 Sim.start)) = (trace Sim.start ++ t)%list /\
     (length (filter is_attempt t) <= Z.to_nat 3)%nat).
Proof.
  apply (@exhaustion_reported_as_boolean Sim.page (Sim.browser Sim.nothing_resolves) Sim.me
           "u@x.com" "pw" "r@y.com" "Hi" "Hello" 3 Sim.start).
  - reflexivity.
  - split; [intros f w; exists true; reflexivity | intros w; reflexivity].
  - lia.
Defined.

(** C8 as stated fails: when no element resolves and the screenshot call
    raises, the exception of the third handler leaves login, and send, as
    an exception. *)
Lemma exhaustion_can_raise :
  fst (login_to_gmail (Sim.browser Sim.no_screenshot) Sim.me "u@x.com" "pw" 3 Sim.start)
    = Raised (WebDriverException "invalid session id") /\
  fst (compose_and_send_email (Sim.browser Sim.no_screenshot) Sim.me
         "r@y.com" "Hi" "Hello" 3 Sim.start)
    = Raised (WebDriverException "invalid session id").
Proof. split; vm_compute; reflexivity. Qed.

(** C9.  With [max_attempts = 0] the loop body never runs: login and send
    return [None], and the state (the browser and the trace: no screenshot,
    no interaction) is as before. *)
Theorem zero_attempts_return_None :
  forall (World : Type) (b : Browser World) (self : GmailAutomation)
         (email password recipient subject body : string) (s : state World),
    login_to_gmail b self email password 0 s = (Ok None, s) /\
    compose_and_send_email b self recipient subject body 0 s = (Ok None, s).
Proof. intros. split; reflexivity. Qed.

(** C6.  [close] never raises: not on a controller without a driver, not
    when [quit] raises, not from the state a failed run left, and not when
    called a second time. *)
Theorem close_never_raises :
  forall (World : Type) (b : Browser World) (self : GmailAutomation) (s : state World),
    fst (close b self s) = Ok tt /\
    fst (close b self (snd (close b self s))) = Ok tt.
Proof. intros. split; apply close_returns. Qed.

(* ===================================================================== *)
(** ** Claim on the password step *)
(* ===================================================================== *)

Lemma quiet_no_submit : quiet not_passwordNext (fun ev => touches_submit ev = false).
Proof. constructor; try reflexivity; intros; assumption. Qed.

Section Started.

Context {World : Type}.

Lemma sat_extends A P V E (m : M World A) :
  sat P V E m -> triple m (fun _ _ => True).
Proof. intros H. eapply triple_conseq; [exact H | auto]. Qed.

Lemma starts_bind ev A B (m : M World A) (k : A -> M World B) :
  triple m (starts_with ev (A:=A)) ->
  (forall a, triple (k a) (fun _ _ => True)) ->
  triple (bind m k) (starts_with ev (A:=B)).
Proof.
  intros Hm Hk. eapply triple_bind; [exact Hm | | ].
  - intros a t1 [t' ->]. eapply triple_conseq; [apply Hk | ].
    intros r t2 _. exists (t' ++ t2)%list. reflexivity.
  - intros e t1 H. exact H.
Qed.

Lemma starts_try ev A (m : M World A) (h : exn -> M World A) :
  triple m (starts_with ev (A:=A)) ->
  (forall e, triple (h e) (fun _ _ => True)) ->
  triple (try_except m h) (starts_with ev (A:=A)).
Proof.
  intros Hm Hh. eapply triple_try; [exact Hm | | ].
  - intros a t1 H. exact H.
  - intros e t1 [t' ->]. eapply triple_conseq; [apply Hh | ].
    intros r t2 _. exists (t' ++ t2)%list. reflexivity.
Qed.

End Started.

Section Password.

Context {World : Type} (b : Browser World) (self : GmailAutomation).

(** When the submit step runs, the first thing it does is probe for the
    "passwordNext" control.  So a run that never probes for it never
    reached the submit step, and made none of its clicks. *)
Lemma submit_login_probes_first :
  driver self = Some Chrome ->
  triple (submit_login b self)
    (starts_with (EWait InDriver 10 element_to_be_clickable passwordNext)
                 (A:=WebElement)).
Proof.
  intros Hd. unfold submit_login.
  apply starts_bind; [ | intros r; destruct r; [apply triple_ret | apply triple_raise]; exact I].
  unfold click_cascade, submit_buttons. simpl for_first.
  apply starts_bind.
  - apply starts_try; [ | intros e; apply triple_ret; exact I].
    apply starts_bind.
    + unfold wait_until, on_driver. rewrite Hd.
      apply triple_perform. intros w. exists []. reflexivity.
    + intros btn.
      apply sat_extends with (P := anything) (V := anything) (E := anything).
      eapply sat_bind; [apply (click_sat b (quiet_anything anything)); exact I | intros _ _].
      eapply sat_bind; [apply (human_delay_sat b (quiet_anything anything)) | intros _ _].
      apply sat_ret. exact I.
  - intros [btn |]; [apply triple_ret; exact I | ].
    eapply sat_extends with (P := anything) (E := anything).
    apply (click_cascade_sat b self (quiet_anything anything)
             [("css", "button[data-primary-action=" ++ q "true" ++ "]");
              ("xpath", "//span[text()=" ++ q "Next" ++ "]")] 5000 8000).
    intros; exact I.
Qed.

Lemma password_entry_hidden password :
  password_hidden b ->
  sat no_submit nothing anything (password_entry b self password).
Proof.
  intros Hhidden. unfold password_entry, typed_cascade.
  eapply sat_bind with (V1 := fun r => r = None).
  - apply sat_for_first; [reflexivity | ].
    intros sel Hsel. eapply sat_try with (E1 := anything).
    + eapply sat_bind with (V1 := nothing); [ | intros a []].
      unfold wait_until, on_driver. destruct (driver self) as [[] |].
      * apply sat_perform; [reflexivity | ].
        intros w. destruct (Hhidden sel InDriver 15%nat w Hsel) as [e He].
        rewrite (found_raised _ _ He). exact I.
      * apply sat_raise. exact I.
    + intros e _. apply sat_ret. exact I.
  - intros r ->. apply sat_raise. exact I.
Qed.

Lemma login_steps_hidden email password :
  password_hidden b ->
  sat no_submit nothing anything (login_steps b self email password).
Proof.
  intros Hhidden. unfold login_steps.
  eapply sat_bind; [apply (load_gmail_sat b self quiet_no_submit) | ].
  intros loaded _. eapply sat_bind with (V1 := anything).
  { apply require_any. }
  intros _ _.
  eapply sat_bind;
    [apply (email_entry_sat b self quiet_no_submit); intros; reflexivity | intros _ _].
  eapply sat_bind.
  { apply (click_next_button_sat b self quiet_no_submit).
    intros ty loc [H | [H | [H | []]]]; inversion H; reflexivity. }
  intros _ _.
  eapply sat_bind with (V1 := nothing); [ | intros a []].
  apply password_entry_hidden. exact Hhidden.
Qed.

Lemma login_hidden email password max_attempts :
  password_hidden b ->
  sat no_submit (fun r => r <> Some true) anything
    (login_to_gmail b self email password max_attempts).
Proof.
  intros Hhidden. unfold login_to_gmail.
  apply sat_for_first; [discriminate | ].
  intros a _. eapply sat_conseq.
  - unfold login_attempt.
    apply attempt_body_sat with (P := no_submit) (Vs := nothing);
      [reflexivity | apply login_steps_hidden; exact Hhidden | ].
    intros e. eapply login_failed_sat with (E := anything);
      [exact quiet_no_submit | reflexivity | left; intros; exact I].
  - auto.
  - intros r [[x [_ []]] | [Hr _]]. destruct r; [exact Hr | exact I].
  - auto.
Qed.

End Password.

(** C5.  If the password field never becomes visible, whichever of its
    selectors is tried, then login never touches the "passwordNext"
    control (it neither probes for it nor clicks an element found through
    it, so the submit step is never reached) and never returns [True]; on
    an existing driver whose handler calls go through, with
    [max_attempts >= 1], it returns [False]. *)
Theorem hidden_password_never_submits :
  forall (World : Type) (b : Browser World) (self : GmailAutomation)
         (email password : string) (max_attempts : Z) (s : state World),
    password_hidden b ->
    exists t,
      trace (snd (login_to_gmail b self email password max_attempts s))
        = (trace s ++ t)%list /\
      Forall (fun ev => touches_submit ev = false) t /\
      fst (login_to_gmail b self email password max_attempts s) <> Ok (Some true) /\
      (driver self = Some Chrome -> cleanup_succeeds b -> 1 <= max_attempts ->
       fst (login_to_gmail b self email password max_attempts s) = Ok (Some false)).
Proof.
  intros World b self email password max_attempts s Hhidden.
  destruct (@login_hidden _ b self email password max_attempts Hhidden s)
    as [t [Ht [HF Hr]]].
  exists t. split; [exact Ht | ]. split; [exact HF | ].
  assert (Hno : fst (login_to_gmail b self email password max_attempts s) <> Ok (Some true)).
  { intros Heq. rewrite Heq in Hr. apply Hr. reflexivity. }
  split; [exact Hno | ].
  intros Hd Hc Hmax.
  destruct (@login_answers _ b self email password max_attempts Hd Hc Hmax s)
    as [t1 [_ [_ Ha]]].
  destruct (fst (login_to_gmail b self email password max_attempts s))
    as [[[] |] | e]; try reflexivity; try congruence. destruct Ha.
Qed.

Lemma hidden_password_never_submits_witness :
  exists t,
    trace (snd (login_to_gmail (Sim.browser Sim.no_password_field) Sim.me
                  "u@x.com" "pw" 3 Sim.start)) = (trace Sim.start ++ t)%list /\
    Forall (fun ev => touches_submit ev = false) t /\
    fst (login_to_gmail (Sim.browser Sim.no_password_field) Sim.me
           "u@x.com" "pw" 3 Sim.start) = Ok (Some false).
Proof.
  destruct (@hidden_password_never_submits Sim.page (Sim.browser Sim.no_password_field)
              Sim.me "u@x.com" "pw" 3 Sim.start) as [t [Ht [HF [_ Hfalse]]]].
  - intros sel sc t w Hsel. exists TimeoutException.
    simpl in Hsel. destruct Hsel as [<- | [<- | [<- | []]]]; reflexivity.
  - exists t. split; [exact Ht | ]. split; [exact HF | ].
    apply Hfalse.
    + reflexivity.
    + split; [intros f w; exists true; reflexivity | intros w; reflexivity].
    + lia.
Defined.

(* ===================================================================== *)
(** ** Typing into a field that takes every keystroke *)
(* ===================================================================== *)

Section Typing.

Context {World : Type} (b : Browser World) (e : WebElement) (P : event -> Prop).
Context (Hk : forall ks, P (ESendKeys e ks)).
Context (Hs : forall lo hi, P (ESleep lo hi)).
Context (Ha : forall n, P (EGetAttribute e n)).
Context (Hl : forall lvl m, P (ELog lvl m)).
Context (Hkeys : forall ks w, fst (b_send_keys b e ks w) = Ok tt).
Context (Hvalue : forall w, exists v, fst (b_get_attribute b e "value" w) = Ok (Some v)).

Lemma send_keys_typing ks (E : exn -> Prop) : sat P anything E (send_keys b e ks).
Proof.
  apply sat_perform; [apply Hk | ].
  intros w. rewrite Hkeys. exact I.
Qed.

Lemma human_delay_typing lo hi (E : exn -> Prop) : sat P anything E (human_delay b lo hi).
Proof. apply sat_perform; [apply Hs | intros w; exact I]. Qed.

Lemma clear_field_typing (E : exn -> Prop) : sat P anything E (clear_field b e).
Proof.
  unfold clear_field.
  eapply sat_bind; [apply send_keys_typing | intros _ _].
  eapply sat_bind; [apply send_keys_typing | intros _ _].
  apply human_delay_typing.
Qed.

Lemma type_chars_typing txt (E : exn -> Prop) : sat P anything E (type_chars b e txt).
Proof.
  induction txt as [| c rest IH]; simpl.
  - apply sat_ret. exact I.
  - eapply sat_bind; [apply send_keys_typing | intros _ _].
    eapply sat_bind; [apply human_delay_typing | intros _ _].
    exact IH.
Qed.

(** After the read-back, with or without a retype, [human_type] says
    [True]. *)
Lemma verify_typing txt field_name (E : exn -> Prop) :
  String.eqb field_name "body" = false ->
  sat P (eq true) E
    (bind (if String.eqb field_name "body"
           then bind (text b e) (fun t => ret (Some t))
           else get_attribute b e "value")
       (fun entered_text =>
          bind (strip_method entered_text)
            (fun entered =>
               bind (if negb (String.eqb entered (strip txt))
                     then bind (log WARNING (TextMismatch field_name))
                            (fun _ => bind (clear_field b e)
                                        (fun _ => send_keys b e (keys_of txt)))
                     else ret tt)
                 (fun _ => ret true)))).
Proof.
  intros Hname. rewrite Hname.
  eapply sat_bind with (V1 := fun r => r <> None).
  - apply sat_perform; [apply Ha | ].
    intros w. destruct (Hvalue w) as [v Hv]. rewrite Hv. discriminate.
  - intros [v |] Hv; [ | congruence].
    eapply sat_bind with (V1 := anything); [apply sat_ret; exact I | intros entered _].
    eapply sat_bind with (V1 := anything); [ | intros _ _; apply sat_ret; reflexivity].
    destruct (negb (String.eqb entered (strip txt))); [ | apply sat_ret; exact I].
    eapply sat_bind; [apply log_sat; apply Hl | intros _ _].
    eapply sat_bind; [apply clear_field_typing | intros _ _].
    apply send_keys_typing.
Qed.

(** Typing into such a field returns [True]. *)
Lemma human_type_true txt field_name (E : exn -> Prop) :
  String.eqb field_name "body" = false ->
  sat P (eq true) E (human_type b e txt field_name).
Proof.
  intros Hname. unfold human_type. eapply sat_try with (E1 := nothing).
  - eapply sat_bind; [apply clear_field_typing | intros _ _].
    eapply sat_bind; [apply type_chars_typing | intros _ _].
    apply verify_typing. exact Hname.
  - intros x [].
Qed.

End Typing.

(* ===================================================================== *)
(** ** Claims on the selector cascades *)
(* ===================================================================== *)

Section Cascades.

Context {World : Type} (b : Browser World) (self : GmailAutomation).
Context (Hd : driver self = Some Chrome).

(** A probe that is not met raises after its event. *)
Lemma wait_until_raises sc t c l s :
  (forall w, exists e, fst (b_wait b sc t c l w) = Raised e) ->
  exists e w,
    wait_until b self sc t c l s
    = (Raised e, {| world := w; trace := trace s ++ [EWait sc t c l] |}).
Proof.
  intros Hfail. destruct (Hfail (world s)) as [e He].
  assert (H : perform (EWait sc t c l) (fun w => found l (b_wait b sc t c l w)) s
              = (Raised e, {| world := snd (b_wait b sc t c l (world s));
                              trace := trace s ++ [EWait sc t c l] |})).
  { unfold perform. destruct (b_wait b sc t c l (world s)) as [[n | e'] w]; simpl in *;
      [discriminate He | congruence]. }
  exists e, (snd (b_wait b sc t c l (world s))).
  unfold wait_until. destruct sc; [unfold on_driver; rewrite Hd | ]; exact H.
Qed.

(** A probe that is met returns the element after its event. *)
Lemma wait_until_returns sc t c l s n w1 :
  b_wait b sc t c l (world s) = (Ok n, w1) ->
  wait_until b self sc t c l s
  = (Ok {| found_by := l; node := n |},
     {| world := w1; trace := trace s ++ [EWait sc t c l] |}).
Proof.
  intros Hn.
  assert (H : perform (EWait sc t c l) (fun w => found l (b_wait b sc t c l w)) s
              = (Ok {| found_by := l; node := n |},
                 {| world := w1; trace := trace s ++ [EWait sc t c l] |})).
  { unfold perform. rewrite Hn. reflexivity. }
  unfold wait_until. destruct sc; [unfold on_driver; rewrite Hd | ]; exact H.
Qed.

(** Candidates that do not resolve are skipped, each after its probe. *)
Lemma skip_failures A B sc t c (loc : A -> locator)
  (k : A -> WebElement -> M World (option B)) (body : A -> M World (option B))
  (before rest : list A) :
  (forall x s, body x s
     = try_except (bind (wait_until b self sc t c (loc x)) (k x)) (fun _ => ret None) s) ->
  (forall x, In x before -> forall w, exists e, fst (b_wait b sc t c (loc x) w) = Raised e) ->
  forall s, exists s',
    for_first (before ++ rest) body s = for_first rest body s' /\
    trace s' = (trace s ++ map (fun x => EWait sc t c (loc x)) before)%list.
Proof.
  intros Hbody. induction before as [| x before IH]; intros Hfail s.
  - exists s. simpl. rewrite app_nil_r. auto.
  - destruct (wait_until_raises sc t c (loc x) s (Hfail x (or_introl eq_refl)))
      as [e [w Hw]].
    destruct (IH (fun y Hy => Hfail y (or_intror Hy))
                 {| world := w; trace := trace s ++ [EWait sc t c (loc x)] |})
      as [s' [Hrun Htrace]].
    exists s'. split.
    + simpl. unfold bind at 1. rewrite Hbody. unfold try_except, bind at 1.
      rewrite Hw. simpl. exact Hrun.
    + rewrite Htrace. simpl. rewrite <- app_assoc. reflexivity.
Qed.

(** If no candidate resolves, the loop ends without [break], after one
    probe per candidate. *)
Lemma all_fail A B sc t c (loc : A -> locator)
  (k : A -> WebElement -> M World (option B)) (body : A -> M World (option B))
  (xs : list A) msg :
  (forall x s, body x s
     = try_except (bind (wait_until b self sc t c (loc x)) (k x)) (fun _ => ret None) s) ->
  (forall x, In x xs -> forall w, exists e, fst (b_wait b sc t c (loc x) w) = Raised e) ->
  fails_after_probing (bind (for_first xs body) (fun r => require r msg)) msg
    (map (fun x => EWait sc t c (loc x)) xs).
Proof.
  intros Hbody Hfail s.
  destruct (@skip_failures A B sc t c loc k body xs [] Hbody Hfail s)
    as [s' [Hrun Htrace]].
  rewrite app_nil_r in Hrun. unfold bind. rewrite Hrun. simpl. auto.
Qed.

End Cascades.

Section Unresolved.

Context {World : Type} (b : Browser World) (self : GmailAutomation).
Context (Hd : driver self = Some Chrome).

Lemma typed_cascade_unresolved sc timeout selectors txt field_name after msg :
  unresolved b sc timeout visibility_of_element_located (css selectors) ->
  fails_after_probing
    (bind (typed_cascade b self sc timeout selectors txt field_name after)
          (fun r => require r msg))
    msg (css_probes sc timeout selectors).
Proof.
  intros Hnone. unfold typed_cascade, css_probes.
  apply (@all_fail World b self Hd string WebElement sc timeout
           visibility_of_element_located (fun sel => (CSS_SELECTOR, sel))
           (fun sel field =>
              bind (human_type b field txt field_name)
                (fun typed => if typed then bind after (fun _ => ret (Some field))
                              else ret None))).
  - intros sel s. reflexivity.
  - intros sel Hsel w. apply Hnone. unfold css. apply in_map. exact Hsel.
Qed.

Lemma click_cascade_unresolved buttons lo hi msg :
  unresolved b InDriver 10 element_to_be_clickable (buttons_of buttons) ->
  fails_after_probing
    (bind (click_cascade b self buttons lo hi) (fun r => require r msg))
    msg (button_probes buttons).
Proof.
  intros Hnone. unfold click_cascade, button_probes.
  apply (@all_fail World b self Hd (string * string) WebElement InDriver 10%nat
           element_to_be_clickable (fun p => (by_of (fst p), snd p))
           (fun p btn =>
              bind (click b btn)
                (fun _ => bind (human_delay b lo hi) (fun _ => ret (Some btn))))).
  - intros [ty loc] s. reflexivity.
  - intros p Hp w. apply Hnone. unfold buttons_of.
    apply (in_map (fun p => (by_of (fst p), snd p))). exact Hp.
Qed.

Lemma fill_body_content_unresolved compose_dialog body :
  unresolved b (InElement compose_dialog) 10 visibility_of_element_located
    (css body_selectors) ->
  fails_after_probing (fill_body_content b self compose_dialog body)
    "Could not fill body field"
    (css_probes (InElement compose_dialog) 10 body_selectors).
Proof.
  intros Hnone. unfold fill_body_content, css_probes.
  apply (@all_fail World b self Hd string WebElement (InElement compose_dialog) 10%nat
           visibility_of_element_located (fun sel => (CSS_SELECTOR, sel))
           (fun sel body_field =>
              bind (click b body_field)
                (fun _ => bind (human_delay b 500 1000)
                   (fun _ => bind (send_keys b body_field (keys_of body))
                      (fun _ => bind (human_delay b 1000 2000)
                         (fun _ => ret (Some body_field))))))).
  - intros sel s. reflexivity.
  - intros sel Hsel w. apply Hnone. unfold css. apply in_map. exact Hsel.
Qed.

Lemma send_email_unresolved compose_dialog :
  unresolved b (InElement compose_dialog) 10 element_to_be_clickable
    (map send_locator send_selectors) ->
  fails_after_probing (send_email b self compose_dialog)
    "Could not click send button" (send_probes (InElement compose_dialog)).
Proof.
  intros Hnone. unfold send_email, send_probes.
  apply (@all_fail World b self Hd string WebElement (InElement compose_dialog) 10%nat
           element_to_be_clickable send_locator
           (fun sel send_btn =>
              bind (human_delay b 1000 2000)
                (fun _ => bind (click b send_btn) (fun _ => ret (Some send_btn))))).
  - intros sel s. unfold send_locator. destruct (startswith sel "//"); reflexivity.
  - intros sel Hsel w. apply Hnone. apply in_map. exact Hsel.
Qed.

End Unresolved.

Lemma messages_name_no_candidate :
  forallb (fun mc => negb (names_some (fst mc) (snd mc))) cascade_messages = true.
Proof. vm_compute. reflexivity. Qed.

(** C3, as the code has it.  For each of the eight cascades: if no
    candidate of its list resolves (whatever the other lists do), then the
    step, from whatever state the run has reached, raises [RuntimeError] with
    the fixed message of the step, having probed each candidate once, in list
    order, and done nothing else: no keystroke, no click, no navigation
    reaches the page.  The message of a step names none of its
    candidates. *)
Theorem unresolved_cascade_raises_fixed_message :
  forall (World : Type) (b : Browser World) (self : GmailAutomation)
         (compose_dialog : WebElement) (email password recipient subject body : string),
    driver self = Some Chrome ->
    (unresolved b InDriver 10 visibility_of_element_located (css email_selectors) ->
     fails_after_probing (email_entry b self email)
       "Could not enter email address" (css_probes InDriver 10 email_selectors)) /\
    (unresolved b InDriver 10 element_to_be_clickable (buttons_of next_buttons) ->
     fails_after_probing (click_next_button b self)
       "Could not click next button" (button_probes next_buttons)) /\
    (unresolved b InDriver 15 visibility_of_element_located (css password_selectors) ->
     fails_after_probing (password_entry b self password)
       "Could not enter password" (css_probes InDriver 15 password_selectors)) /\
    (unresolved b InDriver 10 element_to_be_clickable (buttons_of submit_buttons) ->
     fails_after_probing (submit_login b self)
       "Could not submit login" (button_probes submit_buttons)) /\
    (unresolved b (InElement compose_dialog) 10 visibility_of_element_located
       (css recipient_selectors) ->
     fails_after_probing (fill_recipient_field b self compose_dialog recipient)
       "Could not fill recipient field"
       (css_probes (InElement compose_dialog) 10 recipient_selectors)) /\
    (unresolved b (InElement compose_dialog) 10 visibility_of_element_located
       (css subject_selectors) ->
     fails_after_probing (fill_subject_field b self compose_dialog subject)
       "Could not fill subject field"
       (css_probes (InElement compose_dialog) 10 subject_selectors)) /\
    (unresolved b (InElement compose_dialog) 10 visibility_of_element_located
       (css body_selectors) ->
     fails_after_probing (fill_body_content b self compose_dialog body)
       "Could not fill body field"
       (css_probes (InElement compose_dialog) 10 body_selectors)) /\
    (unresolved b (InElement compose_dialog) 10 element_to_be_clickable
       (map send_locator send_selectors) ->
     fails_after_probing (send_email b self compose_dialog)
       "Could not click send button" (send_probes (InElement compose_dialog))) /\
    forallb (fun mc => negb (names_some (fst mc) (snd mc))) cascade_messages = true.
Proof.
  intros World b self compose_dialog email password recipient subject body Hd.
  split; [apply typed_cascade_unresolved; assumption | ].
  split; [apply click_cascade_unresolved; assumption | ].
  split; [apply typed_cascade_unresolved; assumption | ].
  split; [apply click_cascade_unresolved; assumption | ].
  split; [apply typed_cascade_unresolved; assumption | ].
  split; [apply typed_cascade_unresolved; assumption | ].
  split; [apply fill_body_content_unresolved; assumption | ].
  split; [apply send_email_unresolved; assumption | ].
  apply messages_name_no_candidate.
Qed.

(** On the page where everything resolves but the password selectors, the
    password list is unresolved, and the password step fails in that way
    from every state. *)
Lemma unresolved_cascade_raises_fixed_message_witness :
  unresolved (Sim.browser Sim.no_password_field) InDriver 15
    visibility_of_element_located (css password_selectors) /\
  fails_after_probing (password_entry (Sim.browser Sim.no_password_field) Sim.me "pw")
    "Could not enter password" (css_probes InDriver 15 password_selectors).
Proof.
  assert (Hnone : unresolved (Sim.browser Sim.no_password_field) InDriver 15
                    visibility_of_element_located (css password_selectors)).
  { intros l Hl w. exists TimeoutException.
    simpl in Hl. repeat destruct Hl as [<- | Hl]; try reflexivity. destruct Hl. }
  split; [exact Hnone | ].
  apply (@unresolved_cascade_raises_fixed_message Sim.page
           (Sim.browser Sim.no_password_field) Sim.me (Sim.field dialog_css)
           "u@x.com" "pw" "r@y.com" "Hi" "Hello" eq_refl).
  exact Hnone.
Defined.

(** On that page a login attempt reaches the password step: the email is
    typed and the next button clicked, the three password selectors are
    probed, and the attempt fails with the message of the password step,
    which names no selector. *)
Lemma login_fails_at_the_password_step :
  fst (login_to_gmail (Sim.browser Sim.no_password_field) Sim.me "u@x.com" "pw" 1 Sim.start)
    = Ok (Some false) /\
  filter (fun ev => match ev with
                    | EWait _ _ _ _ | EClick _ | ELog ERROR _ => true
                    | _ => false
                    end)
    (trace (snd (login_to_gmail (Sim.browser Sim.no_password_field) Sim.me
                   "u@x.com" "pw" 1 Sim.start)))
  = (EWait InDriver 10 visibility_of_element_located (first_css email_selectors)
     :: EWait InDriver 10 element_to_be_clickable identifierNext
     :: EClick (mkElement identifierNext 14)
     :: css_probes InDriver 15 password_selectors
     ++ [ELog ERROR (LoginAttemptFailed 1 (RuntimeError "Could not enter password"))])%list.
Proof. vm_compute. auto. Qed.

(** C3 as stated fails: when no email selector resolves, the error raised is
    a [RuntimeError] whose message is the fixed text of the step; it does
    not name the candidates that were tried. *)
Lemma failure_report_names_no_candidate :
  fst (email_entry (Sim.browser Sim.nothing_resolves) Sim.me "u@x.com" Sim.start)
    = Raised (RuntimeError "Could not enter email address") /\
  names_all "Could not enter email address" email_selectors = false /\
  names_some "Could not enter email address" email_selectors = false.
Proof. vm_compute. auto. Qed.

Section Winner.

Context {World : Type} (b : Browser World) (self : GmailAutomation).
Context (Hd : driver self = Some Chrome).

Lemma typed_cascade_hit sc timeout sel rest n txt field_name after :
  String.eqb field_name "body" = false ->
  (after = ret tt \/ exists lo hi, after = human_delay b lo hi) ->
  (forall w, fst (b_wait b sc timeout visibility_of_element_located (CSS_SELECTOR, sel) w)
             = Ok n) ->
  (forall ks w, fst (b_send_keys b (mkElement (CSS_SELECTOR, sel) n) ks w) = Ok tt) ->
  (forall w, exists v,
      fst (b_get_attribute b (mkElement (CSS_SELECTOR, sel) n) "value" w) = Ok (Some v)) ->
  triple (typed_cascade b self sc timeout (sel :: rest) txt field_name after)
    (fun r t =>
       r = Ok (Some (mkElement (CSS_SELECTOR, sel) n)) /\
       exists t', t = EWait sc timeout visibility_of_element_located (CSS_SELECTOR, sel) :: t' /\
                  Forall (on_field (mkElement (CSS_SELECTOR, sel) n)) t').
Proof.
  intros Hname Hafter Hres Hkeys Hvalue.
  set (field := mkElement (CSS_SELECTOR, sel) n).
  set (probe := EWait sc timeout visibility_of_element_located (CSS_SELECTOR, sel)).
  set (Q := fun (r : outcome (option WebElement)) t =>
              r = Ok (Some field) /\ exists t', t = probe :: t' /\ Forall (on_field field) t').
  assert (Hpause : sat (on_field field) anything nothing after).
  { destruct Hafter as [-> | [lo [hi ->]]].
    - apply sat_ret. exact I.
    - apply sat_perform; [split; [reflexivity | left; reflexivity] | intros w; exact I]. }
  unfold typed_cascade. simpl for_first.
  eapply triple_bind with (Q1 := Q).
  - eapply triple_try with (Q1 := Q).
    + eapply triple_bind with (Q1 := fun r t => r = Ok field /\ t = [probe]).
      * intros s. exists [probe].
        destruct (b_wait b sc timeout visibility_of_element_located (CSS_SELECTOR, sel)
                    (world s)) as [r w1] eqn:Hw.
        assert (Hr : r = Ok n) by (rewrite <- (Hres (world s)), Hw; reflexivity).
        subst r. rewrite (wait_until_returns b self Hd _ _ _ _ s Hw). simpl. auto.
      * intros a t1 [Ha ->]. inversion Ha; subst a.
        eapply triple_conseq with
          (Q := fun r t => Forall (on_field field) t /\
                           match r with Ok v => v = Some field | Raised x => nothing x end).
        -- eapply sat_bind with (V1 := eq true).
           ++ apply human_type_true; try exact Hname; try exact Hkeys; try exact Hvalue;
                intros; split; try reflexivity; auto.
           ++ intros typed <-. eapply sat_bind; [exact Hpause | intros _ _].
              apply sat_ret. reflexivity.
        -- intros r t2 [HF Hr]. split.
           ++ destruct r as [v | x]; [subst v; reflexivity | destruct Hr].
           ++ exists t2. split; [reflexivity | exact HF].
      * intros x t1 [Hx _]. discriminate Hx.
    + intros a t1 H. exact H.
    + intros x t1 [Hx _]. discriminate Hx.
  - intros r t1 [Hr [t' [-> HF]]]. inversion Hr; subst r.
    apply triple_ret. rewrite app_nil_r. split; [reflexivity | eauto].
  - intros x t1 [Hx _]. discriminate Hx.
Qed.

End Winner.

(** C2, as the code has it.  In a typed cascade, let the candidates before
    [sel] not resolve, let [sel] resolve to a field, and let typing into that
    field go through.  Then, whatever the position of [sel] in the list, the
    cascade returns that field: the failures before it are swallowed, each
    after one probe, in list order; after the probe that found the field
    there is no further probe (the search stops there, the candidates after
    it are never tried), and nothing is sent to any other element. *)
Theorem first_typable_candidate_is_returned :
  forall (World : Type) (b : Browser World) (self : GmailAutomation)
         (sc : scope) (timeout : nat) (before rest : list string) (sel : string) (n : nat)
         (txt field_name : string) (after : M World unit) (s : state World),
    driver self = Some Chrome ->
    String.eqb field_name "body" = false ->
    (after = ret tt \/ exists lo hi, after = human_delay b lo hi) ->
    (forall x, In x before -> forall w, exists e,
        fst (b_wait b sc timeout visibility_of_element_located (CSS_SELECTOR, x) w)
        = Raised e) ->
    (forall w, fst (b_wait b sc timeout visibility_of_element_located (CSS_SELECTOR, sel) w)
               = Ok n) ->
    (forall ks w, fst (b_send_keys b (mkElement (CSS_SELECTOR, sel) n) ks w) = Ok tt) ->
    (forall w, exists v,
        fst (b_get_attribute b (mkElement (CSS_SELECTOR, sel) n) "value" w) = Ok (Some v)) ->
    exists t,
      fst (typed_cascade b self sc timeout (before ++ sel :: rest) txt field_name after s)
        = Ok (Some (mkElement (CSS_SELECTOR, sel) n)) /\
      trace (snd (typed_cascade b self sc timeout (before ++ sel :: rest)
                    txt field_name after s))
        = (trace s ++ css_probes sc timeout before
             ++ EWait sc timeout visibility_of_element_located (CSS_SELECTOR, sel) :: t)%list /\
      Forall (on_field (mkElement (CSS_SELECTOR, sel) n)) t.
Proof.
  intros World b self sc timeout before rest sel n txt field_name after s
         Hd Hname Hafter Hbefore Hres Hkeys Hvalue.
  destruct (@skip_failures World b self Hd string WebElement sc timeout
              visibility_of_element_located (fun x => (CSS_SELECTOR, x))
              (fun x field =>
                 bind (human_type b field txt field_name)
                   (fun typed => if typed then bind after (fun _ => ret (Some field))
                                 else ret None))
              (fun selector =>
                 try_except
                   (bind (wait_until b self sc timeout visibility_of_element_located
                            (CSS_SELECTOR, selector))
                      (fun field =>
                         bind (human_type b field txt field_name)
                           (fun typed => if typed then bind after (fun _ => ret (Some field))
                                         else ret None)))
                   (fun _ => ret None))
              before (sel :: rest) (fun x s0 => eq_refl) Hbefore s)
    as [s' [Hrun Htrace]].
  destruct (@typed_cascade_hit World b self Hd sc timeout sel rest n txt field_name after
              Hname Hafter Hres Hkeys Hvalue s')
    as [t [Ht [Hr [t' [-> HF]]]]].
  unfold typed_cascade in *. rewrite Hrun.
  exists t'. split; [exact Hr | ]. split; [ | exact HF].
  rewrite Ht, Htrace. unfold css_probes. rewrite <- app_assoc. reflexivity.
Qed.

Lemma first_typable_candidate_is_returned_witness :
  exists t,
    fst (typed_cascade (Sim.browser (Sim.only "#identifierId" true)) Sim.me InDriver 10
           (firstn 2 email_selectors ++ "#identifierId" :: skipn 3 email_selectors)%list
           "u@x.com" "email" (ret tt) Sim.start)
      = Ok (Some (mkElement (CSS_SELECTOR, "#identifierId") 13)) /\
    trace (snd (typed_cascade (Sim.browser (Sim.only "#identifierId" true)) Sim.me
                  InDriver 10
                  (firstn 2 email_selectors ++ "#identifierId" :: skipn 3 email_selectors)%list
                  "u@x.com" "email" (ret tt) Sim.start))
      = (trace Sim.start
           ++ css_probes InDriver 10 (firstn 2 email_selectors)
           ++ EWait InDriver 10 visibility_of_element_located (CSS_SELECTOR, "#identifierId")
              :: t)%list /\
    Forall (on_field (mkElement (CSS_SELECTOR, "#identifierId") 13)) t.
Proof.
  apply (@first_typable_candidate_is_returned Sim.page
           (Sim.browser (Sim.only "#identifierId" true)) Sim.me InDriver 10%nat
           (firstn 2 email_selectors) (skipn 3 email_selectors) "#identifierId" 13%nat
           "u@x.com" "email" (ret tt) Sim.start).
  - reflexivity.
  - reflexivity.
  - left. reflexivity.
  - intros x Hx w. exists TimeoutException.
    simpl in Hx. destruct Hx as [<- | [<- | []]]; reflexivity.
  - intros w. reflexivity.
  - intros ks w. reflexivity.
  - intros w. eexists. reflexivity.
Defined.

(** C2 as stated fails: of the four email selectors only [#identifierId]
    resolves, but its field refuses keystrokes; the cascade does not return
    that element, it goes on to the last candidate and the step raises. *)
Lemma sole_resolving_candidate_can_be_lost :
  map (fun sel =>
         is_ok (fst (b_wait (Sim.browser (Sim.only "#identifierId" false)) InDriver 10
                       visibility_of_element_located (CSS_SELECTOR, sel) Sim.blank)))
      email_selectors
    = [false; false; true; false] /\
  fst (email_entry (Sim.browser (Sim.only "#identifierId" false)) Sim.me "u@x.com" Sim.start)
    = Raised (RuntimeError "Could not enter email address").
Proof. vm_compute. auto. Qed.

(** C10.  [human_type] never raises: it returns [True] or [False].  In a
    typed cascade, when a candidate resolves and [human_type] returns
    [False] on its field, the cascade goes on with the candidates after it,
    from the state the failed typing left: it neither raises nor stops. *)
Theorem failed_typing_moves_on :
  forall (World : Type) (b : Browser World) (self : GmailAutomation)
         (sc : scope) (timeout : nat) (sel : string) (rest : list string)
         (txt field_name : string) (after : M World unit)
         (s : state World) (n : nat) (w1 : World),
    driver self = Some Chrome ->
    b_wait b sc timeout visibility_of_element_located (CSS_SELECTOR, sel) (world s)
      = (Ok n, w1) ->
    fst (human_type b (mkElement (CSS_SELECTOR, sel) n) txt field_name
           {| world := w1;
              trace := trace s ++ [EWait sc timeout visibility_of_element_located
                                     (CSS_SELECTOR, sel)] |})
      = Ok false ->
    typed_cascade b self sc timeout (sel :: rest) txt field_name after s
    = typed_cascade b self sc timeout rest txt field_name after
        (snd (human_type b (mkElement (CSS_SELECTOR, sel) n) txt field_name
                {| world := w1;
                   trace := trace s ++ [EWait sc timeout visibility_of_element_located
                                          (CSS_SELECTOR, sel)] |})) /\
    (forall e t f s', exists r, fst (human_type b e t f s') = Ok r).
Proof.
  intros World b self sc timeout sel rest txt field_name after s n w1 Hd Hwait Hfalse.
  split.
  - unfold typed_cascade. simpl for_first. unfold bind at 1, try_except, bind at 1.
    rewrite (wait_until_returns b self Hd _ _ _ _ s Hwait).
    unfold bind at 1.
    destruct (human_type b (mkElement (CSS_SELECTOR, sel) n) txt field_name
                {| world := w1;
                   trace := trace s ++ [EWait sc timeout visibility_of_element_located
                                          (CSS_SELECTOR, sel)] |}) as [r s2].
    simpl in Hfalse. subst r. reflexivity.
  - intros e t f s'.
    destruct (@human_type_sat World b (fun _ => True) anything (quiet_anything _)
                e t f nothing s') as [t' [_ [_ Hr]]].
    destruct (fst (human_type b e t f s')) as [r | x]; [eauto | destruct Hr].
Qed.

Lemma failed_typing_moves_on_witness :
  typed_cascade (Sim.browser (Sim.refuses (hd EmptyString email_selectors))) Sim.me
    InDriver 10 (hd EmptyString email_selectors :: tl email_selectors)
    "u@x.com" "email" (ret tt) Sim.start
  = typed_cascade (Sim.browser (Sim.refuses (hd EmptyString email_selectors))) Sim.me
      InDriver 10 (tl email_selectors) "u@x.com" "email" (ret tt)
      (snd (human_type (Sim.browser (Sim.refuses (hd EmptyString email_selectors)))
              (mkElement (CSS_SELECTOR, hd EmptyString email_selectors) 19)
              "u@x.com" "email"
              {| world := Sim.blank;
                 trace := trace Sim.start
                          ++ [EWait InDriver 10 visibility_of_element_located
                                (CSS_SELECTOR, hd EmptyString email_selectors)] |})) /\
  (forall e t f s', exists r,
      fst (human_type (Sim.browser (Sim.refuses (hd EmptyString email_selectors)))
             e t f s') = Ok r).
Proof.
  apply (@failed_typing_moves_on Sim.page
           (Sim.browser (Sim.refuses (hd EmptyString email_selectors))) Sim.me
           InDriver 10%nat (hd EmptyString email_selectors) (tl email_selectors)
           "u@x.com" "email" (ret tt) Sim.start 19%nat Sim.blank).
  - reflexivity.
  - reflexivity.
  - vm_compute. reflexivity.
Defined.

(** The first email selector resolves, but its field refuses keystrokes:
    the element the cascade hands on is the one of the second selector. *)
Lemma later_candidate_wins_after_failed_typing :
  fst (email_entry (Sim.browser (Sim.refuses (hd EmptyString email_selectors))) Sim.me
         "u@x.com" Sim.start)
  = Ok (Sim.field (hd EmptyString (tl email_selectors))).
Proof. vm_compute. reflexivity. Qed.

(* ===================================================================== *)
(** ** Claim on human-paced input *)
(* ===================================================================== *)

Section Counting.

Context {World : Type} (f : event -> bool).

Lemma count_ret A (a : A) : triple (World:=World) (ret a) (at_most f 0 (A:=A)).
Proof. apply triple_ret. unfold at_most. simpl. lia. Qed.

Lemma count_raise A e : triple (World:=World) (raise e) (at_most f 0 (A:=A)).
Proof. apply triple_raise. unfold at_most. simpl. lia. Qed.

Lemma count_perform A ev (op : World -> outcome A * World) n :
  (length (filter f [ev]) <= n)%nat -> triple (perform ev op) (at_most f n (A:=A)).
Proof. intros H. apply triple_perform. intros w. exact H. Qed.

Lemma count_bind A B (m : M World A) (k : A -> M World B) n1 n2 :
  triple m (at_most f n1 (A:=A)) ->
  (forall a, triple (k a) (at_most f n2 (A:=B))) ->
  triple (bind m k) (at_most f (n1 + n2) (A:=B)).
Proof.
  intros Hm Hk. eapply triple_bind; [exact Hm | | ].
  - intros a t1 H1. eapply triple_conseq; [apply Hk | ].
    intros r t2 H2. unfold at_most in *. rewrite filter_app, length_app. lia.
  - intros e t1 H1. unfold at_most in *. lia.
Qed.

Lemma count_try A (m : M World A) (h : exn -> M World A) n1 n2 :
  triple m (at_most f n1 (A:=A)) ->
  (forall e, triple (h e) (at_most f n2 (A:=A))) ->
  triple (try_except m h) (at_most f (n1 + n2) (A:=A)).
Proof.
  intros Hm Hh. eapply triple_try; [exact Hm | | ].
  - intros a t1 H1. unfold at_most in *. lia.
  - intros e t1 H1. eapply triple_conseq; [apply Hh | ].
    intros r t2 H2. unfold at_most in *. rewrite filter_app, length_app. lia.
Qed.

Lemma count_weaken A (m : M World A) n n' :
  triple m (at_most f n (A:=A)) -> (n <= n')%nat -> triple m (at_most f n' (A:=A)).
Proof.
  intros Hm Hn. eapply triple_conseq; [exact Hm | ].
  intros r t H. unfold at_most in *. lia.
Qed.

Context (b : Browser World) (e : WebElement).
Context (Hkeys : forall ks, f (ESendKeys e ks) = false).
Context (Hsleep : forall lo hi, f (ESleep lo hi) = false).
Context (Herror : forall name x, f (ELog ERROR (HumanTypeError name x)) = false).

Lemma count_send_keys ks : triple (send_keys b e ks) (at_most f 0 (A:=unit)).
Proof. apply count_perform. simpl. rewrite Hkeys. simpl. lia. Qed.

Lemma count_human_delay lo hi : triple (human_delay b lo hi) (at_most f 0 (A:=unit)).
Proof. apply count_perform. simpl. rewrite Hsleep. simpl. lia. Qed.

Lemma count_clear_field : triple (clear_field b e) (at_most f 0 (A:=unit)).
Proof.
  unfold clear_field.
  apply count_bind with (n1 := 0%nat) (n2 := 0%nat); [apply count_send_keys | intros _].
  apply count_bind with (n1 := 0%nat) (n2 := 0%nat); [apply count_send_keys | intros _].
  apply count_human_delay.
Qed.

Lemma count_type_chars txt : triple (type_chars b e txt) (at_most f 0 (A:=unit)).
Proof.
  induction txt as [| c rest IH]; simpl.
  - apply count_ret.
  - apply count_bind with (n1 := 0%nat) (n2 := 0%nat); [apply count_send_keys | intros _].
    apply count_bind with (n1 := 0%nat) (n2 := 0%nat); [apply count_human_delay | intros _].
    exact IH.
Qed.

(** [human_type] reads the field back at most [nr] times and retypes at most
    [nw] times, where [nr] and [nw] bound what [f] counts of one read and of
    one warning. *)
Lemma count_human_type txt field_name nr nw :
  (forall n, length (filter f [EGetAttribute e n]) <= nr)%nat ->
  (length (filter f [EText e]) <= nr)%nat ->
  (forall name, length (filter f [ELog WARNING (TextMismatch name)]) <= nw)%nat ->
  triple (human_type b e txt field_name) (at_most f (nr + nw) (A:=bool)).
Proof.
  intros Hattr Htext Hwarn. unfold human_type.
  eapply count_weaken with (n := ((0 + (0 + (nr + (0 + (nw + 0))))) + 0)%nat); [ | lia].
  apply count_try.
  - apply count_bind; [apply count_clear_field | intros _].
    apply count_bind; [apply count_type_chars | intros _].
    apply count_bind.
    + destruct (String.eqb field_name "body").
      * eapply count_weaken with (n := (nr + 0)%nat); [ | lia].
        apply count_bind; [apply count_perform; exact Htext | intros t; apply count_ret].
      * apply count_perform. apply Hattr.
    + intros entered_text. apply count_bind.
      * destruct entered_text; [apply count_ret | apply count_raise].
      * intros entered. apply count_bind; [ | intros _; apply count_ret].
        destruct (negb (String.eqb entered (strip txt))).
        -- eapply count_weaken with (n := (nw + (0 + 0))%nat); [ | lia].
           apply count_bind; [apply count_perform; apply Hwarn | intros _].
           apply count_bind; [apply count_clear_field | intros _].
           apply count_send_keys.
        -- eapply count_weaken; [apply count_ret | lia].
  - intros x. eapply count_weaken with (n := (0 + 0)%nat); [ | lia].
    apply count_bind; [ | intros _; apply count_ret].
    apply count_perform. simpl. rewrite Herror. simpl. lia.
Qed.

End Counting.

Section Spelling.

Context {World : Type}.

Lemma spelt_ret A (V : A -> Prop) (a : A) :
  V a -> triple (World:=World) (ret a) (spelt V []).
Proof. intros H. apply triple_ret. simpl. auto. Qed.

Lemma spelt_raise A (V : A -> Prop) x L :
  triple (World:=World) (raise x) (spelt V L).
Proof. apply triple_raise. simpl. exists L. reflexivity. Qed.

Lemma spelt_perform A (V : A -> Prop) ev (op : World -> outcome A * World) :
  (forall w a, fst (op w) = Ok a -> V a) -> triple (perform ev op) (spelt V [ev]).
Proof.
  intros H. apply triple_perform. intros w. specialize (H w).
  destruct (fst (op w)) as [a | x]; simpl.
  - split; [apply H; reflexivity | reflexivity].
  - exists []. reflexivity.
Qed.

Lemma spelt_bind A B (V1 : A -> Prop) (V2 : B -> Prop)
  (m : M World A) (k : A -> M World B) L1 L2 :
  triple m (spelt V1 L1) -> (forall a, V1 a -> triple (k a) (spelt V2 L2)) ->
  triple (bind m k) (spelt V2 (L1 ++ L2)).
Proof.
  intros Hm Hk. eapply triple_bind; [exact Hm | | ].
  - intros a t1 [Ha ->]. eapply triple_conseq; [apply (Hk a Ha) | ].
    intros [v | x] t2; simpl.
    + intros [Hv ->]. auto.
    + intros [rest ->]. exists rest. rewrite app_assoc. reflexivity.
  - intros x t1 [rest ->]. exists (rest ++ L2)%list. rewrite app_assoc. reflexivity.
Qed.

Lemma either_of A (V : A -> Prop) (m : M World A) Ls c :
  triple m (spelt V (Ls c)) -> triple m (spelt_either V Ls).
Proof. intros Hm. eapply triple_conseq; [exact Hm | ]. intros r t H. exists c. exact H. Qed.

Lemma either_bind A B (V1 : A -> Prop) (V2 : B -> Prop)
  (m : M World A) (k : A -> M World B) L1 Ls :
  triple m (spelt V1 L1) -> (forall a, V1 a -> triple (k a) (spelt_either V2 Ls)) ->
  triple (bind m k) (spelt_either V2 (fun c => L1 ++ Ls c)%list).
Proof.
  intros Hm Hk. eapply triple_bind; [exact Hm | | ].
  - intros a t1 [Ha ->]. eapply triple_conseq; [apply (Hk a Ha) | ].
    intros [v | x] t2 [c H]; exists c; simpl in *.
    + destruct H as [Hv ->]. auto.
    + destruct H as [rest ->]. exists rest. rewrite app_assoc. reflexivity.
  - intros x t1 [rest ->]. exists false, (rest ++ Ls false)%list.
    rewrite app_assoc. reflexivity.
Qed.

Lemma either_last A B (V1 : A -> Prop) (V2 : B -> Prop)
  (m : M World A) (k : A -> M World B) Ls :
  triple m (spelt_either V1 Ls) -> (forall a, V1 a -> triple (k a) (spelt V2 [])) ->
  triple (bind m k) (spelt_either V2 Ls).
Proof.
  intros Hm Hk. eapply triple_bind; [exact Hm | | ].
  - intros a t1 [c [Ha ->]]. eapply triple_conseq; [apply (Hk a Ha) | ].
    intros [v | x] t2; simpl; intros H; exists c; simpl.
    + destruct H as [Hv ->]. rewrite app_nil_r. auto.
    + destruct H as [rest H]. symmetry in H. apply app_eq_nil in H. destruct H as [-> ->].
      exists []. rewrite !app_nil_r. reflexivity.
  - intros x t1 [c H]. exists c. exact H.
Qed.

Context (b : Browser World) (e : WebElement).

Lemma clear_field_spelt : triple (clear_field b e) (spelt anything (clearing_events e)).
Proof.
  unfold clear_field, clearing_events.
  apply spelt_bind with (V1 := anything) (L1 := [ESendKeys e [CONTROL; Char "a"]]);
    [apply spelt_perform; intros; exact I | intros _ _].
  apply spelt_bind with (V1 := anything) (L1 := [ESendKeys e [DELETE]]);
    [apply spelt_perform; intros; exact I | intros _ _].
  apply spelt_perform. intros; exact I.
Qed.

Lemma type_chars_spelt txt :
  triple (type_chars b e txt) (spelt anything (typing_events e txt)).
Proof.
  induction txt as [| c rest IH]; simpl.
  - apply spelt_ret. exact I.
  - apply spelt_bind with (V1 := anything) (L1 := [ESendKeys e [Char c]]);
      [apply spelt_perform; intros; exact I | intros _ _].
    apply spelt_bind with (V1 := anything) (L1 := [ESleep 100 300]);
      [apply spelt_perform; intros; exact I | intros _ _].
    exact IH.
Qed.

Lemma readback_spelt field_name :
  triple (if String.eqb field_name "body"
          then bind (text b e) (fun t => ret (Some t))
          else get_attribute b e "value")
    (spelt anything [readback_event e field_name]).
Proof.
  unfold readback_event. destruct (String.eqb field_name "body").
  - apply spelt_bind with (V1 := anything) (L1 := [EText e]) (L2 := []);
      [apply spelt_perform; intros; exact I | intros t _].
    apply spelt_ret. exact I.
  - apply spelt_perform. intros; exact I.
Qed.

Lemma retype_spelt txt field_name :
  triple (bind (log WARNING (TextMismatch field_name))
            (fun _ => bind (clear_field b e) (fun _ => send_keys b e (keys_of txt))))
    (spelt anything (retype_events e txt field_name)).
Proof.
  unfold retype_events.
  apply spelt_bind with (V1 := anything) (L1 := [ELog WARNING (TextMismatch field_name)]);
    [apply spelt_perform; intros; exact I | intros _ _].
  apply spelt_bind with (V1 := anything); [apply clear_field_spelt | intros _ _].
  apply spelt_perform. intros; exact I.
Qed.

(** The body of [human_type]: what it returns is [True], and its events
    are those of a whole [human_type], with or without the retype, up to
    the call that raised. *)
Lemma human_type_body_spelt txt field_name :
  triple
    (bind (clear_field b e) (fun _ =>
     bind (type_chars b e txt) (fun _ =>
     bind (if String.eqb field_name "body"
           then bind (text b e) (fun t => ret (Some t))
           else get_attribute b e "value") (fun entered_text =>
     bind (strip_method entered_text) (fun entered =>
     bind (if negb (String.eqb entered (strip txt))
           then bind (log WARNING (TextMismatch field_name))
                  (fun _ => bind (clear_field b e)
                              (fun _ => send_keys b e (keys_of txt)))
           else ret tt) (fun _ => ret true))))))
    (spelt_either (eq true) (human_type_events e txt field_name)).
Proof.
  eapply triple_conseq.
  - apply either_bind with (V1 := anything) (V2 := eq true);
      [apply clear_field_spelt | intros _ _].
    apply either_bind with (V1 := anything); [apply type_chars_spelt | intros _ _].
    apply either_bind with (V1 := anything); [apply readback_spelt | intros v _].
    apply either_bind with (V1 := anything) (L1 := [])
                           (Ls := fun c : bool =>
                                    if c then retype_events e txt field_name else []).
    + destruct v as [v |]; [apply spelt_ret; exact I | apply spelt_raise].
    + intros entered _.
      apply either_last with (V1 := anything); [ | intros _ _; apply spelt_ret; reflexivity].
      destruct (negb (String.eqb entered (strip txt))).
      * apply either_of with (c := true). apply retype_spelt.
      * apply either_of with (c := false). apply spelt_ret. exact I.
  - intros r t [c H]. exists c. exact H.
Qed.

(** [human_type] on any browser: it returns [True] after all the events of
    a whole [human_type], or [False] after the events up to a call that
    raised and the error line; it does not raise. *)
Lemma human_type_spelt txt field_name s :
  exists (retyped : bool) (p rest : list event),
    human_type_events e txt field_name retyped = (p ++ rest)%list /\
    match fst (human_type b e txt field_name s) with
    | Ok true =>
        rest = [] /\
        trace (snd (human_type b e txt field_name s)) = (trace s ++ p)%list
    | Ok false =>
        exists x,
          trace (snd (human_type b e txt field_name s))
          = (trace s ++ p ++ [ELog ERROR (HumanTypeError field_name x)])%list
    | Raised _ => False
    end.
Proof.
  assert (H : triple (human_type b e txt field_name)
                (fun r t =>
                   exists (retyped : bool) (p rest : list event),
                     human_type_events e txt field_name retyped = (p ++ rest)%list /\
                     match r with
                     | Ok true => rest = [] /\ t = p
                     | Ok false => exists x, t = (p ++ [ELog ERROR (HumanTypeError field_name x)])%list
                     | Raised _ => False
                     end)).
  { unfold human_type. eapply triple_try; [apply human_type_body_spelt | | ].
    - intros a t1 [c [<- ->]]. exists c, (human_type_events e txt field_name c), [].
      rewrite app_nil_r. auto.
    - intros x t1 [c [rest Hrest]].
      apply triple_bind
        with (Q1 := fun r t => r = Ok tt /\ t = [ELog ERROR (HumanTypeError field_name x)]).
      + apply triple_perform. intros w. split; reflexivity.
      + intros _ t2 [_ ->]. apply triple_ret. exists c, t1, rest. split; [exact Hrest | ].
        exists x. rewrite app_nil_r. reflexivity.
      + intros x' t2 [Hx _]. discriminate Hx. }
  destruct (H s) as [t [Ht [retyped [p [rest [Hfull Hr]]]]]].
  exists retyped, p, rest. split; [exact Hfull | ].
  destruct (fst (human_type b e txt field_name s)) as [[|] | x].
  - destruct Hr as [-> ->]. auto.
  - destruct Hr as [x ->]. exists x. exact Ht.
  - exact Hr.
Qed.

End Spelling.

Section Clears.

Context {World : Type} (b : Browser World) (e : WebElement).

(** The text sent in one piece is never the Delete key. *)
Lemma whole_text_is_no_clear txt : is_clear (ESendKeys e (keys_of txt)) = false.
Proof. destruct txt as [| c [| c' rest]]; reflexivity. Qed.

Lemma clear_field_clears_once : triple (clear_field b e) (at_most is_clear 1 (A:=unit)).
Proof.
  unfold clear_field.
  apply count_bind with (n1 := 0%nat) (n2 := 1%nat);
    [apply count_perform; simpl; lia | intros _].
  apply count_bind with (n1 := 1%nat) (n2 := 0%nat);
    [apply count_perform; simpl; lia | intros _].
  apply count_perform. simpl. lia.
Qed.

Lemma type_chars_clears_nothing txt :
  triple (type_chars b e txt) (at_most is_clear 0 (A:=unit)).
Proof.
  induction txt as [| c rest IH]; simpl.
  - apply count_ret.
  - apply count_bind with (n1 := 0%nat) (n2 := 0%nat);
      [apply count_perform; simpl; lia | intros _].
    apply count_bind with (n1 := 0%nat) (n2 := 0%nat);
      [apply count_perform; simpl; lia | intros _].
    exact IH.
Qed.

(** [human_type] empties the field at most twice: once before typing, once
    before the retype. *)
Lemma human_type_clears_twice txt field_name :
  triple (human_type b e txt field_name) (at_most is_clear 2 (A:=bool)).
Proof.
  unfold human_type.
  eapply count_weaken with (n := ((1 + (0 + (0 + (0 + (1 + 0))))) + 0)%nat); [ | lia].
  apply count_try.
  - apply count_bind; [apply clear_field_clears_once | intros _].
    apply count_bind; [apply type_chars_clears_nothing | intros _].
    apply count_bind.
    + destruct (String.eqb field_name "body").
      * eapply count_weaken with (n := (0 + 0)%nat); [ | lia].
        apply count_bind; [apply count_perform; simpl; lia | intros t; apply count_ret].
      * apply count_perform. simpl. lia.
    + intros entered_text. apply count_bind.
      * destruct entered_text; [apply count_ret | apply count_raise].
      * intros entered. apply count_bind; [ | intros _; apply count_ret].
        destruct (negb (String.eqb entered (strip txt))).
        -- eapply count_weaken with (n := (0 + (1 + 0))%nat); [ | lia].
           apply count_bind; [apply count_perform; simpl; lia | intros _].
           apply count_bind; [apply clear_field_clears_once | intros _].
           apply count_perform. cbv [filter]. rewrite whole_text_is_no_clear. simpl. lia.
        -- eapply count_weaken; [apply count_ret | lia].
  - intros x. eapply count_weaken with (n := (0 + 0)%nat); [ | lia].
    apply count_bind; [ | intros _; apply count_ret].
    apply count_perform. simpl. lia.
Qed.

End Clears.

Section Content.

Context {World : Type} (b : Browser World) (e : WebElement).
Context (field_name : string) (content : World -> string) (T : string).
Context (Hf : text_field b e field_name content T).

Lemma clear_field_empties s :
  fst (clear_field b e s) = Ok tt /\
  content (world (snd (clear_field b e s))) = EmptyString.
Proof.
  unfold clear_field, bind, send_keys, human_delay, perform.
  pose proof (tf_select Hf (world s)) as Hsel.
  pose proof (tf_delete Hf (world s)) as [Hdel Hempty].
  destruct (b_send_keys b e [CONTROL; Char "a"] (world s)) as [r1 w1].
  simpl in *. subst r1.
  destruct (b_send_keys b e [DELETE] w1) as [r2 w2].
  simpl in *. subst r2. simpl. split; [reflexivity | ].
  rewrite (tf_sleep Hf). exact Hempty.
Qed.

(** The read-back returns the content and leaves the browser as it is. *)
Lemma readback_reads s :
  (if String.eqb field_name "body"
   then bind (text b e) (fun t => ret (Some t))
   else get_attribute b e "value") s
  = (Ok (Some (content (world s))),
     {| world := world s; trace := trace s ++ [readback_event e field_name] |}).
Proof.
  pose proof (tf_read Hf (world s)) as H. revert H.
  unfold read_back, readback_event.
  destruct (String.eqb field_name "body").
  - unfold bind, text, perform.
    destruct (b_text b e (world s)) as [[t | x] w']; intros H; inversion H; subst.
    reflexivity.
  - unfold get_attribute, perform. intros ->. reflexivity.
Qed.

(** The retype leaves [T] in the field. *)
Lemma retype_restores s :
  fst (bind (log WARNING (TextMismatch field_name))
         (fun _ => bind (clear_field b e) (fun _ => send_keys b e (keys_of T))) s) = Ok tt /\
  content (world (snd (bind (log WARNING (TextMismatch field_name))
         (fun _ => bind (clear_field b e) (fun _ => send_keys b e (keys_of T))) s))) = T.
Proof.
  unfold bind at 1 3. unfold log at 1 2. unfold perform at 1 2. simpl.
  set (s1 := {| world := world s; trace := trace s ++ [ELog WARNING (TextMismatch field_name)] |}).
  unfold bind.
  destruct (clear_field_empties s1) as [Hok Hempty].
  destruct (clear_field b e s1) as [r2 s2]. simpl in *. subst r2.
  unfold send_keys, perform.
  destruct (tf_atomic Hf (world s2) Hempty) as [Hsent Hkept].
  destruct (b_send_keys b e (keys_of T) (world s2)) as [r3 w3]. simpl in *.
  subst r3. auto.
Qed.

Lemma human_type_content s :
  fst (human_type b e T field_name s) = Ok true ->
  strip (content (world (snd (human_type b e T field_name s)))) = strip T.
Proof.
  destruct (human_type b e T field_name s) as [res st] eqn:Hrun.
  simpl. intros ->. revert Hrun.
  unfold human_type, try_except.
  unfold bind at 1.
  destruct (clear_field b e s) as [[[] | x] s1]; [ | simpl; discriminate].
  unfold bind at 1.
  destruct (type_chars b e T s1) as [[[] | x] s2]; [ | simpl; discriminate].
  unfold bind at 1.
  rewrite (readback_reads s2).
  unfold bind at 1. simpl strip_method. unfold ret at 1.
  unfold bind at 1.
  destruct (negb (String.eqb (strip (content (world s2))) (strip T))) eqn:Hcmp.
  - destruct (retype_restores
                {| world := world s2;
                   trace := trace s2 ++ [readback_event e field_name] |}) as [Hok Hkept].
    destruct (bind (log WARNING (TextMismatch field_name))
                (fun _ => bind (clear_field b e) (fun _ => send_keys b e (keys_of T)))
                {| world := world s2;
                   trace := trace s2 ++ [readback_event e field_name] |}) as [r4 s4].
    simpl in Hok, Hkept. subst r4. simpl. intros Hrun. inversion Hrun; subst st.
    rewrite Hkept. reflexivity.
  - simpl. intros Hrun. inversion Hrun; subst st. simpl.
    apply negb_false_iff in Hcmp. apply String.eqb_eq in Hcmp. exact Hcmp.
Qed.

End Content.

Section Accepts.

Context {World : Type} (b : Browser World) (e : WebElement).
Context (field_name : string) (content : World -> string) (T : string).
Context (Hf : text_field b e field_name content T).
Context (Hkeys : forall ks w, fst (b_send_keys b e ks w) = Ok tt).

(** When no keystroke raises, [human_type] returns [True], whether or not
    the read-back matched. *)
Lemma human_type_accepts :
  sat anything (eq true) nothing (human_type b e T field_name).
Proof.
  assert (Hany : forall ev : event, anything ev) by (intros; exact I).
  unfold human_type. eapply sat_try with (E1 := nothing); [ | intros x []].
  eapply sat_bind;
    [apply (clear_field_typing b e anything); auto | intros _ _].
  eapply sat_bind;
    [apply (type_chars_typing b e anything); auto | intros _ _].
  eapply sat_bind with (V1 := fun r => r <> None).
  - intros s. rewrite (readback_reads Hf s).
    exists [readback_event e field_name]. simpl.
    split; [reflexivity | ]. split; [repeat constructor | discriminate].
  - intros [v |] Hv; [ | congruence].
    eapply sat_bind with (V1 := anything); [apply sat_ret; exact I | intros entered _].
    eapply sat_bind with (V1 := anything); [ | intros _ _; apply sat_ret; reflexivity].
    destruct (negb (String.eqb entered (strip T))); [ | apply sat_ret; exact I].
    eapply sat_bind; [apply log_sat; exact I | intros _ _].
    eapply sat_bind; [apply (clear_field_typing b e anything); auto | intros _ _].
    apply (send_keys_typing b e anything); auto.
Qed.

End Accepts.

(** C7, as the code has it, for texts of code points below U+0100.  On any
    browser [human_type] does not raise, and its events are those of one
    [clear_field], the text typed one character at a time, one read-back
    and, at most once, the retype (the warning, one more [clear_field], the
    whole text in one [send_keys]): all of them when it returns [True], those
    up to the call that raised, followed by the error line, when it returns
    [False].  So the field is read back at most once, retyped at most once
    and emptied at most twice.  Let the field moreover be one that can be
    read and emptied and that keeps [T] when [T] is sent to it in one piece
    (nothing is asked of the keystrokes sent one by one).  Then whenever
    [human_type] returns [True], the content of the field equals [T] up to
    surrounding white space: either the read-back matched, or the single
    retype put [T] there; and when no keystroke raises the result is [True],
    matched or not. *)
Theorem human_type_keeps_retyped_text :
  forall (World : Type) (b : Browser World) (e : WebElement)
         (content : World -> string) (T field_name : string) (s : state World),
    text_field b e field_name content T ->
    (fst (human_type b e T field_name s) = Ok true ->
     strip (content (world (snd (human_type b e T field_name s)))) = strip T) /\
    ((forall ks w, fst (b_send_keys b e ks w) = Ok tt) ->
     fst (human_type b e T field_name s) = Ok true) /\
    (exists (retyped : bool) (p rest : list event),
        human_type_events e T field_name retyped = (p ++ rest)%list /\
        match fst (human_type b e T field_name s) with
        | Ok true =>
            rest = [] /\
            trace (snd (human_type b e T field_name s)) = (trace s ++ p)%list
        | Ok false =>
            exists x,
              trace (snd (human_type b e T field_name s))
              = (trace s ++ p ++ [ELog ERROR (HumanTypeError field_name x)])%list
        | Raised _ => False
        end) /\
    exists t,
      trace (snd (human_type b e T field_name s)) = (trace s ++ t)%list /\
      (length (filter is_readback t) <= 1)%nat /\
      (length (filter is_retype t) <= 1)%nat /\
      (length (filter is_clear t) <= 2)%nat.
Proof.
  intros World b e content T field_name s Hf. split; [ | split; [ | split]].
  - apply human_type_content. exact Hf.
  - intros Hkeys.
    destruct (@human_type_accepts World b e field_name content T Hf Hkeys s)
      as [t [_ [_ Hr]]].
    destruct (fst (human_type b e T field_name s)) as [r | x];
      [subst r; reflexivity | destruct Hr].
  - apply human_type_spelt.
  - destruct (@count_human_type World is_readback b e
                ltac:(reflexivity) ltac:(reflexivity) ltac:(reflexivity)
                T field_name 1%nat 0%nat
                ltac:(intros; simpl; lia) ltac:(simpl; lia) ltac:(intros; simpl; lia) s)
      as [t1 [Ht1 H1]].
    destruct (@count_human_type World is_retype b e
                ltac:(reflexivity) ltac:(reflexivity) ltac:(reflexivity)
                T field_name 0%nat 1%nat
                ltac:(intros; simpl; lia) ltac:(simpl; lia) ltac:(intros; simpl; lia) s)
      as [t2 [Ht2 H2]].
    destruct (human_type_clears_twice b e T field_name s) as [t3 [Ht3 H3]].
    assert (t2 = t1) by (eapply same_extension; eassumption). subst t2.
    assert (t3 = t1) by (eapply same_extension; eassumption). subst t3.
    exists t1. unfold at_most in *. simpl in H1, H2. auto.
Qed.

Lemma Sim_value_of_set_value n v vs : Sim.value_of n (Sim.set_value n v vs) = v.
Proof.
  induction vs as [| [m u] rest IH]; simpl.
  - rewrite Nat.eqb_refl. reflexivity.
  - destruct (Nat.eqb m n) eqn:Hmn; simpl.
    + rewrite Nat.eqb_refl. reflexivity.
    + rewrite Hmn. exact IH.
Qed.

(** The input that misses single keystrokes is a text field for the text
    "Hi": its [value] holds the content, and "Hi" sent in one piece is
    kept. *)
Lemma Sim_text_field :
  text_field sim_slow_input (Sim.field "#identifierId") "email"
    (fun p => Sim.value_of 13 (Sim.values p)) "Hi".
Proof.
  unfold Sim.field. change (Sim.node_of (CSS_SELECTOR, "#identifierId")) with 13%nat.
  constructor; try (intros; reflexivity).
  - intros w. split; [reflexivity | ]. simpl. apply Sim_value_of_set_value.
  - intros w Hw. split; [reflexivity | ]. simpl.
    rewrite !Sim_value_of_set_value.
    destruct (Sim.is_selected 13 w); [reflexivity | rewrite Hw; reflexivity].
Qed.

Lemma human_type_keeps_retyped_text_witness :
  (fst (human_type sim_slow_input (Sim.field "#identifierId") "Hi" "email" Sim.start)
     = Ok true ->
   strip (Sim.value_of 13
            (Sim.values (world (snd (human_type sim_slow_input
                                       (Sim.field "#identifierId") "Hi" "email" Sim.start)))))
     = strip "Hi") /\
  ((forall ks w, fst (b_send_keys sim_slow_input (Sim.field "#identifierId") ks w)
                 = Ok tt) ->
   fst (human_type sim_slow_input (Sim.field "#identifierId") "Hi" "email" Sim.start)
     = Ok true) /\
  (exists (retyped : bool) (p rest : list event),
      human_type_events (Sim.field "#identifierId") "Hi" "email" retyped = (p ++ rest)%list /\
      match fst (human_type sim_slow_input (Sim.field "#identifierId") "Hi" "email"
                   Sim.start) with
      | Ok true =>
          rest = [] /\
          trace (snd (human_type sim_slow_input (Sim.field "#identifierId") "Hi" "email"
                        Sim.start)) = (trace Sim.start ++ p)%list
      | Ok false =>
          exists x,
            trace (snd (human_type sim_slow_input (Sim.field "#identifierId") "Hi" "email"
                          Sim.start))
            = (trace Sim.start ++ p ++ [ELog ERROR (HumanTypeError "email" x)])%list
      | Raised _ => False
      end) /\
  exists t,
    trace (snd (human_type sim_slow_input (Sim.field "#identifierId")
                  "Hi" "email" Sim.start)) = (trace Sim.start ++ t)%list /\
    (length (filter is_readback t) <= 1)%nat /\
    (length (filter is_retype t) <= 1)%nat /\
    (length (filter is_clear t) <= 2)%nat.
Proof.
  apply (@human_type_keeps_retyped_text Sim.page sim_slow_input
           (Sim.field "#identifierId") (fun p => Sim.value_of 13 (Sim.values p))
           "Hi" "email" Sim.start).
  exact Sim_text_field.
Defined.

(** That run is one with a retype: the field is empty before, the
    keystrokes sent one by one are lost, the read-back finds the field
    empty, the warning is logged, and the text sent in one piece stays. *)
Lemma slow_input_is_retyped :
  Sim.value_of 13 (Sim.values (world Sim.start)) = EmptyString /\
  human_type sim_slow_input (Sim.field "#identifierId") "Hi" "email" Sim.start
  = (Ok true,
     {| world := {| Sim.values := [(13%nat, "Hi")]; Sim.selected := None |};
        trace := human_type_events (Sim.field "#identifierId") "Hi" "email" true |}) /\
  fst (b_text sim_slow_input (Sim.field "#identifierId")
         {| Sim.values := [(13%nat, "Hi")]; Sim.selected := None |}) = Ok EmptyString.
Proof. vm_compute. auto. Qed.

(** C7 as stated fails: a field that keeps three characters is empty,
    "hello" is typed into it, the read-back differs, the one retype leaves
    "hel" again, and [human_type] returns [True] all the same. *)
Lemma truncating_field_keeps_wrong_text :
  Sim.value_of 13 (Sim.values (world Sim.start)) = EmptyString /\
  fst (human_type (Sim.browser (Sim.limited 3)) (Sim.field "#identifierId")
         "hello" "email" Sim.start) = Ok true /\
  strip (Sim.value_of 13
           (Sim.values (world (snd (human_type (Sim.browser (Sim.limited 3))
                                      (Sim.field "#identifierId") "hello" "email"
                                      Sim.start))))) = "hel" /\
  strip "hello" = "hello" /\
  filter is_retype (trace (snd (human_type (Sim.browser (Sim.limited 3))
                                  (Sim.field "#identifierId") "hello" "email" Sim.start)))
    = [ELog WARNING (TextMismatch "email")].
Proof. vm_compute. auto 6. Qed.

(* ===================================================================== *)
(** ** What the steps of an attempt can reach, on any browser *)
(* ===================================================================== *)

Section Permitted.

Context {World : Type} (b : Browser World) (self : GmailAutomation).
Context (A : alphabet) (P : event -> Prop) (HP : permits A P).

Lemma pause_permitted lo hi (E : exn -> Prop) : sat P anything E (human_delay b lo hi).
Proof. apply sat_perform; [apply (p_sleep HP) | intros w; exact I]. Qed.

Lemma wait_until_permitted sc t c l :
  a_probes A sc l -> sat P (fun e => found_by e = l) anything (wait_until b self sc t c l).
Proof.
  intros Hl. unfold wait_until. destruct sc.
  - apply on_driver_sat; [apply (p_wait HP); exact Hl | ].
    intros w. apply found_ok.
  - apply sat_perform; [apply (p_wait HP); exact Hl | ].
    intros w. generalize (found_ok l (b_wait b (InElement e) t c l w)).
    destruct (fst (found l (b_wait b (InElement e) t c l w))); auto.
Qed.

Lemma send_keys_permitted e ks :
  a_typed A (found_by e) -> sat P anything anything (send_keys b e ks).
Proof.
  intros He. apply sat_perform; [apply (p_keys HP); exact He | ].
  intros w. destruct (fst (b_send_keys b e ks w)); exact I.
Qed.

Lemma click_permitted e :
  a_clicked A (found_by e) -> sat P anything anything (click b e).
Proof.
  intros He. apply sat_perform; [apply (p_click HP); exact He | ].
  intros w. destruct (fst (b_click b e w)); exact I.
Qed.

Lemma clear_field_permitted e :
  a_typed A (found_by e) -> sat P anything anything (clear_field b e).
Proof.
  intros He. unfold clear_field.
  eapply sat_bind; [apply send_keys_permitted; exact He | intros _ _].
  eapply sat_bind; [apply send_keys_permitted; exact He | intros _ _].
  apply pause_permitted.
Qed.

Lemma type_chars_permitted e txt :
  a_typed A (found_by e) -> sat P anything anything (type_chars b e txt).
Proof.
  intros He. induction txt as [| c rest IH]; simpl.
  - apply sat_ret. exact I.
  - eapply sat_bind; [apply send_keys_permitted; exact He | intros _ _].
    eapply sat_bind; [apply pause_permitted | intros _ _].
    exact IH.
Qed.

(** Typing into a field other than the body touches that field only, and
    reads nothing but its [value]. *)
Lemma human_type_permitted e txt field_name (E : exn -> Prop) :
  String.eqb field_name "body" = false ->
  a_typed A (found_by e) -> a_read A (found_by e) ->
  sat P anything E (human_type b e txt field_name).
Proof.
  intros Hname Ht Hr. unfold human_type. rewrite Hname.
  eapply sat_try with (E1 := anything).
  - eapply sat_bind; [apply clear_field_permitted; exact Ht | intros _ _].
    eapply sat_bind; [apply type_chars_permitted; exact Ht | intros _ _].
    eapply sat_bind with (V1 := anything).
    { apply sat_perform; [apply (p_value HP); exact Hr | ].
      intros w. destruct (fst (b_get_attribute b e "value" w)); exact I. }
    intros entered_text _.
    eapply sat_bind with (V1 := anything).
    + destruct entered_text; [apply sat_ret | apply sat_raise]; exact I.
    + intros entered _.
      eapply sat_bind with (V1 := anything); [ | intros; apply sat_ret; exact I].
      destruct (negb (String.eqb entered (strip txt))).
      * eapply sat_bind; [apply log_sat; apply (p_log HP); reflexivity | intros _ _].
        eapply sat_bind; [apply clear_field_permitted; exact Ht | intros _ _].
        apply send_keys_permitted. exact Ht.
      * apply sat_ret. exact I.
  - intros ex _.
    eapply sat_bind; [apply log_sat; apply (p_log HP); reflexivity | intros _ _].
    apply sat_ret. exact I.
Qed.

Lemma typed_cascade_permitted sc timeout selectors txt field_name after (E : exn -> Prop) :
  String.eqb field_name "body" = false ->
  (forall l, In l (css selectors) -> a_probes A sc l /\ a_typed A l /\ a_read A l) ->
  sat P anything anything after ->
  sat P anything E (typed_cascade b self sc timeout selectors txt field_name after).
Proof.
  intros Hname Hok Hafter. unfold typed_cascade.
  apply sat_for_first; [exact I | ].
  intros sel Hsel.
  assert (Hl : In (CSS_SELECTOR, sel) (css selectors)).
  { unfold css. apply in_map_iff. exists sel. auto. }
  destruct (Hok _ Hl) as [Hp [Ht Hr]].
  eapply sat_try with (E1 := anything).
  - eapply sat_bind; [apply wait_until_permitted; exact Hp | ].
    intros field Hfield.
    eapply sat_bind;
      [apply human_type_permitted; [exact Hname | rewrite Hfield; exact Ht
                                   | rewrite Hfield; exact Hr]
      | intros typed _].
    destruct typed.
    + eapply sat_bind; [exact Hafter | intros _ _].
      apply sat_ret. exact I.
    + apply sat_ret. exact I.
  - intros e _. apply sat_ret. exact I.
Qed.

Lemma click_cascade_permitted buttons lo hi (E : exn -> Prop) :
  (forall l, In l (buttons_of buttons) -> a_probes A InDriver l /\ a_clicked A l) ->
  sat P anything E (click_cascade b self buttons lo hi).
Proof.
  intros Hok. unfold click_cascade.
  apply sat_for_first; [exact I | ].
  intros [ty loc] Hin.
  assert (Hl : In (by_of ty, loc) (buttons_of buttons)).
  { unfold buttons_of. apply in_map_iff. exists (ty, loc). auto. }
  destruct (Hok _ Hl) as [Hp Hc].
  eapply sat_try with (E1 := anything).
  - eapply sat_bind; [apply wait_until_permitted; exact Hp | ].
    intros btn Hbtn.
    eapply sat_bind; [apply click_permitted; rewrite Hbtn; exact Hc | intros _ _].
    eapply sat_bind; [apply pause_permitted | intros _ _].
    apply sat_ret. exact I.
  - intros e _. apply sat_ret. exact I.
Qed.

Lemma load_gmail_permitted (E : exn -> Prop) :
  (forall u, In u urls -> a_pages A u) ->
  sat P anything E (load_gmail b self).
Proof.
  intros Hpages. unfold load_gmail. apply sat_for_first; [exact I | ].
  intros u Hu. specialize (Hpages u Hu).
  eapply sat_try with (E1 := anything).
  - eapply sat_bind with (V1 := anything);
      [apply on_driver_sat;
         [apply (p_get HP); exact Hpages | intros w; destruct (fst _); exact I]
      | intros _ _].
    eapply sat_bind with (V1 := anything);
      [apply on_driver_sat;
         [apply (p_ready HP u); exact Hpages | intros w; destruct (fst _); exact I]
      | intros _ _].
    eapply sat_bind; [apply pause_permitted | intros _ _].
    eapply sat_bind with (V1 := anything);
      [apply on_driver_sat;
         [apply (p_url HP u); exact Hpages | intros w; destruct (fst _); exact I]
      | intros u1 _].
    destruct (contains "google.com/accounts" u1); [apply sat_ret; exact I | ].
    eapply sat_bind with (V1 := anything);
      [apply on_driver_sat;
         [apply (p_url HP u); exact Hpages | intros w; destruct (fst _); exact I]
      | intros u2 _].
    destruct (contains "mail.google.com" u2); apply sat_ret; exact I.
  - intros e _. apply sat_ret. exact I.
Qed.

(** The steps of a login attempt stay within an alphabet that covers
    them, and return nothing but [True]. *)
Lemma login_steps_permitted email password :
  covers_login A ->
  sat P (eq true) anything (login_steps b self email password).
Proof.
  intros [Hpages [Hfields [Hbuttons Hlandmark]]]. unfold login_steps.
  eapply sat_bind; [apply load_gmail_permitted; exact Hpages | ].
  intros loaded _. eapply sat_bind with (V1 := anything); [apply require_any | ].
  intros _ _. eapply sat_bind with (V1 := anything).
  { unfold email_entry. eapply sat_bind with (V1 := anything);
      [ | intros ? _; apply require_any].
    apply typed_cascade_permitted; [reflexivity | | apply sat_ret; exact I].
    intros l Hl. apply Hfields. apply in_or_app. left. exact Hl. }
  intros _ _. eapply sat_bind with (V1 := anything).
  { unfold click_next_button. eapply sat_bind with (V1 := anything);
      [ | intros ? _; apply require_any].
    apply click_cascade_permitted.
    intros l Hl. apply Hbuttons. apply in_or_app. left. exact Hl. }
  intros _ _. eapply sat_bind with (V1 := anything).
  { unfold password_entry. eapply sat_bind with (V1 := anything);
      [ | intros ? _; apply require_any].
    apply typed_cascade_permitted; [reflexivity | | apply sat_ret; exact I].
    intros l Hl. apply Hfields. apply in_or_app. right. exact Hl. }
  intros _ _. eapply sat_bind with (V1 := anything).
  { unfold submit_login. eapply sat_bind with (V1 := anything);
      [ | intros ? _; apply require_any].
    apply click_cascade_permitted.
    intros l Hl. apply Hbuttons. apply in_or_app. right. exact Hl. }
  intros _ _. eapply sat_bind with (V1 := anything).
  { eapply sat_conseq;
      [apply wait_until_permitted; exact Hlandmark | auto | intros; exact I | auto]. }
  intros _ _.
  eapply sat_bind; [apply log_sat; apply (p_log HP); reflexivity | intros _ _].
  apply sat_ret. reflexivity.
Qed.

(** Likewise for the steps of a send attempt. *)
Lemma send_steps_permitted recipient subject body :
  covers_send A ->
  sat P (eq true) anything (send_steps b self recipient subject body).
Proof.
  intros [[Hcp Hcc] [Hdialog [Hfields [Hbody Hsend]]]].
  unfold send_steps, click_compose_button, wait_for_compose_window.
  eapply sat_bind with (V1 := anything).
  { eapply sat_bind; [apply wait_until_permitted; exact Hcp | intros compose_btn Hbtn].
    eapply sat_bind; [apply pause_permitted | intros _ _].
    eapply sat_bind; [apply click_permitted; rewrite Hbtn; exact Hcc | intros _ _].
    apply sat_ret. exact I. }
  intros _ _.
  eapply sat_bind with (V1 := fun d => found_by d = (CSS_SELECTOR, dialog_css)).
  { eapply sat_bind; [apply wait_until_permitted; exact Hdialog | intros compose_dialog Hd].
    eapply sat_bind; [apply pause_permitted | intros _ _].
    apply sat_ret. exact Hd. }
  intros compose_dialog Hd.
  eapply sat_bind with (V1 := anything).
  { unfold fill_recipient_field. eapply sat_bind with (V1 := anything);
      [ | intros ? _; apply require_any].
    apply typed_cascade_permitted; [reflexivity | | apply pause_permitted].
    intros l Hl. apply (Hfields compose_dialog l Hd). apply in_or_app. left. exact Hl. }
  intros _ _. eapply sat_bind with (V1 := anything).
  { unfold fill_subject_field. eapply sat_bind with (V1 := anything);
      [ | intros ? _; apply require_any].
    apply typed_cascade_permitted; [reflexivity | | apply pause_permitted].
    intros l Hl. apply (Hfields compose_dialog l Hd). apply in_or_app. right. exact Hl. }
  intros _ _. eapply sat_bind with (V1 := anything).
  { unfold fill_body_content.
    eapply sat_bind with (V1 := anything); [ | intros ? _; apply require_any].
    apply sat_for_first; [exact I | ].
    intros sel Hsel.
    assert (Hl : In (CSS_SELECTOR, sel) (css body_selectors)).
    { unfold css. apply in_map_iff. exists sel. auto. }
    destruct (Hbody compose_dialog _ Hd Hl) as [Hp [Ht Hc]].
    eapply sat_try with (E1 := anything).
    - eapply sat_bind; [apply wait_until_permitted; exact Hp | ].
      intros body_field Hfield.
      eapply sat_bind; [apply click_permitted; rewrite Hfield; exact Hc | intros _ _].
      eapply sat_bind; [apply pause_permitted | intros _ _].
      eapply sat_bind; [apply send_keys_permitted; rewrite Hfield; exact Ht | intros _ _].
      eapply sat_bind; [apply pause_permitted | intros _ _].
      apply sat_ret. exact I.
    - intros e _. apply sat_ret. exact I. }
  intros _ _. eapply sat_bind with (V1 := anything).
  { unfold send_email.
    eapply sat_bind with (V1 := anything); [ | intros ? _; apply require_any].
    apply sat_for_first; [exact I | ].
    intros sel Hsel.
    assert (Hl : In (send_locator sel) (map send_locator send_selectors)).
    { apply in_map. exact Hsel. }
    destruct (Hsend compose_dialog _ Hd Hl) as [Hp Hc].
    eapply sat_try with (E1 := anything).
    - eapply sat_bind with (V1 := fun e => found_by e = send_locator sel).
      + unfold send_locator in *.
        destruct (startswith sel "//"); apply wait_until_permitted; exact Hp.
      + intros send_btn Hbtn.
        eapply sat_bind; [apply pause_permitted | intros _ _].
        eapply sat_bind; [apply click_permitted; rewrite Hbtn; exact Hc | intros _ _].
        apply sat_ret. exact I.
    - intros e _. apply sat_ret. exact I. }
  intros _ _. eapply sat_bind with (V1 := anything).
  { eapply sat_conseq;
      [apply wait_until_permitted; exact Hdialog | auto | intros; exact I | auto]. }
  intros _ _.
  eapply sat_bind; [apply log_sat; apply (p_log HP); reflexivity | intros _ _].
  apply sat_ret. reflexivity.
Qed.

End Permitted.

Section PermittedRuns.

Context {World : Type} (b : Browser World) (self : GmailAutomation).
Context (A : alphabet) (P : event -> Prop) (HP : permits A P).

Lemma login_failed_permitted attempt max_attempts e :
  P (ESaveScreenshot "login_failure.png") -> P EDeleteAllCookies ->
  sat P (fun r => r <> Some true) anything (login_failed b self attempt max_attempts e).
Proof.
  intros Hshot Hcookies. unfold login_failed.
  eapply sat_bind; [apply log_sat; apply (p_log HP); reflexivity | intros _ _].
  destruct (attempt =? max_attempts).
  - eapply sat_bind with (V1 := anything);
      [apply on_driver_sat; [exact Hshot | intros w; destruct (fst _); exact I]
      | intros _ _].
    apply sat_ret. discriminate.
  - eapply sat_bind with (V1 := anything);
      [apply on_driver_sat; [exact Hcookies | intros w; destruct (fst _); exact I]
      | intros _ _].
    eapply sat_bind; [apply (pause_permitted b HP) | intros _ _].
    apply sat_ret. discriminate.
Qed.

Lemma close_stuck_window_permitted (E : exn -> Prop) :
  P (EFindElement (CSS_SELECTOR, close_css)) -> a_clicked A (CSS_SELECTOR, close_css) ->
  sat P anything E (close_stuck_window b self).
Proof.
  intros Hfind Hclick. unfold close_stuck_window. eapply sat_try with (E1 := anything).
  - eapply sat_bind with (V1 := fun e => found_by e = (CSS_SELECTOR, close_css)).
    + unfold find_element. apply on_driver_sat; [exact Hfind | ].
      intros w. apply found_ok.
    + intros close_btn Hbtn.
      eapply sat_bind; [apply (click_permitted b HP); rewrite Hbtn; exact Hclick | intros _ _].
      apply (pause_permitted b HP).
  - intros e _. apply sat_ret. exact I.
Qed.

Lemma send_failed_permitted attempt max_attempts e :
  P (ESaveScreenshot "send_email_failure.png") ->
  P (EFindElement (CSS_SELECTOR, close_css)) -> a_clicked A (CSS_SELECTOR, close_css) ->
  sat P (fun r => r <> Some true) anything (send_failed b self attempt max_attempts e).
Proof.
  intros Hshot Hfind Hclick. unfold send_failed.
  eapply sat_bind; [apply log_sat; apply (p_log HP); reflexivity | intros _ _].
  destruct (attempt =? max_attempts).
  - eapply sat_bind with (V1 := anything);
      [apply on_driver_sat; [exact Hshot | intros w; destruct (fst _); exact I]
      | intros _ _].
    apply sat_ret. discriminate.
  - eapply sat_bind; [apply close_stuck_window_permitted; assumption | intros _ _].
    eapply sat_bind; [apply (pause_permitted b HP) | intros _ _].
    apply sat_ret. discriminate.
Qed.

(** Login stays within an alphabet that covers its steps and the calls of
    its handler. *)
Lemma login_permitted email password max_attempts :
  covers_login A ->
  (forall a, P (ELog INFO (LoginAttempt a max_attempts))) ->
  P (ESaveScreenshot "login_failure.png") -> P EDeleteAllCookies ->
  sat P anything anything (login_to_gmail b self email password max_attempts).
Proof.
  intros Hcov Hlog Hshot Hcookies. unfold login_to_gmail.
  apply sat_for_first; [exact I | ].
  intros a _. eapply sat_conseq with (P := P) (V := anything) (E := anything);
    [ | auto | intros [y |] _; exact I | auto].
  eapply sat_try with (E1 := anything).
  - eapply sat_bind with (V1 := anything); [ | intros r _; apply sat_ret; exact I].
    unfold login_attempt.
    eapply sat_bind; [apply log_sat; apply Hlog | intros _ _].
    eapply sat_conseq;
      [apply (login_steps_permitted b self HP); exact Hcov | auto | intros; exact I | auto].
  - intros e _. eapply sat_conseq;
      [apply login_failed_permitted; assumption | auto | intros; exact I | auto].
Qed.

Lemma send_permitted recipient subject body max_attempts :
  covers_send A ->
  (forall a, P (ELog INFO (EmailSendingAttempt a max_attempts))) ->
  P (ESaveScreenshot "send_email_failure.png") ->
  P (EFindElement (CSS_SELECTOR, close_css)) -> a_clicked A (CSS_SELECTOR, close_css) ->
  sat P anything anything (compose_and_send_email b self recipient subject body max_attempts).
Proof.
  intros Hcov Hlog Hshot Hfind Hclick. unfold compose_and_send_email.
  apply sat_for_first; [exact I | ].
  intros a _. eapply sat_conseq with (P := P) (V := anything) (E := anything);
    [ | auto | intros [y |] _; exact I | auto].
  eapply sat_try with (E1 := anything).
  - eapply sat_bind with (V1 := anything); [ | intros r _; apply sat_ret; exact I].
    unfold send_attempt.
    eapply sat_bind; [apply log_sat; apply Hlog | intros _ _].
    eapply sat_conseq;
      [apply (send_steps_permitted b self HP); exact Hcov | auto | intros; exact I | auto].
  - intros e _. eapply sat_conseq;
      [apply send_failed_permitted; assumption | auto | intros; exact I | auto].
Qed.

End PermittedRuns.

Lemma permits_login_event : permits login_alphabet login_event.
Proof.
  constructor; simpl; auto.
Qed.

Lemma covers_login_alphabet : covers_login login_alphabet.
Proof.
  unfold covers_login, login_alphabet, login_probe.
  cbn [a_pages a_probes a_typed a_read a_clicked].
  split; [auto | ]. split; [ | split].
  - intros l Hl. split; [ | auto]. split; [reflexivity | ].
    apply in_app_or in Hl. rewrite !in_app_iff. tauto.
  - intros l Hl. split; [ | auto]. split; [reflexivity | ].
    apply in_app_or in Hl. rewrite !in_app_iff. tauto.
  - split; [reflexivity | ]. rewrite !in_app_iff. right. right. right. right.
    left. reflexivity.
Qed.

Lemma permits_send_event : permits send_alphabet send_event.
Proof.
  constructor; simpl; auto; intros u [].
Qed.

Lemma covers_send_alphabet : covers_send send_alphabet.
Proof.
  unfold covers_send, send_alphabet, send_probe.
  cbn [a_pages a_probes a_typed a_read a_clicked].
  split; [split; [left; reflexivity | left; reflexivity] | ].
  split; [right; left; reflexivity | ].
  split; [ | split].
  - intros d l Hd Hl. split; [split; [exact Hd | ] | split; [ | exact Hl]].
    + apply in_app_or in Hl. rewrite !in_app_iff. tauto.
    + apply in_app_or in Hl. rewrite !in_app_iff. tauto.
  - intros d l Hd Hl. split; [split; [exact Hd | ] | split].
    + rewrite !in_app_iff. tauto.
    + rewrite !in_app_iff. tauto.
    + right. right. apply in_or_app. left. exact Hl.
  - intros d l Hd Hl. split; [split; [exact Hd | ] | ].
    + rewrite !in_app_iff. tauto.
    + right. right. apply in_or_app. right. exact Hl.
Qed.

(** X2.  Whatever the browser answers, every call [login_to_gmail] makes is
    one of [login_event]: it navigates to the three entry URLs only; it
    looks for elements in the whole page and only through the candidates of
    its four cascades and the Compose landmark; it types into, and reads
    the [value] of, elements found through the email and password
    selectors only; it clicks elements found through the "next" and
    "submit" candidates only; its only screenshot is [login_failure.png];
    it never starts or quits the browser, never calls [find_element] and
    never reads the text of an element. *)
Theorem login_stays_within_its_candidates :
  forall (World : Type) (b : Browser World) (self : GmailAutomation)
         (email password : string) (max_attempts : Z) (s : state World),
    exists t,
      trace (snd (login_to_gmail b self email password max_attempts s))
        = (trace s ++ t)%list /\
      Forall login_event t.
Proof.
  intros World b self email password max_attempts s.
  destruct (@login_permitted World b self login_alphabet login_event permits_login_event
              email password max_attempts covers_login_alphabet
              (fun a => I) eq_refl I s) as [t [Ht [HF _]]].
  exists t. auto.
Qed.

(** X3.  Whatever the browser answers, every call [compose_and_send_email]
    makes is one of [send_event]: it never navigates and never deletes
    cookies; it looks in the whole page for the Compose button and the
    dialog only, and for the candidates of its fields and of the Send
    button inside the dialog it found; it types into elements found through
    the recipient, subject and body selectors only, and reads back the
    [value] of recipient and subject fields only (the body is never read
    back); [find_element] is called for the Close button only; its only
    screenshot is [send_email_failure.png]; it never starts or quits the
    browser. *)
Theorem send_stays_within_its_candidates :
  forall (World : Type) (b : Browser World) (self : GmailAutomation)
         (recipient subject body : string) (max_attempts : Z) (s : state World),
    exists t,
      trace (snd (compose_and_send_email b self recipient subject body max_attempts s))
        = (trace s ++ t)%list /\
      Forall send_event t.
Proof.
  intros World b self recipient subject body max_attempts s.
  destruct (@send_permitted World b self send_alphabet send_event permits_send_event
              recipient subject body max_attempts covers_send_alphabet
              (fun a => I) eq_refl eq_refl (or_intror (or_introl eq_refl)) s)
    as [t [Ht [HF _]]].
  exists t. auto.
Qed.

(* ===================================================================== *)
(** ** Construction and close *)
(* ===================================================================== *)

Section Lifecycle.

Context {World : Type} (b : Browser World).

(** What [__init__] leaves behind, on success and on failure. *)
Lemma init_runs headless_mode (s : state World) :
  (exists w,
     init b headless_mode s
     = (Ok {| driver := Some Chrome; headless := headless_mode |},
        {| world := w;
           trace := trace s ++ [EInitChrome headless_mode; ELog INFO ChromeInitialized] |})) \/
  (exists cause w,
     init b headless_mode s
     = (Raised (RuntimeError "Failed to initialize Chrome driver"),
        {| world := w;
           trace := trace s ++ [EInitChrome headless_mode;
                                ELog ERROR (ChromeInitFailed cause);
                                ELog ERROR (DriverInitFailed cause)] |})).
Proof.
  unfold init, setup_driver, _init_chrome, try_except, bind, log, perform, ret, raise.
  simpl. destruct (b_init_chrome b headless_mode (world s)) as [[[] | cause] w]; simpl.
  - left. exists w. rewrite <- app_assoc. reflexivity.
  - right. exists cause, w. rewrite <- !app_assoc. reflexivity.
Qed.

Lemma init_sat (P : event -> Prop) headless_mode :
  P (EInitChrome headless_mode) ->
  (forall lvl m, is_attempt (ELog lvl m) = false -> P (ELog lvl m)) ->
  sat P (fun a => driver a = Some Chrome) anything (init b headless_mode).
Proof.
  intros Hinit Hlog s.
  destruct (init_runs headless_mode s) as [[w Hrun] | [cause [w Hrun]]]; rewrite Hrun; simpl.
  - exists [EInitChrome headless_mode; ELog INFO ChromeInitialized].
    split; [reflexivity | ]. split; [ | reflexivity].
    repeat constructor; [exact Hinit | apply Hlog; reflexivity].
  - exists [EInitChrome headless_mode; ELog ERROR (ChromeInitFailed cause);
            ELog ERROR (DriverInitFailed cause)].
    split; [reflexivity | ]. split; [ | exact I].
    repeat constructor; [exact Hinit | apply Hlog; reflexivity | apply Hlog; reflexivity].
Qed.

(** On a controller that has a driver, [close] calls [quit] and writes one
    log line. *)
Lemma close_runs self (s : state World) :
  driver self = Some Chrome ->
  exists w lvl m,
    close b self s
    = (Ok tt, {| world := w; trace := trace s ++ [EQuit; ELog lvl m] |}).
Proof.
  intros Hd. unfold close, try_except, bind, quit, on_driver, log, perform. rewrite Hd.
  destruct (b_quit b (world s)) as [[[] | e] w]; simpl.
  - exists w, INFO, BrowserClosed. rewrite <- app_assoc. reflexivity.
  - exists w, ERROR, (ErrorClosingBrowser e). rewrite <- app_assoc. reflexivity.
Qed.

Lemma close_quits self :
  driver self = Some Chrome ->
  triple (close b self) (fun r t => r = Ok tt /\ filter is_quit t = [EQuit]).
Proof.
  intros Hd s. destruct (close_runs self s Hd) as [w [lvl [m Hrun]]].
  rewrite Hrun. simpl. exists [EQuit; ELog lvl m]. auto.
Qed.

End Lifecycle.

(** X1.  The constructor either returns a controller whose driver is set
    (and whose [headless] flag is the one asked for), after asking once for
    Chrome and logging the success; or it raises [RuntimeError] with the
    fixed text "Failed to initialize Chrome driver", whatever exception
    starting Chrome raised: that exception is kept only in the two error
    lines logged before.  No controller without a driver is ever handed
    out. *)
Theorem constructor_sets_driver_or_raises_RuntimeError :
  forall (World : Type) (b : Browser World) (headless_mode : bool) (s : state World),
    match fst (init b headless_mode s) with
    | Ok self =>
        driver self = Some Chrome /\ headless self = headless_mode /\
        trace (snd (init b headless_mode s))
        = (trace s ++ [EInitChrome headless_mode; ELog INFO ChromeInitialized])%list
    | Raised e =>
        e = RuntimeError "Failed to initialize Chrome driver" /\
        exists cause,
          fst (b_init_chrome b headless_mode (world s)) = Raised cause /\
          trace (snd (init b headless_mode s))
          = (trace s ++ [EInitChrome headless_mode;
                         ELog ERROR (ChromeInitFailed cause);
                         ELog ERROR (DriverInitFailed cause)])%list
    end.
Proof.
  intros World b headless_mode s.
  unfold init, setup_driver, _init_chrome, try_except, bind, log, perform, ret, raise.
  simpl. destruct (b_init_chrome b headless_mode (world s)) as [[[] | cause] w]; simpl.
  - rewrite <- app_assoc. auto.
  - split; [reflexivity | ]. exists cause. rewrite <- !app_assoc. auto.
Qed.

(** X9.  On a controller without a driver [close] does nothing at all.  On
    a controller with a driver every call of [close] calls [quit] once and
    logs one line, and it leaves [self.driver] as it is: a second [close]
    calls [quit] on the same driver again. *)
Theorem close_quits_on_every_call :
  forall (World : Type) (b : Browser World) (self : GmailAutomation) (s : state World),
    match driver self with
    | None => close b self s = (Ok tt, s)
    | Some _ =>
        exists lvl1 m1 lvl2 m2,
          trace (snd (close b self s)) = (trace s ++ [EQuit; ELog lvl1 m1])%list /\
          trace (snd (close b self (snd (close b self s))))
          = (trace s ++ [EQuit; ELog lvl1 m1; EQuit; ELog lvl2 m2])%list
    end.
Proof.
  intros World b self s. destruct (driver self) as [[] |] eqn:Hd.
  - destruct (close_runs b self s Hd) as [w1 [lvl1 [m1 H1]]].
    destruct (close_runs b self (snd (close b self s)) Hd) as [w2 [lvl2 [m2 H2]]].
    exists lvl1, m1, lvl2, m2. rewrite H2, H1. simpl.
    rewrite <- app_assoc. auto.
  - unfold close. rewrite Hd. reflexivity.
Qed.

(* ===================================================================== *)
(** ** The "Send Email" button *)
(* ===================================================================== *)

Lemma permits_everywhere_anything : permits everywhere anything.
Proof. constructor; intros; exact I. Qed.

Lemma permits_no_quit : permits everywhere (fun ev => is_quit ev = false).
Proof. constructor; intros; reflexivity. Qed.

Lemma covers_login_everywhere : covers_login everywhere.
Proof. unfold covers_login, everywhere, anything. simpl. auto. Qed.

Lemma covers_send_everywhere : covers_send everywhere.
Proof. unfold covers_send, everywhere, anything. simpl. auto 8. Qed.

Section ShellRuns.

Context {World : Type} (b : Browser World).

(** Login and send never quit the browser themselves. *)
Lemma login_no_quit self email password max_attempts :
  triple (login_to_gmail b self email password max_attempts)
    (fun r t => filter is_quit t = []).
Proof.
  eapply triple_conseq.
  - apply (login_permitted b self permits_no_quit email password max_attempts
             covers_login_everywhere); reflexivity.
  - intros r t [Ht _]. apply filter_none. exact Ht.
Qed.

Lemma send_no_quit self recipient subject body max_attempts :
  triple (compose_and_send_email b self recipient subject body max_attempts)
    (fun r t => filter is_quit t = []).
Proof.
  eapply triple_conseq.
  - apply (send_permitted b self permits_no_quit recipient subject body max_attempts
             covers_send_everywhere); reflexivity || exact I.
  - intros r t [Ht _]. apply filter_none. exact Ht.
Qed.

End ShellRuns.

(** X11.  If one of the five fields is empty, the button starts no browser
    and makes no call at all: the state is as before and the status area
    asks to fill in all fields. *)
Theorem empty_field_starts_nothing :
  forall (World : Type) (b : Browser World)
         (email password recipient subject body : string) (headless_mode : bool)
         (s : state World),
    In EmptyString [email; password; recipient; subject; body] ->
    send_email_button b email password recipient subject body headless_mode s
    = (Ok please_fill_in_all_fields, s).
Proof.
  intros World b email password recipient subject body headless_mode s Hin.
  unfold send_email_button.
  assert (H : forallb truthy [email; password; recipient; subject; body] = false).
  { apply not_true_is_false. intros Hall. rewrite forallb_forall in Hall.
    specialize (Hall EmptyString Hin). discriminate Hall. }
  rewrite H. reflexivity.
Qed.

Lemma empty_field_starts_nothing_witness :
  send_email_button (Sim.browser Sim.happy) "u@x.com" "pw" "r@y.com" "Hi" EmptyString
    false Sim.start
  = (Ok please_fill_in_all_fields, Sim.start).
Proof.
  apply (@empty_field_starts_nothing Sim.page (Sim.browser Sim.happy)
           "u@x.com" "pw" "r@y.com" "Hi" EmptyString false Sim.start).
  simpl. auto 6.
Defined.

(** X13.  The button never raises: it always ends with a status.  When
    login and send both return (whatever they return), the browser is quit
    exactly once, after them; when the status is "An error occurred" (the
    constructor, login or send raised), [quit] is never called, so a
    browser that was started stays open. *)
Theorem button_quits_browser_unless_exception :
  forall (World : Type) (b : Browser World)
         (email password recipient subject body : string) (headless_mode : bool)
         (s : state World),
    exists shown t,
      fst (send_email_button b email password recipient subject body headless_mode s)
        = Ok shown /\
      trace (snd (send_email_button b email password recipient subject body headless_mode s))
        = (trace s ++ t)%list /\
      filter is_quit t =
        match shown with
        | failed_to_login | email_sent | failed_to_send => [EQuit]
        | please_fill_in_all_fields | an_error_occurred _ => []
        end.
Proof.
  intros World b email password recipient subject body headless_mode s.
  set (quits := fun shown => match shown with
                             | failed_to_login | email_sent | failed_to_send => [EQuit]
                             | please_fill_in_all_fields | an_error_occurred _ => []
                             end).
  assert (H : triple (send_email_button b email password recipient subject body headless_mode)
                (fun r t => exists shown, r = Ok shown /\ filter is_quit t = quits shown)).
  { unfold send_email_button.
    destruct (negb (forallb truthy [email; password; recipient; subject; body])).
    { apply triple_ret. exists please_fill_in_all_fields. auto. }
    eapply triple_try with
      (Q1 := fun r t => match r with
                        | Ok shown => shown <> please_fill_in_all_fields /\
                                      (forall e, shown <> an_error_occurred e) /\
                                      filter is_quit t = [EQuit]
                        | Raised _ => filter is_quit t = []
                        end).
    - eapply triple_bind with
        (Q1 := fun r t => filter is_quit t = [] /\
                          match r with Ok a => driver a = Some Chrome | Raised _ => True end).
      + eapply triple_conseq;
          [apply (@init_sat World b (fun ev => is_quit ev = false)); intros; reflexivity | ].
        intros r t [Ht Hr]. split; [apply filter_none; exact Ht | ].
        destruct r; [exact Hr | exact I].
      + intros automation t1 [H1 Hd].
        eapply triple_bind with (Q1 := fun r t => filter is_quit (t1 ++ t) = []).
        * eapply triple_conseq; [apply login_no_quit | ].
          intros r t H2. rewrite filter_app, H1, H2. reflexivity.
        * intros login_status t2 H2.
          destruct (negb (truthy_result login_status)).
          -- eapply triple_bind with
               (Q1 := fun r t => r = Ok tt /\ filter is_quit t = [EQuit]).
             ++ apply close_quits. exact Hd.
             ++ intros _ t3 [_ H3]. apply triple_ret.
                rewrite app_nil_r, app_assoc, filter_app, H2, H3.
                repeat split; intros; discriminate.
             ++ intros e t3 [Hr _]. discriminate Hr.
          -- eapply triple_bind with (Q1 := fun r t => filter is_quit t = []).
             ++ apply send_no_quit.
             ++ intros send_status t3 H3.
                eapply triple_bind with
                  (Q1 := fun r t => r = Ok tt /\ filter is_quit t = [EQuit]).
                ** apply close_quits. exact Hd.
                ** intros _ t4 [_ H4]. apply triple_ret.
                   rewrite app_nil_r, app_assoc, filter_app, H2.
                   rewrite filter_app, H3, H4.
                   destruct (truthy_result send_status);
                     repeat split; intros; discriminate.
                ** intros e t4 [Hr _]. discriminate Hr.
             ++ intros e t3 H3. rewrite app_assoc, filter_app, H2, H3. reflexivity.
        * intros e t2 H2. exact H2.
      + intros e t1 [H1 _]. exact H1.
    - intros shown t1 [Hfill [Herr Hq]]. exists shown. split; [reflexivity | ].
      rewrite Hq. destruct shown; try reflexivity; [congruence | ].
      exfalso. apply (Herr e). reflexivity.
    - intros e t1 H1. apply triple_ret. exists (an_error_occurred e).
      rewrite app_nil_r. auto. }
  destruct (H s) as [t [Ht [shown [Hr Hq]]]]. exists shown, t. auto.
Qed.

(** A run that ends in "An error occurred": the screenshot of the last
    login attempt raises, the shell reports the error, and Chrome, which
    had started, is never quit. *)
Lemma button_can_leave_browser_open :
  fst (send_email_button (Sim.browser Sim.no_screenshot) "u@x.com" "pw" "r@y.com" "Hi" "Hello"
         false Sim.start)
    = Ok (an_error_occurred (WebDriverException "invalid session id")) /\
  hd_error (trace (snd (send_email_button (Sim.browser Sim.no_screenshot)
                          "u@x.com" "pw" "r@y.com" "Hi" "Hello" false Sim.start)))
    = Some (EInitChrome false) /\
  filter is_quit (trace (snd (send_email_button (Sim.browser Sim.no_screenshot)
                                "u@x.com" "pw" "r@y.com" "Hi" "Hello" false Sim.start)))
    = [].
Proof. vm_compute. auto. Qed.

Section Success.

Context {World : Type} (b : Browser World) (self : GmailAutomation).

(** Two facts about the runs of one computation hold together. *)
Lemma triple_both A (m : M World A) (Q1 Q2 : outcome A -> list event -> Prop) :
  triple m Q1 -> triple m Q2 -> triple m (fun r t => Q1 r t /\ Q2 r t).
Proof.
  intros H1 H2 s. destruct (H1 s) as [t1 [Ht1 HQ1]]. destruct (H2 s) as [t2 [Ht2 HQ2]].
  assert (t2 = t1) by (eapply same_extension; eassumption). subst t2.
  exists t1. auto.
Qed.

(** If what follows shows [ev] whenever it returns, so does the whole. *)
Lemma shown_bind A B (P : event -> Prop) (V : A -> Prop) (E : exn -> Prop)
  (m : M World A) (k : A -> M World B) ev :
  sat P V E m ->
  (forall a, triple (k a) (fun r t => is_ok r = true -> In ev t)) ->
  triple (bind m k) (fun r t => is_ok r = true -> In ev t).
Proof.
  intros Hm Hk. eapply triple_bind; [exact Hm | | ].
  - intros a t1 _. eapply triple_conseq; [apply Hk | ].
    intros r t2 H Hr. apply in_or_app. right. auto.
  - intros e t1 _ Hr. discriminate Hr.
Qed.

Lemma shown_last (L : log_msg) :
  triple (World:=World) (bind (log INFO L) (fun _ => ret true))
    (fun r t => is_ok r = true -> In (ELog INFO L) t).
Proof.
  eapply triple_bind with (Q1 := fun r t => t = [ELog INFO L]).
  - apply triple_perform. intros w. reflexivity.
  - intros _ t1 ->. apply triple_ret. intros _. left. reflexivity.
  - intros e t1 -> _. left. reflexivity.
Qed.

(** Steps that return have written their last log line. *)
Lemma login_steps_shown email password :
  triple (login_steps b self email password)
    (fun r t => is_ok r = true -> In (ELog INFO LoginSuccessful) t).
Proof.
  pose proof (quiet_anything (anything (A:=locator))) as HQ.
  unfold login_steps.
  eapply shown_bind with (E := anything); [apply (load_gmail_sat b self HQ) | intros loaded].
  eapply shown_bind; [apply require_any with (P := anything) | intros _].
  eapply shown_bind; [apply (email_entry_sat b self HQ); intros; exact I | intros _].
  eapply shown_bind; [apply (click_next_button_sat b self HQ); intros; exact I | intros _].
  eapply shown_bind; [apply (password_entry_sat b self HQ); intros; exact I | intros _].
  eapply shown_bind; [apply (submit_login_sat b self HQ); intros; exact I | intros _].
  eapply shown_bind; [apply (wait_until_any b self HQ); exact I | intros _].
  apply shown_last.
Qed.

Lemma send_steps_shown recipient subject body :
  triple (send_steps b self recipient subject body)
    (fun r t => is_ok r = true -> In (ELog INFO EmailSentSuccessfully) t).
Proof.
  pose proof (quiet_anything (anything (A:=locator))) as HQ.
  unfold send_steps.
  eapply shown_bind with (P := anything) (V := anything) (E := anything).
  { unfold click_compose_button.
    eapply sat_bind; [apply (wait_until_any b self HQ); exact I | intros compose_btn _].
    eapply sat_bind; [apply (human_delay_sat b HQ) | intros _ _].
    eapply sat_bind; [apply (click_sat b HQ); exact I | intros _ _].
    apply sat_ret. exact I. }
  intros _.
  eapply shown_bind with (P := anything) (V := anything) (E := anything).
  { unfold wait_for_compose_window.
    eapply sat_bind; [apply (wait_until_any b self HQ); exact I | intros compose_dialog _].
    eapply sat_bind; [apply (human_delay_sat b HQ) | intros _ _].
    apply sat_ret. exact I. }
  intros compose_dialog.
  eapply shown_bind with (P := anything) (V := anything) (E := anything).
  { unfold fill_recipient_field. eapply sat_bind;
      [apply (typed_cascade_sat b self HQ); [intros; exact I | apply (human_delay_sat b HQ)] | ].
    intros ? _. apply require_any. }
  intros _.
  eapply shown_bind with (P := anything) (V := anything) (E := anything).
  { unfold fill_subject_field. eapply sat_bind;
      [apply (typed_cascade_sat b self HQ); [intros; exact I | apply (human_delay_sat b HQ)] | ].
    intros ? _. apply require_any. }
  intros _.
  eapply shown_bind; [apply (fill_body_content_sat b self HQ); intros; exact I | intros _].
  eapply shown_bind; [apply (send_email_sat b self HQ); intros; exact I | intros _].
  eapply shown_bind; [apply (wait_until_any b self HQ); exact I | intros _].
  apply shown_last.
Qed.

(** An attempt answers [True] only through its steps. *)
Lemma attempt_shown (L L' : log_msg) (steps : M World bool)
  (handler : exn -> M World (option bool)) :
  triple steps (fun r t => is_ok r = true -> In (ELog INFO L') t) ->
  (forall e, sat anything (fun r => r <> Some true) anything (handler e)) ->
  triple
    (try_except (bind (bind (log INFO L) (fun _ => steps)) (fun r => ret (Some r))) handler)
    (fun r t => r = Ok (Some true) -> In (ELog INFO L') t).
Proof.
  intros Hsteps Hh.
  eapply triple_try with (Q1 := fun r t => is_ok r = true -> In (ELog INFO L') t).
  - eapply triple_bind with (Q1 := fun r t => is_ok r = true -> In (ELog INFO L') t).
    + eapply shown_bind with (P := anything) (V := anything) (E := anything);
        [apply log_sat; exact I | intros _; exact Hsteps].
    + intros r t1 H1. apply triple_ret. intros _. rewrite app_nil_r. apply H1. reflexivity.
    + intros e t1 _ Hr. discriminate Hr.
  - intros a t1 H1 _. apply H1. reflexivity.
  - intros e t1 _. eapply triple_conseq; [apply Hh | ].
    intros r t2 [_ Hr] Heq. subst r. exfalso. apply Hr. reflexivity.
Qed.

Lemma loop_shown A (xs : list A) (body : A -> M World (option bool)) ev :
  (forall x, triple (body x) (fun r t => r = Ok (Some true) -> In ev t)) ->
  triple (for_first xs body) (fun r t => r = Ok (Some true) -> In ev t).
Proof.
  intros Hbody. induction xs as [| x rest IH]; simpl.
  - apply triple_ret. intros H. discriminate H.
  - eapply triple_bind; [apply Hbody | | ].
    + intros [y |] t1 H1.
      * apply triple_ret. intros Hr. rewrite app_nil_r. apply H1. exact Hr.
      * eapply triple_conseq; [exact IH | ].
        intros r t2 H2 Hr. apply in_or_app. right. auto.
    + intros e t1 _ Hr. discriminate Hr.
Qed.

(** Login returns [True] only after "Login successful" was logged. *)
Lemma login_shown email password max_attempts :
  triple (login_to_gmail b self email password max_attempts)
    (fun r t => r = Ok (Some true) -> In (ELog INFO LoginSuccessful) t).
Proof.
  unfold login_to_gmail. apply loop_shown. intros a. unfold login_attempt.
  apply attempt_shown; [apply login_steps_shown | ].
  intros e. eapply sat_conseq;
    [apply (@login_failed_sat World b self anything anything
              (quiet_anything (anything (A:=locator))) a max_attempts e anything);
       [exact I | left; intros; exact I]
    | auto | intros r [Hr _]; exact Hr | auto].
Qed.

(** Send returns [True] only after "Email sent successfully" was logged. *)
Lemma send_shown recipient subject body max_attempts :
  triple (compose_and_send_email b self recipient subject body max_attempts)
    (fun r t => r = Ok (Some true) -> In (ELog INFO EmailSentSuccessfully) t).
Proof.
  unfold compose_and_send_email. apply loop_shown. intros a. unfold send_attempt.
  apply attempt_shown; [apply send_steps_shown | ].
  intros e. eapply sat_conseq;
    [apply (@send_failed_sat World b self anything anything
              (quiet_anything (anything (A:=locator))) a max_attempts e anything);
       [exact I | exact I | left; intros; exact I]
    | auto | intros r [Hr _]; exact Hr | auto].
Qed.

End Success.

Lemma permits_no_send_attempt : permits everywhere (fun ev => is_send_attempt ev = false).
Proof.
  constructor; intros; try reflexivity.
  destruct lvl, m; simpl in *; congruence.
Qed.

Lemma close_sat {World : Type} (b : Browser World) (self : GmailAutomation)
  (P : event -> Prop) :
  P EQuit ->
  (forall lvl m, is_attempt (ELog lvl m) = false -> P (ELog lvl m)) ->
  sat P anything nothing (close b self).
Proof.
  intros Hquit Hlog. unfold close. destruct (driver self) as [d |] eqn:Hd.
  - eapply sat_try with (E1 := anything).
    + eapply sat_bind with (V1 := anything).
      * unfold quit. apply on_driver_sat; [exact Hquit | intros w; destruct (fst _); exact I].
      * intros _ _. apply log_sat. apply Hlog. reflexivity.
    + intros e _. apply log_sat. apply Hlog. reflexivity.
  - apply sat_ret. exact I.
Qed.

(** X12.  What the status area says is backed by the controller: the
    success message is shown only if, during this click, login logged
    "Login successful" and send logged "Email sent successfully" (both
    returned [True]); and when the status is "Failed to login", no send
    attempt was ever started. *)
Theorem status_is_backed_by_the_controller :
  forall (World : Type) (b : Browser World)
         (email password recipient subject body : string) (headless_mode : bool)
         (s : state World),
    exists t,
      trace (snd (send_email_button b email password recipient subject body headless_mode s))
        = (trace s ++ t)%list /\
      match fst (send_email_button b email password recipient subject body headless_mode s)
      with
      | Ok email_sent =>
          In (ELog INFO LoginSuccessful) t /\ In (ELog INFO EmailSentSuccessfully) t
      | Ok failed_to_send => In (ELog INFO LoginSuccessful) t
      | Ok failed_to_login => filter is_send_attempt t = []
      | _ => True
      end.
Proof.
  intros World b email password recipient subject body headless_mode s.
  set (L1 := ELog INFO LoginSuccessful). set (L2 := ELog INFO EmailSentSuccessfully).
  set (Q := fun (r : outcome status) (t : list event) =>
              match r with
              | Ok email_sent => In L1 t /\ In L2 t
              | Ok failed_to_send => In L1 t
              | Ok failed_to_login => filter is_send_attempt t = []
              | _ => True
              end).
  assert (H : triple (send_email_button b email password recipient subject body headless_mode)
                Q).
  { unfold send_email_button.
    destruct (negb (forallb truthy [email; password; recipient; subject; body])).
    { apply triple_ret. exact I. }
    eapply triple_try with (Q1 := Q).
    - eapply triple_bind with (Q1 := fun r t => filter is_send_attempt t = []).
      + eapply triple_conseq;
          [apply (@init_sat World b (fun ev => is_send_attempt ev = false));
             intros; [reflexivity | destruct lvl, m; simpl in *; congruence] | ].
        intros r t [Ht _]. apply filter_none. exact Ht.
      + intros automation t1 H1.
        eapply triple_bind with
          (Q1 := fun r t => (r = Ok (Some true) -> In L1 t) /\
                            filter is_send_attempt t = []).
        * apply triple_both; [apply login_shown | ].
          eapply triple_conseq.
          -- apply (login_permitted b automation permits_no_send_attempt email password
                      default_max_attempts covers_login_everywhere); reflexivity.
          -- intros r t [Ht _]. apply filter_none. exact Ht.
        * intros login_status t2 [Hshown H2].
          destruct login_status as [[|] |]; simpl negb; cbv iota.
          -- (* login returned True *)
             specialize (Hshown eq_refl).
             eapply triple_bind with
               (Q1 := fun r t => r = Ok (Some true) -> In L2 t).
             ++ apply send_shown.
             ++ intros send_status t3 H3.
                eapply triple_bind with (Q1 := fun r t => True).
                ** eapply triple_conseq;
                     [apply (@close_sat World b automation anything); intros; exact I | ].
                   intros; exact I.
                ** intros _ t4 _. apply triple_ret. rewrite app_nil_r.
                   assert (HL1 : In L1 (t1 ++ t2 ++ t3 ++ t4)%list).
                   { apply in_or_app. right. apply in_or_app. left. exact Hshown. }
                   destruct send_status as [[|] |]; simpl; try exact HL1.
                   split; [exact HL1 | ].
                   apply in_or_app. right. apply in_or_app. right.
                   apply in_or_app. left. apply H3. reflexivity.
                ** intros e t4 _. exact I.
             ++ intros e t3 _. exact I.
          -- (* login returned False *)
             eapply triple_bind with (Q1 := fun r t => filter is_send_attempt t = []).
             ++ eapply triple_conseq;
                  [apply (@close_sat World b automation (fun ev => is_send_attempt ev = false));
                     intros; [reflexivity | destruct lvl, m; simpl in *; congruence] | ].
                intros r t [Ht _]. apply filter_none. exact Ht.
             ++ intros _ t3 H3. apply triple_ret. simpl.
                rewrite app_nil_r, !filter_app, H1, H2, H3. reflexivity.
             ++ intros e t3 _. exact I.
          -- (* login returned None *)
             eapply triple_bind with (Q1 := fun r t => filter is_send_attempt t = []).
             ++ eapply triple_conseq;
                  [apply (@close_sat World b automation (fun ev => is_send_attempt ev = false));
                     intros; [reflexivity | destruct lvl, m; simpl in *; congruence] | ].
                intros r t [Ht _]. apply filter_none. exact Ht.
             ++ intros _ t3 H3. apply triple_ret. simpl.
                rewrite app_nil_r, !filter_app, H1, H2, H3. reflexivity.
             ++ intros e t3 _. exact I.
        * intros e t2 _. exact I.
      + intros e t1 _. exact I.
    - intros shown t1 H1. exact H1.
    - intros e t1 _. apply triple_ret. exact I. }
  destruct (H s) as [t [Ht HQ]]. exists t. split; [exact Ht | exact HQ].
Qed.

(* ===================================================================== *)
(** ** The diagnostic screenshot and the result *)
(* ===================================================================== *)

Lemma permits_no_screenshot : permits everywhere (fun ev => is_screenshot ev = false).
Proof. constructor; intros; reflexivity. Qed.

Section Verdict.

Context {World : Type} (shot : event).

Lemma verdict_after (t1 t2 : list event) (r : outcome (option bool)) :
  filter is_screenshot t1 = [] ->
  screenshot_verdict shot r t2 -> screenshot_verdict shot r (t1 ++ t2).
Proof.
  intros H1. unfold screenshot_verdict. destruct r as [[[|] |] | e].
  - intros H2. rewrite filter_app, H1, H2. reflexivity.
  - intros [t' [-> H2]]. exists (t1 ++ t')%list. rewrite app_assoc. split; [reflexivity | ].
    rewrite filter_app, H1, H2. reflexivity.
  - intros H2. rewrite filter_app, H1, H2. reflexivity.
  - intros [H2 | H2]; [left | right]; rewrite filter_app, H1, H2; reflexivity.
Qed.

(** An attempt whose steps take no screenshot and return only [True]. *)
Lemma attempt_verdict (L : log_msg) (steps : M World bool)
  (handler : exn -> M World (option bool)) :
  sat (fun ev => is_screenshot ev = false) (eq true) anything steps ->
  (forall e, triple (handler e) (screenshot_verdict shot)) ->
  triple
    (try_except (bind (bind (log INFO L) (fun _ => steps)) (fun r => ret (Some r))) handler)
    (screenshot_verdict shot).
Proof.
  intros Hsteps Hh.
  eapply triple_try with
    (Q1 := fun r t => Forall (fun ev => is_screenshot ev = false) t /\
                      match r with Ok v => v = Some true | Raised e => anything e end).
  - eapply sat_bind with (V1 := eq true).
    + eapply sat_bind; [apply log_sat; reflexivity | intros _ _; exact Hsteps].
    + intros r <-. apply sat_ret. reflexivity.
  - intros v t1 [H1 ->]. simpl. apply filter_none. exact H1.
  - intros e t1 [H1 _]. eapply triple_conseq; [apply Hh | ].
    intros r t2 H2. apply verdict_after; [apply filter_none; exact H1 | exact H2].
Qed.

Lemma loop_verdict A (xs : list A) (body : A -> M World (option bool)) :
  (forall x, triple (body x) (screenshot_verdict shot)) ->
  triple (for_first xs body) (screenshot_verdict shot).
Proof.
  intros Hbody. induction xs as [| x rest IH]; simpl.
  - apply triple_ret. reflexivity.
  - eapply triple_bind; [apply Hbody | | ].
    + intros [y |] t1 H1.
      * apply triple_ret. rewrite app_nil_r. exact H1.
      * eapply triple_conseq; [exact IH | ].
        intros r t2 H2. apply verdict_after; [exact H1 | exact H2].
    + intros e t1 H1. exact H1.
Qed.

(** The final handler: one log line, then the screenshot, then [False]. *)
Lemma final_handler_verdict (b : Browser World) (self : GmailAutomation)
  (L : log_msg) (filename : string) :
  shot = ESaveScreenshot filename ->
  triple (bind (log ERROR L)
            (fun _ => bind (save_screenshot b self filename) (fun _ => ret (Some false))))
    (screenshot_verdict shot).
Proof.
  intros ->.
  eapply triple_bind with (Q1 := fun r t => r = Ok tt /\ t = [ELog ERROR L]).
  - apply triple_perform. intros w. auto.
  - intros _ t1 [_ ->].
    unfold save_screenshot, on_driver. destruct (driver self) as [[] |].
    + eapply triple_bind with (Q1 := fun r t => t = [ESaveScreenshot filename]).
      * apply triple_perform. intros w. reflexivity.
      * intros _ t2 ->. apply triple_ret.
        exists [ELog ERROR L]. split; reflexivity.
      * intros e t2 ->. right. reflexivity.
    + eapply triple_bind with (Q1 := fun r t => is_ok r = false /\ t = []).
      * apply triple_raise. auto.
      * intros a t2 [Hr _]. discriminate Hr.
      * intros e t2 [_ ->]. left. reflexivity.
  - intros e t1 [Hr _]. discriminate Hr.
Qed.

End Verdict.

Section VerdictRuns.

Context {World : Type} (b : Browser World) (self : GmailAutomation).

Lemma login_failed_verdict attempt max_attempts e :
  triple (login_failed b self attempt max_attempts e)
    (screenshot_verdict (ESaveScreenshot "login_failure.png")).
Proof.
  unfold login_failed. destruct (attempt =? max_attempts).
  - apply final_handler_verdict. reflexivity.
  - eapply triple_conseq with
      (Q := fun r t => Forall (fun ev => is_screenshot ev = false) t /\
                       match r with Ok v => v = None | Raised x => anything x end).
    + eapply sat_bind; [apply log_sat; reflexivity | intros _ _].
      eapply sat_bind with (V1 := anything);
        [apply on_driver_sat; [reflexivity | intros w; destruct (fst _); exact I]
        | intros _ _].
      eapply sat_bind; [apply (pause_permitted b permits_no_screenshot) | intros _ _].
      apply sat_ret. reflexivity.
    + intros r t [Ht Hr]. apply filter_none in Ht.
      destruct r as [v | x]; [subst v; exact Ht | left; exact Ht].
Qed.

Lemma send_failed_verdict attempt max_attempts e :
  triple (send_failed b self attempt max_attempts e)
    (screenshot_verdict (ESaveScreenshot "send_email_failure.png")).
Proof.
  unfold send_failed. destruct (attempt =? max_attempts).
  - apply final_handler_verdict. reflexivity.
  - eapply triple_conseq with
      (Q := fun r t => Forall (fun ev => is_screenshot ev = false) t /\
                       match r with Ok v => v = None | Raised x => anything x end).
    + eapply sat_bind; [apply log_sat; reflexivity | intros _ _].
      eapply sat_bind;
        [apply (close_stuck_window_permitted b self permits_no_screenshot);
           [reflexivity | exact I]
        | intros _ _].
      eapply sat_bind; [apply (pause_permitted b permits_no_screenshot) | intros _ _].
      apply sat_ret. reflexivity.
    + intros r t [Ht Hr]. apply filter_none in Ht.
      destruct r as [v | x]; [subst v; exact Ht | left; exact Ht].
Qed.

End VerdictRuns.

(** X5.  On any browser and for any [max_attempts], the failure screenshot
    tells the result: when login returns [False], exactly one screenshot
    was taken, to [login_failure.png], and it is the last call login made;
    when login returns [True] (or [None]) no screenshot was taken; when
    login raises, at most that one screenshot was asked for.  The same
    holds of send with [send_email_failure.png]. *)
Theorem screenshot_exactly_when_result_is_False :
  forall (World : Type) (b : Browser World) (self : GmailAutomation)
         (email password recipient subject body : string) (max_attempts : Z)
         (s : state World),
    (exists t,
       trace (snd (login_to_gmail b self email password max_attempts s))
         = (trace s ++ t)%list /\
       screenshot_verdict (ESaveScreenshot "login_failure.png")
         (fst (login_to_gmail b self email password max_attempts s)) t) /\
    (exists t,
       trace (snd (compose_and_send_email b self recipient subject body max_attempts s))
         = (trace s ++ t)%list /\
       screenshot_verdict (ESaveScreenshot "send_email_failure.png")
         (fst (compose_and_send_email b self recipient subject body max_attempts s)) t).
Proof.
  intros World b self email password recipient subject body max_attempts s. split.
  - assert (H : triple (login_to_gmail b self email password max_attempts)
                  (screenshot_verdict (ESaveScreenshot "login_failure.png"))).
    { unfold login_to_gmail. apply loop_verdict. intros a. unfold login_attempt.
      apply attempt_verdict.
      - apply (login_steps_permitted b self permits_no_screenshot).
        exact covers_login_everywhere.
      - intros e. apply login_failed_verdict. }
    apply H.
  - assert (H : triple (compose_and_send_email b self recipient subject body max_attempts)
                  (screenshot_verdict (ESaveScreenshot "send_email_failure.png"))).
    { unfold compose_and_send_email. apply loop_verdict. intros a. unfold send_attempt.
      apply attempt_verdict.
      - apply (send_steps_permitted b self permits_no_screenshot).
        exact covers_send_everywhere.
      - intros e. apply send_failed_verdict. }
    apply H.
Qed.

(* ===================================================================== *)
(** ** Runs in which no element is ever found *)
(* ===================================================================== *)

Lemma range_cons lo hi : lo < hi -> range lo hi = lo :: range (lo + 1) hi.
Proof.
  intros H. unfold range.
  replace (Z.to_nat (hi - lo)) with (S (Z.to_nat (hi - (lo + 1)))) by lia.
  simpl. f_equal; [lia | ].
  rewrite <- seq_shift, map_map. apply map_ext. intros i. lia.
Qed.

Section NoneResolves.

Context {World : Type} (b : Browser World) (self : GmailAutomation).
Context (Hd : driver self = Some Chrome) (Hnever : never_resolves b).

Lemma login_not_True email password max_attempts :
  sat anything (fun r => r <> Some true) anything
    (login_to_gmail b self email password max_attempts).
Proof.
  unfold login_to_gmail. apply sat_for_first; [discriminate | ].
  intros a _.
  eapply sat_conseq with (P := anything) (E := anything)
    (V := fun r => (exists x, r = Some x /\ nothing x) \/
                   (r <> Some true /\ (a = max_attempts -> r <> None))).
  - unfold login_attempt. apply attempt_body_sat with (Vs := nothing); [exact I | | ].
    + apply login_steps_never; auto using quiet_anything.
    + intros e.
      apply (@login_failed_sat World b self anything anything
               (quiet_anything (anything (A:=locator))) a max_attempts e anything);
        [exact I | left; intros; exact I].
  - auto.
  - intros [y |] H; [ | exact I].
    destruct H as [[x [_ []]] | [H _]]. exact H.
  - auto.
Qed.

Lemma send_not_True recipient subject body max_attempts :
  sat anything (fun r => r <> Some true) anything
    (compose_and_send_email b self recipient subject body max_attempts).
Proof.
  unfold compose_and_send_email. apply sat_for_first; [discriminate | ].
  intros a _.
  eapply sat_conseq with (P := anything) (E := anything)
    (V := fun r => (exists x, r = Some x /\ nothing x) \/
                   (r <> Some true /\ (a = max_attempts -> r <> None))).
  - unfold send_attempt. apply attempt_body_sat with (Vs := nothing); [exact I | | ].
    + apply send_steps_never; auto using quiet_anything.
    + intros e.
      apply (@send_failed_sat World b self anything anything
               (quiet_anything (anything (A:=locator))) a max_attempts e anything);
        [exact I | exact I | left; intros; exact I].
  - auto.
  - intros [y |] H; [ | exact I].
    destruct H as [[x [_ []]] | [H _]]. exact H.
  - auto.
Qed.

(** When the cookies cannot be deleted, the handler of the first failed
    attempt raises. *)
Lemma login_failed_cookies_raise max_attempts e :
  (forall w, exists x, fst (b_delete_all_cookies b w) = Raised x) ->
  1 <> max_attempts ->
  triple (login_failed b self 1 max_attempts e)
    (fun r t => is_ok r = false /\ filter attempt_or_screenshot t = [] /\
                exists t', t = (t' ++ [EDeleteAllCookies])%list).
Proof.
  intros Hc Hne. unfold login_failed. apply Z.eqb_neq in Hne. rewrite Hne.
  eapply triple_bind with (Q1 := fun r t => r = Ok tt /\ t = [ELog ERROR (LoginAttemptFailed 1 e)]).
  - apply triple_perform. intros w. auto.
  - intros _ t1 [_ ->].
    eapply triple_bind with (Q1 := fun r t => is_ok r = false /\ t = [EDeleteAllCookies]).
    + unfold delete_all_cookies, on_driver. rewrite Hd.
      apply triple_perform. intros w. destruct (Hc w) as [x Hx]. rewrite Hx. auto.
    + intros a t2 [Hr _]. discriminate Hr.
    + intros x t2 [_ ->]. split; [reflexivity | ]. split; [reflexivity | ].
      exists [ELog ERROR (LoginAttemptFailed 1 e)]. reflexivity.
  - intros x t1 [Hr _]. discriminate Hr.
Qed.

End NoneResolves.

(** X4.  For every [max_attempts >= 1]: when no element is ever found and
    the driver calls of the handlers go through, login returns [False]
    after starting exactly the attempts 1, ..., [max_attempts], in that
    order, and taking one screenshot ([login_failure.png]) after the last
    of them; send does the same with [send_email_failure.png]. *)
Theorem every_attempt_is_used_then_False :
  forall (World : Type) (b : Browser World) (self : GmailAutomation)
         (email password recipient subject body : string) (max_attempts : Z)
         (s : state World),
    driver self = Some Chrome ->
    never_resolves b ->
    cleanup_succeeds b ->
    1 <= max_attempts ->
    (fst (login_to_gmail b self email password max_attempts s) = Ok (Some false) /\
     exists t,
       trace (snd (login_to_gmail b self email password max_attempts s))
         = (trace s ++ t)%list /\
       filter attempt_or_screenshot t =
         (map (fun a => ELog INFO (LoginAttempt a max_attempts)) (range 1 (max_attempts + 1))
          ++ [ESaveScreenshot "login_failure.png"])%list) /\
    (fst (compose_and_send_email b self recipient subject body max_attempts s)
       = Ok (Some false) /\
     exists t,
       trace (snd (compose_and_send_email b self recipient subject body max_attempts s))
         = (trace s ++ t)%list /\
       filter attempt_or_screenshot t =
         (map (fun a => ELog INFO (EmailSendingAttempt a max_attempts))
              (range 1 (max_attempts + 1))
          ++ [ESaveScreenshot "send_email_failure.png"])%list).
Proof.
  intros World b self email password recipient subject body max_attempts s
         Hd Hnever Hc Hmax.
  split; split.
  - destruct (@login_answers World b self email password max_attempts Hd Hc Hmax s)
      as [t1 [_ [_ H1]]].
    destruct (@login_not_True World b self Hd Hnever email password max_attempts s)
      as [t2 [_ [_ H2]]].
    destruct (fst (login_to_gmail b self email password max_attempts s))
      as [[[|] |] | e]; [congruence | reflexivity | congruence | destruct H1].
  - apply login_exhausted; auto. apply Hc.
  - destruct (@send_answers World b self recipient subject body max_attempts Hd Hc Hmax s)
      as [t1 [_ [_ H1]]].
    destruct (@send_not_True World b self Hd Hnever recipient subject body max_attempts s)
      as [t2 [_ [_ H2]]].
    destruct (fst (compose_and_send_email b self recipient subject body max_attempts s))
      as [[[|] |] | e]; [congruence | reflexivity | congruence | destruct H1].
  - apply send_exhausted; auto.
Qed.

Lemma every_attempt_is_used_then_False_witness :
  (fst (login_to_gmail (Sim.browser Sim.nothing_resolves) Sim.me "u@x.com" "pw" 5 Sim.start)
     = Ok (Some false) /\
   exists t,
     trace (snd (login_to_gmail (Sim.browser Sim.nothing_resolves) Sim.me
                   "u@x.com" "pw" 5 Sim.start)) = (trace Sim.start ++ t)%list /\
     filter attempt_or_screenshot t =
       (map (fun a => ELog INFO (LoginAttempt a 5)) (range 1 (5 + 1))
        ++ [ESaveScreenshot "login_failure.png"])%list) /\
  (fst (compose_and_send_email (Sim.browser Sim.nothing_resolves) Sim.me
          "r@y.com" "Hi" "Hello" 5 Sim.start) = Ok (Some false) /\
   exists t,
     trace (snd (compose_and_send_email (Sim.browser Sim.nothing_resolves) Sim.me
                   "r@y.com" "Hi" "Hello" 5 Sim.start)) = (trace Sim.start ++ t)%list /\
     filter attempt_or_screenshot t =
       (map (fun a => ELog INFO (EmailSendingAttempt a 5)) (range 1 (5 + 1))
        ++ [ESaveScreenshot "send_email_failure.png"])%list).
Proof.
  apply (@every_attempt_is_used_then_False Sim.page (Sim.browser Sim.nothing_resolves) Sim.me
           "u@x.com" "pw" "r@y.com" "Hi" "Hello" 5 Sim.start).
  - reflexivity.
  - intros sc t c l w. exists TimeoutException. reflexivity.
  - split; [intros f w; exists true; reflexivity | intros w; reflexivity].
  - lia.
Defined.

(** X6.  The handler of a failed login attempt is not guarded: if no
    element is found and [delete_all_cookies] raises, then with
    [max_attempts >= 2] login raises out of the handler of its first
    attempt.  Only attempt 1 was started, no screenshot was taken, and the
    failed cookie deletion is the last call login made. *)
Theorem failed_cookie_deletion_ends_login :
  forall (World : Type) (b : Browser World) (self : GmailAutomation)
         (email password : string) (max_attempts : Z) (s : state World),
    driver self = Some Chrome ->
    never_resolves b ->
    (forall w, exists x, fst (b_delete_all_cookies b w) = Raised x) ->
    2 <= max_attempts ->
    is_ok (fst (login_to_gmail b self email password max_attempts s)) = false /\
    exists t,
      trace (snd (login_to_gmail b self email password max_attempts s))
        = (trace s ++ t ++ [EDeleteAllCookies])%list /\
      filter attempt_or_screenshot t = [ELog INFO (LoginAttempt 1 max_attempts)].
Proof.
  intros World b self email password max_attempts s Hd Hnever Hc Hmax.
  assert (H : triple (login_to_gmail b self email password max_attempts)
                (fun r t => is_ok r = false /\
                            exists t', t = (t' ++ [EDeleteAllCookies])%list /\
                                       filter attempt_or_screenshot t'
                                       = [ELog INFO (LoginAttempt 1 max_attempts)])).
  { unfold login_to_gmail. rewrite range_cons by lia. simpl for_first.
    eapply triple_bind with
      (Q1 := fun r t => is_ok r = false /\
                        exists t', t = (t' ++ [EDeleteAllCookies])%list /\
                                   filter attempt_or_screenshot t'
                                   = [ELog INFO (LoginAttempt 1 max_attempts)]).
    - eapply triple_conseq.
      + unfold login_attempt.
        apply attempt_body_triple with (f := attempt_or_screenshot) (Vs := nothing);
          [reflexivity
          | apply login_steps_never; auto using quiet_no_attempt_or_screenshot
          | ].
        intros e. apply login_failed_cookies_raise; [exact Hd | exact Hc | lia].
      + intros r t [[v [_ [[] _]]] | [t1 [t2 [-> [H1 [Hr [H2 [t' ->]]]]]]]].
        split; [exact Hr | ]. exists (t1 ++ t')%list. rewrite app_assoc.
        split; [reflexivity | ].
        rewrite filter_app in H2. simpl in H2. rewrite app_nil_r in H2.
        rewrite filter_app, H1, H2. reflexivity.
    - intros a t1 [Hr _]. discriminate Hr.
    - intros e t1 H1. exact H1. }
  destruct (H s) as [t [Ht [Hr [t' [-> Hf]]]]].
  split; [exact Hr | ]. exists t'. auto.
Qed.

Lemma failed_cookie_deletion_ends_login_witness :
  is_ok (fst (login_to_gmail (Sim.browser sim_no_cookie_deletion) Sim.me
                "u@x.com" "pw" 3 Sim.start)) = false /\
  exists t,
    trace (snd (login_to_gmail (Sim.browser sim_no_cookie_deletion) Sim.me
                  "u@x.com" "pw" 3 Sim.start))
      = (trace Sim.start ++ t ++ [EDeleteAllCookies])%list /\
    filter attempt_or_screenshot t = [ELog INFO (LoginAttempt 1 3)].
Proof.
  apply (@failed_cookie_deletion_ends_login Sim.page (Sim.browser sim_no_cookie_deletion)
           Sim.me "u@x.com" "pw" 3 Sim.start).
  - reflexivity.
  - intros sc t c l w. exists TimeoutException. reflexivity.
  - intros w. eexists. reflexivity.
  - lia.
Defined.

(* ===================================================================== *)
(** ** The URL loop *)
(* ===================================================================== *)

Lemma permits_nowhere : permits nowhere (fun ev => touches_page ev = false).
Proof. constructor; unfold nowhere, nothing; simpl; intros; try reflexivity; contradiction. Qed.

Section UrlLoop.

Context {World : Type} (b : Browser World) (self : GmailAutomation).
Context (Hd : driver self = Some Chrome).

(** A loop in which every item goes on to the next one. *)
Lemma loop_all_none A B (f : event -> bool) (mk : A -> event) (P : event -> Prop)
  (xs : list A) (body : A -> M World (option B)) :
  (forall x, triple (body x)
     (fun r t => r = Ok None /\ filter f t = [mk x] /\ Forall P t)) ->
  triple (for_first xs body)
    (fun r t => r = Ok None /\ filter f t = map mk xs /\ Forall P t).
Proof.
  intros Hbody. induction xs as [| x rest IH]; simpl.
  - apply triple_ret. auto.
  - eapply triple_bind; [apply Hbody | | ].
    + intros r t1 [Hr [H1 HP1]]. inversion Hr; subst r.
      eapply triple_conseq; [exact IH | ].
      intros r t2 [Hr2 [H2 HP2]]. split; [exact Hr2 | ].
      rewrite filter_app, H1, H2. split; [reflexivity | apply Forall_app; auto].
    + intros e t1 [Hr _]. discriminate Hr.
Qed.

Context (Hlost : forall w, match fst (b_current_url b w) with
                           | Ok u => lands u = false
                           | Raised _ => True
                           end).

(** No entry URL lands: the loop navigates to each of them, in order, and
    ends without [break]. *)
Lemma load_gmail_lost :
  triple (load_gmail b self)
    (fun r t => r = Ok None /\ filter is_navigation t = map EGet urls /\
                Forall (fun ev => touches_page ev = false) t).
Proof.
  unfold load_gmail. apply loop_all_none. intros url.
  set (P := fun ev => is_navigation ev = false /\ touches_page ev = false).
  assert (Hurl : sat P (fun u => lands u = false) anything (current_url b self)).
  { unfold current_url. apply on_driver_sat; [split; reflexivity | exact Hlost]. }
  eapply triple_try with
    (Q1 := fun r t => (filter is_navigation t = [EGet url] /\
                       Forall (fun ev => touches_page ev = false) t) /\
                      match r with Ok v => v = None | Raised _ => True end).
  - eapply triple_bind with (Q1 := fun r t => t = [EGet url]).
    + unfold get, on_driver. rewrite Hd. apply triple_perform. intros w. reflexivity.
    + intros _ t1 ->.
      eapply triple_conseq with
        (Q := fun r t => Forall P t /\
                         match r with Ok v => v = None | Raised x => anything x end).
      * eapply sat_bind with (V1 := anything).
        { unfold wait_for_page_load. apply on_driver_sat; [split; reflexivity | ].
          intros w. destruct (fst _); exact I. }
        intros _ _. eapply sat_bind with (V1 := anything).
        { apply sat_perform; [split; reflexivity | intros w; exact I]. }
        intros _ _. eapply sat_bind; [exact Hurl | ].
        intros u Hu. unfold lands in Hu. apply orb_false_elim in Hu.
        destruct Hu as [Hu _]. rewrite Hu.
        eapply sat_bind; [exact Hurl | ].
        intros u' Hu'. unfold lands in Hu'. apply orb_false_elim in Hu'.
        destruct Hu' as [_ Hu']. rewrite Hu'. apply sat_ret. reflexivity.
      * intros r t2 [Ht2 Hr]. split; [split | ].
        -- simpl. f_equal. apply filter_none.
           eapply Forall_impl; [ | exact Ht2]. intros ev [H _]. exact H.
        -- constructor; [reflexivity | ].
           eapply Forall_impl; [ | exact Ht2]. intros ev [_ H]. exact H.
        -- destruct r; [exact Hr | exact I].
    + intros e t1 ->. split; [split; [reflexivity | repeat constructor] | exact I].
  - intros v t1 [[H1 H2] ->]. auto.
  - intros e t1 [[H1 H2] _]. apply triple_ret. rewrite app_nil_r. auto.
Qed.

(** The [try] block of an attempt then raises before it looks for any
    element. *)
Lemma login_attempt_lost email password attempt max_attempts :
  triple (login_attempt b self email password attempt max_attempts)
    (fun r t => r = Raised (RuntimeError "Could not load Gmail login page") /\
                filter is_navigation t = map EGet urls /\
                Forall (fun ev => touches_page ev = false) t).
Proof.
  unfold login_attempt, login_steps.
  eapply triple_bind with
    (Q1 := fun r t => r = Ok tt /\ t = [ELog INFO (LoginAttempt attempt max_attempts)]).
  - apply triple_perform. intros w. auto.
  - intros _ t0 [_ ->].
    eapply triple_bind; [apply load_gmail_lost | | ].
    + intros loaded t1 [Hr [H1 HP1]]. inversion Hr; subst loaded. simpl require.
      eapply triple_bind with
        (Q1 := fun r t => r = Raised (RuntimeError "Could not load Gmail login page") /\
                          t = []).
      * apply triple_raise. auto.
      * intros a t2 [Hr2 _]. discriminate Hr2.
      * intros e t2 [Hr2 ->]. inversion Hr2; subst e. split; [reflexivity | ].
        rewrite app_nil_r. simpl. split; [exact H1 | ].
        constructor; [reflexivity | exact HP1].
    + intros e t1 [Hr _]. discriminate Hr.
  - intros e t0 [Hr _]. discriminate Hr.
Qed.

Lemma login_lost email password max_attempts :
  sat (fun ev => touches_page ev = false) (fun r => r <> Some true) anything
    (login_to_gmail b self email password max_attempts).
Proof.
  unfold login_to_gmail. apply sat_for_first; [discriminate | ].
  intros a _. eapply sat_try with (E1 := anything).
  - eapply sat_bind with (V1 := nothing); [ | intros r []].
    eapply triple_conseq; [apply login_attempt_lost | ].
    intros r t [-> [_ Ht]]. split; [exact Ht | exact I].
  - intros e _. eapply sat_conseq;
      [apply (login_failed_permitted b self permits_nowhere); reflexivity
      | auto | intros [y |] Hy; [exact Hy | exact I] | auto].
Qed.

End UrlLoop.

(** X7.  If the browser never ends up on a page whose URL contains
    "google.com/accounts" or "mail.google.com" (the read of the URL may
    also raise), the [try] block of every login attempt navigates to the
    three entry URLs, in their order, and raises [RuntimeError] "Could not
    load Gmail login page" without looking for, typing into or clicking
    any element; login as a whole never reaches the page and does not
    return [True]. *)
Theorem no_landing_no_typing :
  forall (World : Type) (b : Browser World) (self : GmailAutomation)
         (email password : string) (attempt max_attempts : Z) (s : state World),
    driver self = Some Chrome ->
    (forall w, match fst (b_current_url b w) with
               | Ok u => lands u = false
               | Raised _ => True
               end) ->
    (exists t,
       fst (login_attempt b self email password attempt max_attempts s)
         = Raised (RuntimeError "Could not load Gmail login page") /\
       trace (snd (login_attempt b self email password attempt max_attempts s))
         = (trace s ++ t)%list /\
       filter is_navigation t = map EGet urls /\
       filter touches_page t = []) /\
    (exists t,
       fst (login_to_gmail b self email password max_attempts s) <> Ok (Some true) /\
       trace (snd (login_to_gmail b self email password max_attempts s))
         = (trace s ++ t)%list /\
       filter touches_page t = []).
Proof.
  intros World b self email password attempt max_attempts s Hd Hlost. split.
  - destruct (@login_attempt_lost World b self Hd Hlost email password attempt max_attempts s)
      as [t [Ht [Hr [Hnav Hpage]]]].
    exists t. repeat split; auto. apply filter_none. exact Hpage.
  - destruct (@login_lost World b self Hd Hlost email password max_attempts s)
      as [t [Ht [Hpage Hr]]].
    exists t. split; [ | split; [exact Ht | apply filter_none; exact Hpage]].
    destruct (fst (login_to_gmail b self email password max_attempts s)) as [v | e];
      [ | discriminate].
    intros Heq. inversion Heq; subst v. apply Hr. reflexivity.
Qed.

Lemma no_landing_no_typing_witness :
  (exists t,
     fst (login_attempt (Sim.browser sim_elsewhere) Sim.me "u@x.com" "pw" 1 3 Sim.start)
       = Raised (RuntimeError "Could not load Gmail login page") /\
     trace (snd (login_attempt (Sim.browser sim_elsewhere) Sim.me "u@x.com" "pw" 1 3
                   Sim.start)) = (trace Sim.start ++ t)%list /\
     filter is_navigation t = map EGet urls /\
     filter touches_page t = []) /\
  (exists t,
     fst (login_to_gmail (Sim.browser sim_elsewhere) Sim.me "u@x.com" "pw" 3 Sim.start)
       <> Ok (Some true) /\
     trace (snd (login_to_gmail (Sim.browser sim_elsewhere) Sim.me "u@x.com" "pw" 3
                   Sim.start)) = (trace Sim.start ++ t)%list /\
     filter touches_page t = []).
Proof.
  apply (@no_landing_no_typing Sim.page (Sim.browser sim_elsewhere) Sim.me
           "u@x.com" "pw" 1 3 Sim.start).
  - reflexivity.
  - intros w. vm_compute. reflexivity.
Defined.

(* ===================================================================== *)
(** ** Typing into a field that keeps what is typed *)
(* ===================================================================== *)

Lemma append_snoc (a r : string) (c : ascii) :
  ((a ++ String c EmptyString) ++ r)%string = (a ++ String c r)%string.
Proof.
  induction a as [| x a IH]; simpl; [reflexivity | rewrite IH; reflexivity].
Qed.

Section Faithful.

Context {World : Type} (b : Browser World) (e : WebElement).
Context (field_name : string) (content : World -> string) (ready : World -> Prop).
Context (Hf : faithful_field b e field_name content ready).

Lemma clear_field_faithful s :
  exists w,
    clear_field b e s = (Ok tt, {| world := w; trace := trace s ++ clearing_events e |}) /\
    content w = EmptyString /\ ready w.
Proof.
  unfold clear_field, bind, send_keys, human_delay, perform, clearing_events.
  pose proof (ff_select Hf (world s)) as Hsel.
  pose proof (ff_delete Hf (world s)) as [Hdel [Hempty Hready]].
  destruct (b_send_keys b e [CONTROL; Char "a"] (world s)) as [r1 w1].
  simpl in *. subst r1.
  destruct (b_send_keys b e [DELETE] w1) as [r2 w2].
  simpl in *. subst r2. simpl.
  destruct (ff_sleep Hf 200 500 w2) as [Hkeep Hstill].
  exists (b_sleep b 200 500 w2). rewrite <- !app_assoc. simpl.
  split; [reflexivity | ]. split; [rewrite Hkeep; exact Hempty | auto].
Qed.

Lemma type_chars_faithful txt : forall s,
  ready (world s) ->
  exists w,
    type_chars b e txt s = (Ok tt, {| world := w; trace := trace s ++ typing_events e txt |}) /\
    content w = (content (world s) ++ txt)%string /\ ready w.
Proof.
  induction txt as [| c rest IH]; intros s Hready.
  - exists (world s). simpl. unfold ret, typing_events. simpl.
    rewrite app_nil_r. destruct s as [w t]. simpl.
    split; [reflexivity | ]. split; [ | exact Hready].
    clear. induction (content w) as [| x a IHa]; simpl; [reflexivity | rewrite <- IHa; reflexivity].
  - simpl type_chars. unfold bind at 1. unfold send_keys at 1. unfold perform at 1.
    destruct (ff_char Hf c (world s) Hready) as [Hok [Hcontent Hready1]].
    destruct (b_send_keys b e [Char c] (world s)) as [r1 w1]. simpl in *. subst r1.
    unfold bind at 1. unfold human_delay at 1. unfold perform at 1. simpl.
    destruct (ff_sleep Hf 100 300 w1) as [Hkeep Hstill].
    destruct (IH {| world := b_sleep b 100 300 w1;
                    trace := (trace s ++ [ESendKeys e [Char c]]) ++ [ESleep 100 300] |}
                 (Hstill Hready1)) as [w [Hrun [Hc Hr]]].
    exists w. rewrite Hrun. simpl. split; [ | split; [ | exact Hr]].
    + unfold typing_events. simpl. rewrite <- !app_assoc. reflexivity.
    + rewrite Hc. simpl. rewrite Hkeep, Hcontent. apply append_snoc.
Qed.

Lemma readback_faithful s :
  (if String.eqb field_name "body"
   then bind (text b e) (fun t => ret (Some t))
   else get_attribute b e "value") s
  = (Ok (Some (content (world s))),
     {| world := world s; trace := trace s ++ [readback_event e field_name] |}).
Proof.
  pose proof (ff_read Hf (world s)) as H. revert H.
  unfold read_back, readback_event.
  destruct (String.eqb field_name "body").
  - unfold bind, text, perform.
    destruct (b_text b e (world s)) as [[t | x] w']; intros H; inversion H; subst.
    reflexivity.
  - unfold get_attribute, perform. intros ->. reflexivity.
Qed.

Lemma human_type_faithful T s :
  exists w,
    human_type b e T field_name s
    = (Ok true,
       {| world := w;
          trace := trace s ++ clearing_events e ++ typing_events e T
                   ++ [readback_event e field_name] |}) /\
    content w = T.
Proof.
  destruct (clear_field_faithful s) as [w1 [Hclear [Hempty Hready]]].
  destruct (type_chars_faithful T {| world := w1; trace := trace s ++ clearing_events e |}
              Hready) as [w2 [Htype [Hcontent _]]].
  simpl in Hcontent. rewrite Hempty in Hcontent. simpl in Hcontent.
  exists w2. split; [ | exact Hcontent].
  unfold human_type, try_except.
  unfold bind at 1. rewrite Hclear.
  unfold bind at 1. rewrite Htype.
  unfold bind at 1. rewrite readback_faithful. simpl world. simpl trace.
  rewrite Hcontent.
  unfold bind at 1. simpl strip_method. unfold ret at 1.
  unfold bind at 1. rewrite String.eqb_refl. simpl negb. cbv iota.
  unfold ret. rewrite <- !app_assoc. reflexivity.
Qed.

End Faithful.

(** X8.  For a text [T] of code points below U+0100 and a field that keeps
    what is typed (Ctrl+A and Delete empty it, each character typed is
    appended, pausing changes nothing, and the one read that [human_type]
    makes of a field of that name, its text for the body and its [value]
    otherwise, returns the content), [human_type] enters [T] exactly: it
    returns [True], the field holds [T], and the calls made are the three of
    [clear_field], then one keystroke and one pause per character of [T], in
    order, then that single read of the field; there is no warning and no
    retype. *)
Theorem human_type_enters_text_without_retype :
  forall (World : Type) (b : Browser World) (e : WebElement)
         (content : World -> string) (ready : World -> Prop)
         (T field_name : string) (s : state World),
    faithful_field b e field_name content ready ->
    fst (human_type b e T field_name s) = Ok true /\
    content (world (snd (human_type b e T field_name s))) = T /\
    trace (snd (human_type b e T field_name s))
      = (trace s ++ clearing_events e ++ typing_events e T
           ++ [readback_event e field_name])%list.
Proof.
  intros World b e content ready T field_name s Hf.
  destruct (human_type_faithful Hf T s) as [w [Hrun Hcontent]].
  rewrite Hrun. simpl. auto.
Qed.

(** The simulated input keeps what is typed; it is read through its
    [value], its text being empty. *)
Lemma Sim_faithful_field :
  faithful_field sim_input (Sim.field "#identifierId") "email"
    (fun p => Sim.value_of 13 (Sim.values p))
    (fun p => Sim.is_selected 13 p = false).
Proof.
  unfold Sim.field. change (Sim.node_of (CSS_SELECTOR, "#identifierId")) with 13%nat.
  constructor; try (intros; reflexivity).
  - intros lo hi w. split; [reflexivity | auto].
  - intros w. split; [reflexivity | ]. simpl. split; [ | reflexivity].
    apply Sim_value_of_set_value.
  - intros c w Hw. split; [reflexivity | ]. simpl. rewrite Hw. simpl.
    split; [ | reflexivity]. apply Sim_value_of_set_value.
Qed.

Lemma human_type_enters_text_without_retype_witness :
  fst (human_type sim_input (Sim.field "#identifierId") "u@x.com" "email"
         Sim.start) = Ok true /\
  Sim.value_of 13
    (Sim.values (world (snd (human_type sim_input (Sim.field "#identifierId")
                               "u@x.com" "email" Sim.start)))) = "u@x.com" /\
  trace (snd (human_type sim_input (Sim.field "#identifierId")
                "u@x.com" "email" Sim.start))
    = (trace Sim.start ++ clearing_events (Sim.field "#identifierId")
         ++ typing_events (Sim.field "#identifierId") "u@x.com"
         ++ [readback_event (Sim.field "#identifierId") "email"])%list.
Proof.
  apply (@human_type_enters_text_without_retype Sim.page sim_input
           (Sim.field "#identifierId") (fun p => Sim.value_of 13 (Sim.values p))
           (fun p => Sim.is_selected 13 p = false) "u@x.com" "email" Sim.start).
  exact Sim_faithful_field.
Defined.

(* ===================================================================== *)
(** ** The button cascades *)
(* ===================================================================== *)

(** X10.  In a button cascade of the login ("next", "submit"), let the
    candidates before [(ty, loc)] never become clickable, let [(ty, loc)]
    become clickable and let the click on it go through.  Then the cascade
    clicks exactly that button, once, whatever its position in the list:
    the calls made are one probe per candidate before it, in list order,
    the probe that finds it, the click and the pause; no candidate after
    it is tried. *)
Theorem first_clickable_button_is_clicked :
  forall (World : Type) (b : Browser World) (self : GmailAutomation)
         (before rest : list (string * string)) (ty loc : string) (n : nat)
         (lo hi : N) (s : state World),
    driver self = Some Chrome ->
    (forall p, In p before -> forall w, exists x,
        fst (b_wait b InDriver 10 element_to_be_clickable (by_of (fst p), snd p) w)
        = Raised x) ->
    (forall w, fst (b_wait b InDriver 10 element_to_be_clickable (by_of ty, loc) w) = Ok n) ->
    (forall w, fst (b_click b (mkElement (by_of ty, loc) n) w) = Ok tt) ->
    fst (click_cascade b self (before ++ (ty, loc) :: rest) lo hi s)
      = Ok (Some (mkElement (by_of ty, loc) n)) /\
    trace (snd (click_cascade b self (before ++ (ty, loc) :: rest) lo hi s))
      = (trace s ++ button_probes before
           ++ [EWait InDriver 10 element_to_be_clickable (by_of ty, loc);
               EClick (mkElement (by_of ty, loc) n);
               ESleep lo hi])%list.
Proof.
  intros World b self before rest ty loc n lo hi s Hd Hbefore Hres Hclick.
  destruct (@skip_failures World b self Hd (string * string) WebElement InDriver 10%nat
              element_to_be_clickable (fun p => (by_of (fst p), snd p))
              (fun p btn =>
                 bind (click b btn)
                   (fun _ => bind (human_delay b lo hi) (fun _ => ret (Some btn))))
              (fun '(locator_type, loc0) =>
                 try_except
                   (bind (wait_until b self InDriver 10 element_to_be_clickable
                            (by_of locator_type, loc0))
                      (fun btn =>
                         bind (click b btn)
                           (fun _ => bind (human_delay b lo hi)
                                       (fun _ => ret (Some btn)))))
                   (fun _ => ret None))
              before ((ty, loc) :: rest)
              (fun p s0 => match p with (a, c) => eq_refl end) Hbefore s)
    as [s' [Hrun Htrace]].
  unfold click_cascade. rewrite Hrun.
  assert (Hhit : exists w,
            for_first ((ty, loc) :: rest)
              (fun '(locator_type, loc0) =>
                 try_except
                   (bind (wait_until b self InDriver 10 element_to_be_clickable
                            (by_of locator_type, loc0))
                      (fun btn =>
                         bind (click b btn)
                           (fun _ => bind (human_delay b lo hi)
                                       (fun _ => ret (Some btn)))))
                   (fun _ => ret None)) s'
            = (Ok (Some (mkElement (by_of ty, loc) n)),
               {| world := w;
                  trace := trace s'
                           ++ [EWait InDriver 10 element_to_be_clickable (by_of ty, loc);
                               EClick (mkElement (by_of ty, loc) n);
                               ESleep lo hi] |})).
  { simpl for_first.
    unfold bind at 1, try_except, bind at 1, on_driver. rewrite Hd.
    unfold perform at 1.
    destruct (b_wait b InDriver 10 element_to_be_clickable (by_of ty, loc) (world s'))
      as [r w1] eqn:Hw.
    assert (Hr : r = Ok n) by (rewrite <- (Hres (world s')), Hw; reflexivity).
    subst r. simpl found.
    unfold bind at 1. unfold click at 1. unfold perform at 1. simpl.
    pose proof (Hclick w1) as Hc.
    destruct (b_click b (mkElement (by_of ty, loc) n) w1) as [r2 w2]. simpl in Hc. subst r2.
    unfold bind, human_delay, perform, ret. simpl.
    exists (b_sleep b lo hi w2). rewrite <- !app_assoc. reflexivity. }
  destruct Hhit as [w Hhit]. rewrite Hhit. simpl.
  split; [reflexivity | ].
  rewrite Htrace. unfold button_probes. rewrite <- !app_assoc. reflexivity.
Qed.

Lemma first_clickable_button_is_clicked_witness :
  fst (click_cascade
         (Sim.browser (Sim.only ("button[data-primary-action=" ++ q "true" ++ "]") false))
         Sim.me
         (firstn 1 next_buttons
          ++ ("css", ("button[data-primary-action=" ++ q "true" ++ "]")%string)
             :: skipn 2 next_buttons)%list
         2000 4000 Sim.start)
    = Ok (Some (mkElement
                  (by_of "css", ("button[data-primary-action=" ++ q "true" ++ "]")%string) 34)) /\
  trace (snd (click_cascade
                (Sim.browser
                   (Sim.only ("button[data-primary-action=" ++ q "true" ++ "]") false))
                Sim.me
                (firstn 1 next_buttons
                 ++ ("css", ("button[data-primary-action=" ++ q "true" ++ "]")%string)
                    :: skipn 2 next_buttons)%list
                2000 4000 Sim.start))
    = (trace Sim.start ++ button_probes (firstn 1 next_buttons)
         ++ [EWait InDriver 10 element_to_be_clickable
               (by_of "css", ("button[data-primary-action=" ++ q "true" ++ "]")%string);
             EClick (mkElement
                       (by_of "css", ("button[data-primary-action=" ++ q "true" ++ "]")%string) 34);
             ESleep 2000 4000])%list.
Proof.
  apply (@first_clickable_button_is_clicked Sim.page
           (Sim.browser (Sim.only ("button[data-primary-action=" ++ q "true" ++ "]") false))
           Sim.me (firstn 1 next_buttons) (skipn 2 next_buttons)
           "css" ("button[data-primary-action=" ++ q "true" ++ "]") 34%nat
           2000%N 4000%N Sim.start).
  - reflexivity.
  - intros p Hp w. exists TimeoutException.
    simpl in Hp. destruct Hp as [<- | []]. reflexivity.
  - intros w. reflexivity.
  - intros w. reflexivity.
Defined.

(* ===================================================================== *)
(** ** The numbering of the attempts *)
(* ===================================================================== *)

Section Numbering.

Context {World : Type}.

(** The attempts a loop starts are the first [k] items of its list, where
    [k] is the whole list if the loop ran to its end. *)
Lemma attempts_prefix (f : event -> bool) (mk : Z -> event)
  (body : Z -> M World (option bool)) (l : list Z) :
  (forall a, triple (body a) (fun r t => filter f t = [mk a])) ->
  triple (for_first l body)
    (fun r t => exists k, (k <= length l)%nat /\ filter f t = map mk (firstn k l) /\
                          (r = Ok None -> k = length l)).
Proof.
  intros Hbody. induction l as [| a rest IH]; simpl.
  - apply triple_ret. exists 0%nat. auto.
  - eapply triple_bind; [apply Hbody | | ].
    + intros [y |] t1 H1.
      * apply triple_ret. exists 1%nat. rewrite app_nil_r, H1. simpl.
        split; [lia | ]. split; [reflexivity | discriminate].
      * eapply triple_conseq; [exact IH | ].
        intros r t2 [k [Hk [H2 Hend]]]. exists (S k).
        rewrite filter_app, H1, H2. simpl.
        split; [lia | ]. split; [reflexivity | ]. intros Hr. rewrite (Hend Hr). reflexivity.
    + intros e t1 H1. exists 1%nat. rewrite H1. simpl.
      split; [lia | ]. split; [reflexivity | discriminate].
Qed.

End Numbering.

(** X14.  On any browser, the attempts login starts are numbered 1, 2, ...,
    [k], in this order, for some [k] not above [max_attempts]: no number is
    skipped or used twice, and each first log line carries the same
    [max_attempts].  If login returns [None], every attempt of the range
    was started.  The same holds of send. *)
Theorem attempts_are_numbered_from_one :
  forall (World : Type) (b : Browser World) (self : GmailAutomation)
         (email password recipient subject body : string) (max_attempts : Z)
         (s : state World),
    (exists k t,
       (k <= Z.to_nat max_attempts)%nat /\
       trace (snd (login_to_gmail b self email password max_attempts s))
         = (trace s ++ t)%list /\
       filter is_attempt t
         = map (fun a => ELog INFO (LoginAttempt a max_attempts))
               (firstn k (range 1 (max_attempts + 1))) /\
       (fst (login_to_gmail b self email password max_attempts s) = Ok None ->
        k = Z.to_nat max_attempts)) /\
    (exists k t,
       (k <= Z.to_nat max_attempts)%nat /\
       trace (snd (compose_and_send_email b self recipient subject body max_attempts s))
         = (trace s ++ t)%list /\
       filter is_attempt t
         = map (fun a => ELog INFO (EmailSendingAttempt a max_attempts))
               (firstn k (range 1 (max_attempts + 1))) /\
       (fst (compose_and_send_email b self recipient subject body max_attempts s) = Ok None ->
        k = Z.to_nat max_attempts)).
Proof.
  intros World b self email password recipient subject body max_attempts s.
  assert (Hlen : length (range 1 (max_attempts + 1)) = Z.to_nat max_attempts).
  { rewrite length_range. f_equal. lia. }
  split.
  - assert (H : triple (login_to_gmail b self email password max_attempts)
                  (fun r t => exists k,
                     (k <= length (range 1 (max_attempts + 1)))%nat /\
                     filter is_attempt t
                     = map (fun a => ELog INFO (LoginAttempt a max_attempts))
                           (firstn k (range 1 (max_attempts + 1))) /\
                     (r = Ok None -> k = length (range 1 (max_attempts + 1))))).
    { unfold login_to_gmail. apply attempts_prefix. intros a.
      eapply triple_conseq.
      - unfold login_attempt.
        apply attempt_body_triple with
          (f := is_attempt) (Vs := anything)
          (Qh := fun r t => Forall (fun ev => is_attempt ev = false) t /\
                            match r with Ok v => anything v | Raised e => anything e end);
          [reflexivity | apply login_steps_sat; exact quiet_no_attempt | ].
        intros e. eapply sat_conseq;
          [eapply login_failed_sat with (E := anything);
             [exact quiet_no_attempt | reflexivity | left; intros; exact I]
          | auto | intros; exact I | auto].
      - intros r t [[v [_ [_ Hf]]] | [t1 [t2 [-> [H1 [H2 _]]]]]].
        + exact Hf.
        + rewrite filter_app, H1, (filter_none _ H2). reflexivity. }
    destruct (H s) as [t [Ht [k [Hk [Hf Hend]]]]]. rewrite Hlen in *.
    exists k, t. auto.
  - assert (H : triple (compose_and_send_email b self recipient subject body max_attempts)
                  (fun r t => exists k,
                     (k <= length (range 1 (max_attempts + 1)))%nat /\
                     filter is_attempt t
                     = map (fun a => ELog INFO (EmailSendingAttempt a max_attempts))
                           (firstn k (range 1 (max_attempts + 1))) /\
                     (r = Ok None -> k = length (range 1 (max_attempts + 1))))).
    { unfold compose_and_send_email. apply attempts_prefix. intros a.
      eapply triple_conseq.
      - unfold send_attempt.
        apply attempt_body_triple with
          (f := is_attempt) (Vs := anything)
          (Qh := fun r t => Forall (fun ev => is_attempt ev = false) t /\
                            match r with Ok v => anything v | Raised e => anything e end);
          [reflexivity | apply send_steps_sat; exact quiet_no_attempt | ].
        intros e. eapply sat_conseq;
          [eapply send_failed_sat with (E := anything);
             [exact quiet_no_attempt | reflexivity | exact I | left; intros; exact I]
          | auto | intros; exact I | auto].
      - intros r t [[v [_ [_ Hf]]] | [t1 [t2 [-> [H1 [H2 _]]]]]].
        + exact Hf.
        + rewrite filter_app, H1, (filter_none _ H2). reflexivity. }
    destruct (H s) as [t [Ht [k [Hk [Hf Hend]]]]]. rewrite Hlen in *.
    exists k, t. auto.
Qed.

(* ===================================================================== *)
(** ** The handler between two send attempts *)
(* ===================================================================== *)

(** X17.  Between two send attempts nothing can go wrong: on any browser,
    and even on a controller without a driver, the handler of a send
    attempt that is not the last one returns to the loop ([None]) without
    raising, whether or not the Close button of a stuck compose window is
    found and clicked; it takes no screenshot, and its last call is the
    pause of 5 to 10 seconds before the next attempt. *)
Theorem send_retry_handler_never_raises :
  forall (World : Type) (b : Browser World) (self : GmailAutomation)
         (attempt max_attempts : Z) (e : exn) (s : state World),
    attempt <> max_attempts ->
    fst (send_failed b self attempt max_attempts e s) = Ok None /\
    exists t,
      trace (snd (send_failed b self attempt max_attempts e s))
        = (trace s ++ ELog ERROR (EmailSendingAttemptFailed attempt e) :: t
             ++ [ESleep 5000 10000])%list /\
      filter is_screenshot t = [].
Proof.
  intros World b self attempt max_attempts e s Hne.
  assert (H : triple (send_failed b self attempt max_attempts e)
                (fun r t => r = Ok None /\
                            exists t', t = (ELog ERROR (EmailSendingAttemptFailed attempt e)
                                            :: t' ++ [ESleep 5000 10000])%list /\
                                       filter is_screenshot t' = [])).
  { unfold send_failed. apply Z.eqb_neq in Hne. rewrite Hne.
    eapply triple_bind with
      (Q1 := fun r t => r = Ok tt /\ t = [ELog ERROR (EmailSendingAttemptFailed attempt e)]).
    - apply triple_perform. intros w. auto.
    - intros _ t1 [_ ->].
      eapply triple_bind with
        (Q1 := fun r t => is_ok r = true /\ filter is_screenshot t = []).
      + eapply triple_conseq.
        * apply (@close_stuck_window_permitted World b self everywhere
                   (fun ev => is_screenshot ev = false) permits_no_screenshot nothing);
            [reflexivity | exact I].
        * intros r t [Ht Hr]. split; [ | apply filter_none; exact Ht].
          destruct r as [v | x]; [reflexivity | destruct Hr].
      + intros _ t2 [_ H2].
        eapply triple_bind with (Q1 := fun r t => r = Ok tt /\ t = [ESleep 5000 10000]).
        * apply triple_perform. intros w. auto.
        * intros _ t3 [_ ->]. apply triple_ret. split; [reflexivity | ].
          exists t2. rewrite app_nil_r. split; [reflexivity | exact H2].
        * intros x t3 [Hr _]. discriminate Hr.
      + intros x t2 [Hr _]. discriminate Hr.
    - intros x t1 [Hr _]. discriminate Hr. }
  destruct (H s) as [t [Ht [Hr [t' [-> Hf]]]]].
  split; [exact Hr | ]. exists t'. auto.
Qed.

Lemma send_retry_handler_never_raises_witness :
  fst (send_failed (Sim.browser Sim.dead_session) {| driver := None; headless := false |}
         1 3 TimeoutException Sim.start) = Ok None /\
  exists t,
    trace (snd (send_failed (Sim.browser Sim.dead_session)
                  {| driver := None; headless := false |} 1 3 TimeoutException Sim.start))
      = (trace Sim.start ++ ELog ERROR (EmailSendingAttemptFailed 1 TimeoutException) :: t
           ++ [ESleep 5000 10000])%list /\
    filter is_screenshot t = [].
Proof.
  apply (@send_retry_handler_never_raises Sim.page (Sim.browser Sim.dead_session)
           {| driver := None; headless := false |} 1 3 TimeoutException Sim.start).
  lia.
Defined.

(* ===================================================================== *)
(** ** The element [human_type] works on *)
(* ===================================================================== *)

Section OneElement.

Context {World : Type} (b : Browser World) (e : WebElement).

Lemma send_keys_typing_event ks : sat (typing_event e) anything anything (send_keys b e ks).
Proof.
  apply sat_perform; [reflexivity | ].
  intros w. destruct (fst _); exact I.
Qed.

Lemma pause_typing_event lo hi (E : exn -> Prop) :
  sat (typing_event e) anything E (human_delay b lo hi).
Proof. apply sat_perform; [exact I | intros w; exact I]. Qed.

Lemma clear_field_typing_event : sat (typing_event e) anything anything (clear_field b e).
Proof.
  unfold clear_field.
  eapply sat_bind; [apply send_keys_typing_event | intros _ _].
  eapply sat_bind; [apply send_keys_typing_event | intros _ _].
  apply pause_typing_event.
Qed.

Lemma type_chars_typing_event txt :
  sat (typing_event e) anything anything (type_chars b e txt).
Proof.
  induction txt as [| c rest IH]; simpl.
  - apply sat_ret. exact I.
  - eapply sat_bind; [apply send_keys_typing_event | intros _ _].
    eapply sat_bind; [apply pause_typing_event | intros _ _].
    exact IH.
Qed.

(** What [human_type] does after [clear_field], inside its [try]. *)
Lemma typing_tail_typing_event txt field_name :
  sat (typing_event e) anything anything
    (bind (type_chars b e txt)
       (fun _ =>
          bind (if String.eqb field_name "body"
                then bind (text b e) (fun t => ret (Some t))
                else get_attribute b e "value")
            (fun entered_text =>
               bind (strip_method entered_text)
                 (fun entered =>
                    bind (if negb (String.eqb entered (strip txt))
                          then bind (log WARNING (TextMismatch field_name))
                                 (fun _ => bind (clear_field b e)
                                             (fun _ => send_keys b e (keys_of txt)))
                          else ret tt)
                      (fun _ => ret true))))).
Proof.
  eapply sat_bind; [apply type_chars_typing_event | intros _ _].
  eapply sat_bind with (V1 := anything).
  { destruct (String.eqb field_name "body").
    - eapply sat_bind with (V1 := anything).
      + apply sat_perform; [reflexivity | ].
        intros w. destruct (fst _); exact I.
      + intros t _. apply sat_ret. exact I.
    - apply sat_perform; [reflexivity | ].
      intros w. destruct (fst _); exact I. }
  intros entered_text _.
  eapply sat_bind with (V1 := anything).
  - destruct entered_text; [apply sat_ret | apply sat_raise]; exact I.
  - intros entered _.
    eapply sat_bind with (V1 := anything); [ | intros; apply sat_ret; exact I].
    destruct (negb (String.eqb entered (strip txt))).
    + eapply sat_bind; [apply log_sat; exact I | intros _ _].
      eapply sat_bind; [apply clear_field_typing_event | intros _ _].
      apply send_keys_typing_event.
    + apply sat_ret. exact I.
Qed.

Lemma human_type_typing_event txt field_name :
  sat (typing_event e) anything nothing (human_type b e txt field_name).
Proof.
  unfold human_type. eapply sat_try with (E1 := anything).
  - eapply sat_bind; [apply clear_field_typing_event | intros _ _].
    apply typing_tail_typing_event.
  - intros ex _.
    eapply sat_bind; [apply log_sat; exact I | intros _ _].
    apply sat_ret. exact I.
Qed.

(** Whatever happens next, [human_type] begins by sending Ctrl+A to its
    element. *)
Lemma human_type_first_key txt field_name :
  triple (human_type b e txt field_name)
    (starts_with (ESendKeys e [CONTROL; Char "a"]) (A:=bool)).
Proof.
  unfold human_type. apply starts_try.
  - apply starts_bind.
    + unfold clear_field. apply starts_bind.
      * apply triple_perform. intros w. exists []. reflexivity.
      * intros _. eapply sat_extends with (P := typing_event e).
        eapply sat_bind; [apply send_keys_typing_event | intros _ _].
        apply pause_typing_event with (E := anything).
    + intros _. eapply sat_extends. apply typing_tail_typing_event.
  - intros x. eapply sat_extends with (P := typing_event e) (V := anything) (E := anything).
    eapply sat_bind; [apply log_sat; exact I | intros _ _].
    apply sat_ret. exact I.
Qed.

End OneElement.

(** X16.  On any browser, for any text and field name, [human_type] acts on
    the element it was given and on no other: every keystroke and every
    read goes to that element; besides that it only pauses and logs: it
    neither looks for elements, nor clicks, nor navigates.  And it returns
    instead of raising. *)
Theorem human_type_touches_only_its_element :
  forall (World : Type) (b : Browser World) (e : WebElement) (txt field_name : string)
         (s : state World),
    exists r t,
      fst (human_type b e txt field_name s) = Ok r /\
      trace (snd (human_type b e txt field_name s)) = (trace s ++ t)%list /\
      Forall (typing_event e) t.
Proof.
  intros World b e txt field_name s.
  destruct (@human_type_typing_event World b e txt field_name s) as [t [Ht [HF Hr]]].
  destruct (fst (human_type b e txt field_name s)) as [r | x]; [ | destruct Hr].
  exists r, t. auto.
Qed.

(* ===================================================================== *)
(** ** The browser the button starts *)
(* ===================================================================== *)

Lemma permits_no_start : permits everywhere (fun ev => is_start ev = false).
Proof. constructor; intros; reflexivity. Qed.

(** X15.  When all five fields are filled in, the first thing the button
    does is start Chrome, with the headless flag as ticked in the sidebar;
    and whatever happens afterwards (attempts, retries, failures), Chrome
    is not started a second time during the click. *)
Theorem button_starts_chrome_once :
  forall (World : Type) (b : Browser World)
         (email password recipient subject body : string) (headless_mode : bool)
         (s : state World),
    forallb truthy [email; password; recipient; subject; body] = true ->
    exists t,
      trace (snd (send_email_button b email password recipient subject body headless_mode s))
        = (trace s ++ EInitChrome headless_mode :: t)%list /\
      filter is_start t = [].
Proof.
  intros World b email password recipient subject body headless_mode s Hall.
  set (Q := fun (t : list event) =>
              exists t', t = EInitChrome headless_mode :: t' /\ filter is_start t' = []).
  assert (Hafter : forall t1 t2, Q t1 -> Forall (fun ev => is_start ev = false) t2 ->
                                 Q (t1 ++ t2)%list).
  { intros t1 t2 [t' [-> H1]] H2. exists (t' ++ t2)%list. split; [reflexivity | ].
    rewrite filter_app, H1, (filter_none _ H2). reflexivity. }
  assert (H : triple (send_email_button b email password recipient subject body headless_mode)
                (fun r t => Q t)).
  { unfold send_email_button. rewrite Hall. simpl negb. cbv iota.
    eapply triple_try with (Q1 := fun r t => Q t).
    - eapply triple_bind with (Q1 := fun r t => Q t).
      + intros s0.
        destruct (init_runs b headless_mode s0) as [[w Hrun] | [cause [w Hrun]]];
          rewrite Hrun; simpl; eexists; (split; [reflexivity | ]);
          eexists; split; reflexivity.
      + intros automation t1 H1.
        eapply triple_conseq with
          (Q := fun (r : outcome status) t =>
                  Forall (fun ev => is_start ev = false) t /\
                  match r with Ok a => anything a | Raised x => anything x end).
        * eapply sat_bind.
          { apply (login_permitted b automation permits_no_start email password
                     default_max_attempts covers_login_everywhere); reflexivity. }
          intros login_status _.
          assert (Hclose : sat (fun ev => is_start ev = false) anything anything
                             (close b automation)).
          { eapply sat_conseq;
              [apply (@close_sat World b automation (fun ev => is_start ev = false));
                 intros; reflexivity
              | auto | auto | intros x []]. }
          destruct (negb (truthy_result login_status)).
          -- eapply sat_bind; [exact Hclose | intros _ _]. apply sat_ret. exact I.
          -- eapply sat_bind.
             { apply (send_permitted b automation permits_no_start recipient subject body
                        default_max_attempts covers_send_everywhere);
                 reflexivity || exact I. }
             intros send_status _.
             eapply sat_bind; [exact Hclose | intros _ _]. apply sat_ret. exact I.
        * intros r t2 [H2 _]. apply Hafter; assumption.
      + intros e t1 H1. exact H1.
    - intros a t1 H1. exact H1.
    - intros e t1 H1. apply triple_ret. rewrite app_nil_r. exact H1. }
  destruct (H s) as [t [Ht [t' [-> Hf]]]]. exists t'. auto.
Qed.

Lemma button_starts_chrome_once_witness :
  exists t,
    trace (snd (send_email_button (Sim.browser Sim.happy) "u@x.com" "pw" "r@y.com" "Hi"
                  "Hello" true Sim.start))
      = (trace Sim.start ++ EInitChrome true :: t)%list /\
    filter is_start t = [].
Proof.
  apply (@button_starts_chrome_once Sim.page (Sim.browser Sim.happy)
           "u@x.com" "pw" "r@y.com" "Hi" "Hello" true Sim.start).
  reflexivity.
Defined.

(* ===================================================================== *)
(** ** The order of the steps within an attempt *)
(* ===================================================================== *)

Lemma locator_eqb_refl (l : locator) : locator_eqb l l = true.
Proof.
  destruct l as [by_ value]. unfold locator_eqb. simpl.
  rewrite String.eqb_refl. destruct by_; reflexivity.
Qed.

Lemma apart_spec (l1 l2 : list locator) :
  apart l1 l2 = true -> forall l, In l l1 -> ~ In l l2.
Proof.
  unfold apart. rewrite forallb_forall. intros H l H1 H2.
  specialize (H l H1). apply negb_true_iff in H.
  assert (Hex : existsb (locator_eqb l) l2 = true).
  { apply existsb_exists. exists l. split; [exact H2 | apply locator_eqb_refl]. }
  congruence.
Qed.

(** A [B]-event after a stretch without [B]-events lies behind it. *)
Lemma split_after (B : event -> Prop) (t1 t2 u v : list event) ev :
  Forall (fun x => ~ B x) t1 -> (t1 ++ t2)%list = (u ++ ev :: v)%list -> B ev ->
  exists u', u = (t1 ++ u')%list /\ t2 = (u' ++ ev :: v)%list.
Proof.
  intros Hq. revert u. induction Hq as [| x t1 Hx _ IH]; intros u Heq Hev.
  - exists u. auto.
  - destruct u as [| y u]; simpl in Heq; inversion Heq; subst.
    + contradiction.
    + destruct (IH u H1 Hev) as [u' [-> ->]]. exists u'. auto.
Qed.

Section Order.

Context {World : Type} (A B : event -> Prop).

(** A step without [B]-events, then what follows. *)
Lemma preceded_skip X Y (m : M World X) (k : X -> M World Y) (V : X -> Prop)
  (E : exn -> Prop) :
  sat (fun ev => ~ B ev) V E m ->
  (forall a, triple (k a) (fun r t => preceded A B t)) ->
  triple (bind m k) (fun r t => preceded A B t).
Proof.
  intros Hm Hk. eapply triple_bind; [exact Hm | | ].
  - intros a t1 [H1 _]. eapply triple_conseq; [apply Hk | ].
    intros r t2 H2 u ev v Heq Hev.
    destruct (@split_after B t1 t2 u v ev H1 Heq Hev) as [u' [-> Ht2]].
    apply Exists_app. right. exact (H2 u' ev v Ht2 Hev).
  - intros e t1 [H1 _] u ev v Heq Hev. exfalso.
    rewrite Forall_forall in H1. apply (H1 ev); [ | exact Hev].
    rewrite Heq. apply in_or_app. right. left. reflexivity.
Qed.

(** A step without [B]-events that, when it returns, has shown an
    [A]-event; then anything. *)
Lemma preceded_here X Y (m : M World X) (k : X -> M World Y) (V : X -> Prop)
  (E : exn -> Prop) :
  sat (fun ev => ~ B ev) V E m ->
  triple m (fun r t => is_ok r = true -> Exists A t) ->
  (forall a, triple (k a) (fun _ _ => True)) ->
  triple (bind m k) (fun r t => preceded A B t).
Proof.
  intros Hq Hm Hk.
  eapply triple_bind; [apply (triple_both Hq Hm) | | ].
  - intros a t1 [[H1 _] HA]. eapply triple_conseq; [apply Hk | ].
    intros r t2 _ u ev v Heq Hev.
    destruct (@split_after B t1 t2 u v ev H1 Heq Hev) as [u' [-> Ht2]].
    apply Exists_app. left. apply HA. reflexivity.
  - intros e t1 [[H1 _] _] u ev v Heq Hev. exfalso.
    rewrite Forall_forall in H1. apply (H1 ev); [ | exact Hev].
    rewrite Heq. apply in_or_app. right. left. reflexivity.
Qed.

(** A computation that starts with an [A]-event shows one. *)
Lemma shows_first X (m : M World X) ev :
  A ev -> triple m (starts_with ev (A:=X)) ->
  triple m (fun r t => is_ok r = true -> Exists A t).
Proof.
  intros Hev Hm. eapply triple_conseq; [exact Hm | ].
  intros r t [t' ->] _. left. exact Hev.
Qed.

Lemma shows_bind X Y (P : event -> Prop) (V : X -> Prop) (E : exn -> Prop)
  (m : M World X) (k : X -> M World Y) :
  sat P V E m ->
  (forall a, V a -> triple (k a) (fun r t => is_ok r = true -> Exists A t)) ->
  triple (bind m k) (fun r t => is_ok r = true -> Exists A t).
Proof.
  intros Hm Hk. eapply triple_bind; [exact Hm | | ].
  - intros a t1 [_ Ha]. eapply triple_conseq; [apply (Hk a Ha) | ].
    intros r t2 H Hr. apply Exists_app. right. auto.
  - intros e t1 _ Hr. discriminate Hr.
Qed.

(** A loop breaks only through a body that returned a value. *)
Lemma loop_shows X Y (xs : list X) (body : X -> M World (option Y)) :
  (forall x, In x xs ->
     triple (body x) (fun r t => forall y, r = Ok (Some y) -> Exists A t)) ->
  triple (for_first xs body) (fun r t => forall y, r = Ok (Some y) -> Exists A t).
Proof.
  induction xs as [| x rest IH]; intros Hbody; simpl.
  - apply triple_ret. intros y H. discriminate H.
  - eapply triple_bind; [apply Hbody; left; reflexivity | | ].
    + intros [y |] t1 H1.
      * apply triple_ret. intros y' Hr. rewrite app_nil_r. apply (H1 y). reflexivity.
      * eapply triple_conseq; [apply IH; intros x' Hx'; apply Hbody; right; exact Hx' | ].
        intros r t2 H2 y Hr. apply Exists_app. right. eauto.
    + intros e t1 _ y Hr. discriminate Hr.
Qed.

(** The body of a cascade: it returns a value only from its [try] part. *)
Lemma try_shows X (m : M World (option X)) :
  triple m (fun r t => is_ok r = true -> Exists A t) ->
  triple (try_except m (fun _ => ret None))
    (fun r t => forall y, r = Ok (Some y) -> Exists A t).
Proof.
  intros Hm. eapply triple_try; [exact Hm | | ].
  - intros a t1 H1 y _. apply H1. reflexivity.
  - intros e t1 _. apply triple_ret. intros y Hr. discriminate Hr.
Qed.

Lemma required_shows X (m : M World (option X)) msg :
  triple m (fun r t => forall y, r = Ok (Some y) -> Exists A t) ->
  triple (bind m (fun r => require r msg)) (fun r t => is_ok r = true -> Exists A t).
Proof.
  intros Hm. eapply triple_bind; [exact Hm | | ].
  - intros [y |] t1 H1; simpl.
    + apply triple_ret. intros _. rewrite app_nil_r. apply (H1 y). reflexivity.
    + apply triple_raise. intros Hr. discriminate Hr.
  - intros e t1 _ Hr. discriminate Hr.
Qed.

End Order.

Section OrderBlocks.

Context {World : Type} (b : Browser World) (self : GmailAutomation).
Context (A : event -> Prop).

(** A typed cascade that returns a field has sent keys to an element found
    through one of its selectors. *)
Lemma typed_cascade_shows sc timeout selectors txt field_name after :
  (forall e ks, In (found_by e) (css selectors) -> A (ESendKeys e ks)) ->
  triple after (fun _ _ => True) ->
  triple (typed_cascade b self sc timeout selectors txt field_name after)
    (fun r t => forall y, r = Ok (Some y) -> Exists A t).
Proof.
  intros HA Hafter. unfold typed_cascade. apply loop_shows.
  intros sel Hsel. apply try_shows.
  eapply shows_bind;
    [apply (wait_until_sat b self (quiet_anything (anything (A:=locator)))); exact I | ].
  intros field Hfield.
  apply shows_first with (ev := ESendKeys field [CONTROL; Char "a"]).
  - apply HA. rewrite Hfield. unfold css. apply in_map_iff. exists sel. auto.
  - apply starts_bind; [apply human_type_first_key | ].
    intros [|].
    + eapply triple_bind; [exact Hafter | | ]; intros; [apply triple_ret | ]; exact I.
    + apply triple_ret. exact I.
Qed.

(** A button cascade that returns a button has clicked an element found
    through one of its candidates. *)
Lemma click_cascade_shows buttons lo hi :
  (forall e, In (found_by e) (buttons_of buttons) -> A (EClick e)) ->
  triple (click_cascade b self buttons lo hi)
    (fun r t => forall y, r = Ok (Some y) -> Exists A t).
Proof.
  intros HA. unfold click_cascade. apply loop_shows.
  intros [ty loc] Hin. apply try_shows.
  eapply shows_bind;
    [apply (wait_until_sat b self (quiet_anything (anything (A:=locator)))); exact I | ].
  intros btn Hbtn.
  apply shows_first with (ev := EClick btn).
  - apply HA. rewrite Hbtn. unfold buttons_of. apply in_map_iff. exists (ty, loc). auto.
  - apply starts_bind.
    + apply triple_perform. intros w. exists []. reflexivity.
    + intros _. eapply sat_extends with (P := anything) (V := anything) (E := anything).
      eapply sat_bind;
        [apply (human_delay_sat b (quiet_anything (anything (A:=locator)))) | intros _ _].
      apply sat_ret. exact I.
Qed.

(** The body cascade returns only after it has sent the body to an element
    found through one of its selectors. *)
Lemma fill_body_content_shows compose_dialog body :
  (forall e ks, In (found_by e) (css body_selectors) -> A (ESendKeys e ks)) ->
  triple (fill_body_content b self compose_dialog body)
    (fun r t => is_ok r = true -> Exists A t).
Proof.
  pose proof (quiet_anything (anything (A:=locator))) as HQ.
  intros HA. unfold fill_body_content. apply required_shows. apply loop_shows.
  intros sel Hsel. apply try_shows.
  eapply shows_bind; [apply (wait_until_sat b self HQ); exact I | ].
  intros body_field Hfield.
  eapply shows_bind; [apply (click_sat b HQ); exact I | intros _ _].
  eapply shows_bind with (E := anything); [apply (human_delay_sat b HQ) | intros _ _].
  apply shows_first with (ev := ESendKeys body_field (keys_of body)).
  - apply HA. rewrite Hfield. unfold css. apply in_map_iff. exists sel. auto.
  - apply starts_bind.
    + apply triple_perform. intros w. exists []. reflexivity.
    + intros _. eapply sat_extends with (P := anything) (V := anything) (E := anything).
      eapply sat_bind; [apply (human_delay_sat b HQ) | intros _ _].
      apply sat_ret. exact I.
Qed.

End OrderBlocks.

Section StepsPermitted.

Context {World : Type} (b : Browser World) (self : GmailAutomation).
Context (A : alphabet) (P : event -> Prop) (HP : permits A P).

Lemma email_entry_permitted email :
  (forall l, In l (css email_selectors) ->
     a_probes A InDriver l /\ a_typed A l /\ a_read A l) ->
  sat P anything anything (email_entry b self email).
Proof.
  intros Hok. unfold email_entry.
  eapply sat_bind with (V1 := anything); [ | intros ? _; apply require_any].
  apply (typed_cascade_permitted b self HP); [reflexivity | exact Hok | apply sat_ret; exact I].
Qed.

Lemma click_next_button_permitted :
  (forall l, In l (buttons_of next_buttons) -> a_probes A InDriver l /\ a_clicked A l) ->
  sat P anything anything (click_next_button b self).
Proof.
  intros Hok. unfold click_next_button.
  eapply sat_bind with (V1 := anything); [ | intros ? _; apply require_any].
  apply (click_cascade_permitted b self HP). exact Hok.
Qed.

Lemma click_compose_button_permitted :
  a_probes A InDriver (XPATH, compose_xpath) -> a_clicked A (XPATH, compose_xpath) ->
  sat P anything anything (click_compose_button b self).
Proof.
  intros Hp Hc. unfold click_compose_button.
  eapply sat_bind; [apply (wait_until_permitted b self HP); exact Hp | intros compose_btn Hbtn].
  eapply sat_bind; [apply (pause_permitted b HP) | intros _ _].
  eapply sat_bind; [apply (click_permitted b HP); rewrite Hbtn; exact Hc | intros _ _].
  apply sat_ret. exact I.
Qed.

Lemma wait_for_compose_window_permitted :
  a_probes A InDriver (CSS_SELECTOR, dialog_css) ->
  sat P anything anything (wait_for_compose_window b self).
Proof.
  intros Hp. unfold wait_for_compose_window.
  eapply sat_bind; [apply (wait_until_permitted b self HP); exact Hp | intros d _].
  eapply sat_bind; [apply (pause_permitted b HP) | intros _ _].
  apply sat_ret. exact I.
Qed.

Lemma fill_recipient_field_permitted compose_dialog recipient :
  (forall l, In l (css recipient_selectors) ->
     a_probes A (InElement compose_dialog) l /\ a_typed A l /\ a_read A l) ->
  sat P anything anything (fill_recipient_field b self compose_dialog recipient).
Proof.
  intros Hok. unfold fill_recipient_field.
  eapply sat_bind with (V1 := anything); [ | intros ? _; apply require_any].
  apply (typed_cascade_permitted b self HP);
    [reflexivity | exact Hok | apply (pause_permitted b HP)].
Qed.

Lemma fill_subject_field_permitted compose_dialog subject :
  (forall l, In l (css subject_selectors) ->
     a_probes A (InElement compose_dialog) l /\ a_typed A l /\ a_read A l) ->
  sat P anything anything (fill_subject_field b self compose_dialog subject).
Proof.
  intros Hok. unfold fill_subject_field.
  eapply sat_bind with (V1 := anything); [ | intros ? _; apply require_any].
  apply (typed_cascade_permitted b self HP);
    [reflexivity | exact Hok | apply (pause_permitted b HP)].
Qed.

Lemma fill_body_content_permitted compose_dialog body :
  (forall l, In l (css body_selectors) ->
     a_probes A (InElement compose_dialog) l /\ a_typed A l /\ a_clicked A l) ->
  sat P anything anything (fill_body_content b self compose_dialog body).
Proof.
  intros Hok. unfold fill_body_content.
  eapply sat_bind with (V1 := anything); [ | intros ? _; apply require_any].
  apply sat_for_first; [exact I | ].
  intros sel Hsel.
  assert (Hl : In (CSS_SELECTOR, sel) (css body_selectors)).
  { unfold css. apply in_map_iff. exists sel. auto. }
  destruct (Hok _ Hl) as [Hp [Ht Hc]].
  eapply sat_try with (E1 := anything).
  - eapply sat_bind; [apply (wait_until_permitted b self HP); exact Hp | ].
    intros body_field Hfield.
    eapply sat_bind; [apply (click_permitted b HP); rewrite Hfield; exact Hc | intros _ _].
    eapply sat_bind; [apply (pause_permitted b HP) | intros _ _].
    eapply sat_bind; [apply (send_keys_permitted b HP); rewrite Hfield; exact Ht | intros _ _].
    eapply sat_bind; [apply (pause_permitted b HP) | intros _ _].
    apply sat_ret. exact I.
  - intros e _. apply sat_ret. exact I.
Qed.

End StepsPermitted.

Section Suffixes.

Context {World : Type} (b : Browser World) (self : GmailAutomation).

(** What follows the click on "next" in a login attempt, and what follows
    the email entry. *)
Lemma after_next_any password :
  sat anything anything anything
    (bind (password_entry b self password)
       (fun _ => bind (submit_login b self)
          (fun _ => bind (verify_login_success b self)
             (fun _ => bind (log INFO LoginSuccessful) (fun _ => ret true))))).
Proof.
  pose proof (quiet_anything (anything (A:=locator))) as HQ.
  eapply sat_bind; [apply (password_entry_sat b self HQ); intros; exact I | intros _ _].
  eapply sat_bind; [apply (submit_login_sat b self HQ); intros; exact I | intros _ _].
  eapply sat_bind; [apply (wait_until_any b self HQ); exact I | intros _ _].
  eapply sat_bind; [apply log_sat; exact I | intros _ _].
  apply sat_ret. exact I.
Qed.

Lemma after_email_any password :
  sat anything anything anything
    (bind (click_next_button b self)
       (fun _ => bind (password_entry b self password)
          (fun _ => bind (submit_login b self)
             (fun _ => bind (verify_login_success b self)
                (fun _ => bind (log INFO LoginSuccessful) (fun _ => ret true)))))).
Proof.
  pose proof (quiet_anything (anything (A:=locator))) as HQ.
  eapply sat_bind; [apply (click_next_button_sat b self HQ); intros; exact I | intros _ _].
  apply after_next_any.
Qed.

(** What follows the body, the subject and the recipient in a send
    attempt. *)
Lemma after_body_any compose_dialog :
  sat anything anything anything
    (bind (send_email b self compose_dialog)
       (fun _ => bind (verify_send_completion b self)
          (fun _ => bind (log INFO EmailSentSuccessfully) (fun _ => ret true)))).
Proof.
  pose proof (quiet_anything (anything (A:=locator))) as HQ.
  eapply sat_bind; [apply (send_email_sat b self HQ); intros; exact I | intros _ _].
  eapply sat_bind; [apply (wait_until_any b self HQ); exact I | intros _ _].
  eapply sat_bind; [apply log_sat; exact I | intros _ _].
  apply sat_ret. exact I.
Qed.

Lemma after_subject_any compose_dialog body :
  sat anything anything anything
    (bind (fill_body_content b self compose_dialog body)
       (fun _ => bind (send_email b self compose_dialog)
          (fun _ => bind (verify_send_completion b self)
             (fun _ => bind (log INFO EmailSentSuccessfully) (fun _ => ret true))))).
Proof.
  pose proof (quiet_anything (anything (A:=locator))) as HQ.
  eapply sat_bind; [apply (fill_body_content_sat b self HQ); intros; exact I | intros _ _].
  apply after_body_any.
Qed.

Lemma after_recipient_any compose_dialog subject body :
  sat anything anything anything
    (bind (fill_subject_field b self compose_dialog subject)
       (fun _ => bind (fill_body_content b self compose_dialog body)
          (fun _ => bind (send_email b self compose_dialog)
             (fun _ => bind (verify_send_completion b self)
                (fun _ => bind (log INFO EmailSentSuccessfully) (fun _ => ret true)))))).
Proof.
  pose proof (quiet_anything (anything (A:=locator))) as HQ.
  eapply sat_bind with (V1 := anything); [ | intros _ _; apply after_subject_any].
  unfold fill_subject_field. eapply sat_bind;
    [apply (typed_cascade_sat b self HQ); [intros; exact I | apply (human_delay_sat b HQ)] | ].
  intros ? _. apply require_any.
Qed.

End Suffixes.

(** The alphabets of the steps before a given step, and what they leave
    out. *)
Lemma permits_without_keys (typed forbidden : list locator) :
  apart typed forbidden = true ->
  permits (mkAlphabet anything (fun _ _ => True) (fun l => In l typed) anything anything)
    (fun ev => ~ keys_into forbidden ev).
Proof.
  intros Hapart. constructor; simpl; intros; try (intros H'; exact H').
  apply (apart_spec _ _ Hapart). assumption.
Qed.

Lemma permits_without_clicks (clicked forbidden : list locator) :
  apart clicked forbidden = true ->
  permits (mkAlphabet anything (fun _ _ => True) anything anything (fun l => In l clicked))
    (fun ev => ~ click_on forbidden ev).
Proof.
  intros Hapart. constructor; simpl; intros; try (intros H'; exact H').
  apply (apart_spec _ _ Hapart). assumption.
Qed.

(** X18.  Within the [try] block of a login attempt, on any browser, no
    key is sent to an element found through a password selector before
    keys were sent to an element found through an email selector and an
    element found through a "next" candidate was clicked: the password is
    never typed first. *)
Theorem password_is_typed_after_email_and_next :
  forall (World : Type) (b : Browser World) (self : GmailAutomation)
         (email password : string) (attempt max_attempts : Z) (s : state World),
    exists t,
      trace (snd (login_attempt b self email password attempt max_attempts s))
        = (trace s ++ t)%list /\
      preceded (keys_into (css email_selectors)) (keys_into (css password_selectors)) t /\
      preceded (click_on (buttons_of next_buttons)) (keys_into (css password_selectors)) t.
Proof.
  intros World b self email password attempt max_attempts s.
  pose proof (@permits_without_keys (css email_selectors) (css password_selectors) eq_refl)
    as HP.
  set (B := keys_into (css password_selectors)) in *.
  assert (Hlog : forall lvl m,
            sat (World:=World) (fun ev => ~ B ev) anything anything (log lvl m))
    by (intros; apply log_sat; intros H'; exact H').
  assert (Hload : sat (fun ev => ~ B ev) anything anything (load_gmail b self))
    by (apply (load_gmail_permitted b self HP); intros; exact I).
  assert (Hemail : sat (fun ev => ~ B ev) anything anything (email_entry b self email)).
  { apply (email_entry_permitted b self HP). intros l Hl. cbn [a_probes a_typed a_read a_clicked]. unfold anything. auto. }
  assert (H : triple (login_attempt b self email password attempt max_attempts)
                (fun r t => preceded (keys_into (css email_selectors)) B t /\
                            preceded (click_on (buttons_of next_buttons)) B t)).
  { apply triple_both; unfold login_attempt, login_steps.
    - eapply preceded_skip; [apply Hlog | intros _].
      eapply preceded_skip; [exact Hload | intros loaded].
      eapply preceded_skip; [apply require_any | intros _].
      eapply preceded_here; [exact Hemail | | intros _].
      + unfold email_entry. apply required_shows.
        apply typed_cascade_shows; [intros e ks He; exact He | apply triple_ret; exact I].
      + eapply sat_extends. apply after_email_any.
    - eapply preceded_skip; [apply Hlog | intros _].
      eapply preceded_skip; [exact Hload | intros loaded].
      eapply preceded_skip; [apply require_any | intros _].
      eapply preceded_skip; [exact Hemail | intros _].
      eapply preceded_here; [ | | intros _].
      + apply (click_next_button_permitted b self HP). intros l Hl. cbn [a_probes a_typed a_read a_clicked]. unfold anything. auto.
      + unfold click_next_button. apply required_shows.
        apply click_cascade_shows. intros e He. exact He.
      + eapply sat_extends. apply after_next_any. }
  destruct (H s) as [t [Ht [H1 H2]]]. exists t. auto.
Qed.

(** X19.  Within the [try] block of a send attempt, on any browser, the
    fields are filled in the fixed order recipient, subject, body, and Send
    is clicked last: no key is sent to a subject field before keys were
    sent to a recipient field, none to a body field before keys were sent
    to a subject field, and no Send candidate is clicked before keys were
    sent to a body field. *)
Theorem send_fills_fields_in_fixed_order :
  forall (World : Type) (b : Browser World) (self : GmailAutomation)
         (recipient subject body : string) (attempt max_attempts : Z) (s : state World),
    exists t,
      trace (snd (send_attempt b self recipient subject body attempt max_attempts s))
        = (trace s ++ t)%list /\
      preceded (keys_into (css recipient_selectors)) (keys_into (css subject_selectors)) t /\
      preceded (keys_into (css subject_selectors)) (keys_into (css body_selectors)) t /\
      preceded (keys_into (css body_selectors))
        (click_on (map send_locator send_selectors)) t.
Proof.
  intros World b self recipient subject body attempt max_attempts s.
  pose proof (@permits_without_keys (css recipient_selectors) (css subject_selectors) eq_refl)
    as HP1.
  pose proof (@permits_without_keys (css recipient_selectors ++ css subject_selectors)
                (css body_selectors) eq_refl) as HP2.
  pose proof (@permits_without_clicks ((XPATH, compose_xpath) :: css body_selectors)
                (map send_locator send_selectors) eq_refl) as HP3.
  assert (H : triple (send_attempt b self recipient subject body attempt max_attempts)
                (fun r t =>
                   preceded (keys_into (css recipient_selectors))
                     (keys_into (css subject_selectors)) t /\
                   preceded (keys_into (css subject_selectors))
                     (keys_into (css body_selectors)) t /\
                   preceded (keys_into (css body_selectors))
                     (click_on (map send_locator send_selectors)) t)).
  { apply triple_both; [ | apply triple_both]; unfold send_attempt, send_steps.
    - eapply preceded_skip with (V := anything) (E := anything);
        [apply log_sat; intros H'; exact H' | intros _].
      eapply preceded_skip;
        [apply (click_compose_button_permitted b self HP1); exact I | intros _].
      eapply preceded_skip;
        [apply (wait_for_compose_window_permitted b self HP1); exact I | intros d].
      eapply preceded_here; [ | | intros _].
      + apply (fill_recipient_field_permitted b self HP1). intros l Hl. cbn [a_probes a_typed a_read a_clicked]. unfold anything. auto.
      + unfold fill_recipient_field. apply required_shows.
        apply typed_cascade_shows; [intros e ks He; exact He | ].
        eapply sat_extends with (P := anything) (V := anything) (E := anything).
        apply (human_delay_sat b (quiet_anything (anything (A:=locator)))).
      + eapply sat_extends. apply after_recipient_any.
    - eapply preceded_skip with (V := anything) (E := anything);
        [apply log_sat; intros H'; exact H' | intros _].
      eapply preceded_skip;
        [apply (click_compose_button_permitted b self HP2); exact I | intros _].
      eapply preceded_skip;
        [apply (wait_for_compose_window_permitted b self HP2); exact I | intros d].
      eapply preceded_skip; [ | intros _].
      { apply (fill_recipient_field_permitted b self HP2). intros l Hl. cbn [a_probes a_typed a_read a_clicked].
        split; [exact I | ]. split; [apply in_or_app; left; exact Hl | exact I]. }
      eapply preceded_here; [ | | intros _].
      + apply (fill_subject_field_permitted b self HP2). intros l Hl. cbn [a_probes a_typed a_read a_clicked].
        split; [exact I | ]. split; [apply in_or_app; right; exact Hl | exact I].
      + unfold fill_subject_field. apply required_shows.
        apply typed_cascade_shows; [intros e ks He; exact He | ].
        eapply sat_extends with (P := anything) (V := anything) (E := anything).
        apply (human_delay_sat b (quiet_anything (anything (A:=locator)))).
      + eapply sat_extends. apply after_subject_any.
    - eapply preceded_skip with (V := anything) (E := anything);
        [apply log_sat; intros H'; exact H' | intros _].
      eapply preceded_skip; [ | intros _].
      { apply (click_compose_button_permitted b self HP3); [exact I | left; reflexivity]. }
      eapply preceded_skip;
        [apply (wait_for_compose_window_permitted b self HP3); exact I | intros d].
      eapply preceded_skip; [ | intros _].
      { apply (fill_recipient_field_permitted b self HP3). intros l Hl. cbn [a_probes a_typed a_read a_clicked].
        unfold anything. auto. }
      eapply preceded_skip; [ | intros _].
      { apply (fill_subject_field_permitted b self HP3). intros l Hl. cbn [a_probes a_typed a_read a_clicked].
        unfold anything. auto. }
      eapply preceded_here; [ | | intros _].
      + apply (fill_body_content_permitted b self HP3). intros l Hl. cbn [a_probes a_typed a_read a_clicked].
        split; [exact I | ]. split; [exact I | right; exact Hl].
      + apply fill_body_content_shows. intros e ks He. exact He.
      + eapply sat_extends. apply after_body_any. }
  destruct (H s) as [t [Ht [H1 [H2 H3]]]]. exists t. auto.
Qed.

(* ===================================================================== *)
(** ** The end-to-end scenario *)
(* ===================================================================== *)

Section Returns.

Context {World : Type}.

Lemma returns_ret A (a : A) (R : A -> list event -> Prop) :
  R a [] -> returns (World:=World) (ret a) R.
Proof. intros H. apply triple_ret. eauto. Qed.

Lemma returns_perform A ev (op : World -> outcome A * World)
  (R : A -> list event -> Prop) :
  (forall w, exists a, fst (op w) = Ok a /\ R a [ev]) -> returns (perform ev op) R.
Proof. intros H. apply triple_perform. exact H. Qed.

Lemma returns_bind A B (m : M World A) (k : A -> M World B)
  (R1 : A -> list event -> Prop) (R : B -> list event -> Prop) :
  returns m R1 ->
  (forall a t1, R1 a t1 -> returns (k a) (fun v t2 => R v (t1 ++ t2)%list)) ->
  returns (bind m k) R.
Proof.
  intros Hm Hk. eapply triple_bind; [exact Hm | | ].
  - intros a t1 [a' [Ha H1]]. inversion Ha; subst a'. apply (Hk a t1 H1).
  - intros e t1 [a [Ha _]]. discriminate Ha.
Qed.

Lemma returns_try A (m : M World A) (h : exn -> M World A) (R : A -> list event -> Prop) :
  returns m R -> returns (try_except m h) R.
Proof.
  intros Hm. eapply triple_try; [exact Hm | auto | ].
  intros e t1 [a [Ha _]]. discriminate Ha.
Qed.

Lemma returns_conseq A (m : M World A) (R R' : A -> list event -> Prop) :
  returns m R -> (forall a t, R a t -> R' a t) -> returns m R'.
Proof.
  intros Hm HR. eapply triple_conseq; [exact Hm | ].
  intros r t [a [Ha H]]. eauto.
Qed.

(** A loop whose first item breaks. *)
Lemma returns_first A B x (rest : list A) (body : A -> M World (option B))
  (R : B -> list event -> Prop) :
  returns (body x) (fun r t => exists y, r = Some y /\ R y t) ->
  returns (for_first (x :: rest) body) (fun r t => exists y, r = Some y /\ R y t).
Proof.
  intros Hx. simpl. eapply returns_bind; [exact Hx | ].
  intros r t1 [y [-> Hy]]. apply returns_ret. rewrite app_nil_r. eauto.
Qed.

Lemma returns_require A (m : M World (option A)) msg (R : A -> list event -> Prop) :
  returns m (fun r t => exists y, r = Some y /\ R y t) ->
  returns (bind m (fun r => require r msg)) R.
Proof.
  intros Hm. eapply returns_bind; [exact Hm | ].
  intros r t1 [y [-> Hy]]. simpl. apply returns_ret. rewrite app_nil_r. exact Hy.
Qed.

Lemma log_returns lvl msg :
  returns (World:=World) (log lvl msg) (fun _ t => t = [ELog lvl msg]).
Proof. apply returns_perform. intros w. exists tt. auto. Qed.

End Returns.

Section FirstTry.

Context {World : Type} (b : Browser World) (self : GmailAutomation).
Context (Hd : driver self = Some Chrome) (Hft : first_try b).

Lemma delay_returns lo hi :
  returns (human_delay b lo hi) (fun _ t => t = [ESleep lo hi]).
Proof. apply returns_perform. intros w. exists tt. auto. Qed.

Lemma wait_first sc t c l :
  first_candidate sc t c l ->
  returns (wait_until b self sc t c l) (fun e tr => found_by e = l /\ tr = [EWait sc t c l]).
Proof.
  intros Hfc.
  assert (H : returns (perform (EWait sc t c l) (fun w => found l (b_wait b sc t c l w)))
                (fun e tr => found_by e = l /\ tr = [EWait sc t c l])).
  { apply returns_perform. intros w. destruct (ft_wait Hft Hfc w) as [n Hn].
    exists (mkElement l n). split; [apply found_value; exact Hn | split; reflexivity]. }
  unfold wait_until. destruct sc; [unfold on_driver; rewrite Hd | ]; exact H.
Qed.

Lemma click_first e :
  clicked_first (found_by e) -> returns (click b e) (fun _ t => t = [EClick e]).
Proof.
  intros He. apply returns_perform. intros w. exists tt.
  split; [apply (ft_click Hft); exact He | reflexivity].
Qed.

Lemma human_type_first e txt field_name :
  typed_first (found_by e) -> String.eqb field_name "body" = false ->
  returns (human_type b e txt field_name)
    (fun v t => v = true /\ exists retyped, t = human_type_events e txt field_name retyped).
Proof.
  intros He Hname s.
  assert (Ht : sat anything (eq true) nothing (human_type b e txt field_name)).
  { apply human_type_true;
      first [ exact Hname
            | intros; exact I
            | intros; apply (ft_keys Hft); left; exact He
            | intros; apply (ft_value Hft); exact He ]. }
  destruct (Ht s) as [t1 [_ [_ Hr]]].
  destruct (human_type_spelt b e txt field_name s) as [retyped [p [rest [Hfull Hcase]]]].
  destruct (fst (human_type b e txt field_name s)) as [v | x]; [subst v | destruct Hr].
  destruct Hcase as [-> Hp]. rewrite app_nil_r in Hfull.
  exists p. split; [exact Hp | ]. exists true. split; [reflexivity | ].
  split; [reflexivity | ]. exists retyped. symmetry. exact Hfull.
Qed.

(** A typed cascade whose first candidate resolves: one probe, the typing,
    what follows the typing; the other candidates are not tried. *)
Lemma typed_cascade_first sc t sel rest txt field_name after after_events :
  first_candidate sc t visibility_of_element_located (CSS_SELECTOR, sel) ->
  typed_first (CSS_SELECTOR, sel) ->
  String.eqb field_name "body" = false ->
  returns after (fun _ tr => tr = after_events) ->
  returns (typed_cascade b self sc t (sel :: rest) txt field_name after)
    (fun r tr =>
       exists e, r = Some e /\
         (found_by e = (CSS_SELECTOR, sel) /\
          exists retyped,
            tr = (EWait sc t visibility_of_element_located (CSS_SELECTOR, sel)
                  :: human_type_events e txt field_name retyped ++ after_events)%list)).
Proof.
  intros Hfc Hty Hname Hafter. unfold typed_cascade.
  apply returns_first with
    (R := fun e tr =>
            found_by e = (CSS_SELECTOR, sel) /\
            exists retyped,
              tr = (EWait sc t visibility_of_element_located (CSS_SELECTOR, sel)
                    :: human_type_events e txt field_name retyped ++ after_events)%list).
  apply returns_try.
  eapply returns_bind; [apply wait_first; exact Hfc | ].
  intros e t1 [He ->].
  eapply returns_bind; [apply human_type_first; [rewrite He; exact Hty | exact Hname] | ].
  intros v t2 [-> [retyped ->]].
  eapply returns_bind; [exact Hafter | ].
  intros [] t3 ->. apply returns_ret. exists e. split; [reflexivity | ].
  split; [exact He | ]. exists retyped. rewrite app_nil_r. reflexivity.
Qed.

(** A button cascade whose first candidate resolves. *)
Lemma click_cascade_first ty loc rest lo hi :
  first_candidate InDriver 10 element_to_be_clickable (by_of ty, loc) ->
  clicked_first (by_of ty, loc) ->
  returns (click_cascade b self ((ty, loc) :: rest) lo hi)
    (fun r tr =>
       exists e, r = Some e /\
         (found_by e = (by_of ty, loc) /\
          tr = [EWait InDriver 10 element_to_be_clickable (by_of ty, loc);
                EClick e; ESleep lo hi])).
Proof.
  intros Hfc Hcl. unfold click_cascade.
  apply returns_first with
    (R := fun e tr =>
            found_by e = (by_of ty, loc) /\
            tr = [EWait InDriver 10 element_to_be_clickable (by_of ty, loc);
                  EClick e; ESleep lo hi]).
  apply returns_try.
  eapply returns_bind; [apply wait_first; exact Hfc | ].
  intros e t1 [He ->].
  eapply returns_bind; [apply click_first; rewrite He; exact Hcl | ].
  intros [] t2 ->.
  eapply returns_bind; [apply delay_returns | ].
  intros [] t3 ->. apply returns_ret. exists e. auto.
Qed.

(** The URL loop when the first URL lands: one navigation, and the address
    of the page read once or twice. *)
Lemma load_gmail_first :
  returns (load_gmail b self)
    (fun r tr =>
       exists y, r = Some y /\
         exists twice : bool,
           tr = ([EGet "https://mail.google.com"; EReadyState 30; ESleep 3000 5000;
                  ECurrentUrl]
                 ++ (if twice then [ECurrentUrl] else []))%list).
Proof.
  unfold load_gmail.
  change urls with ("https://mail.google.com" :: tl urls).
  apply returns_first with
    (R := fun (_ : unit) tr =>
            exists twice : bool,
              tr = ([EGet "https://mail.google.com"; EReadyState 30; ESleep 3000 5000;
                     ECurrentUrl]
                    ++ (if twice then [ECurrentUrl] else []))%list).
  apply returns_try.
  eapply returns_bind with (R1 := fun _ tr => tr = [EGet "https://mail.google.com"]).
  { unfold get, on_driver. rewrite Hd. apply returns_perform. intros w. exists tt.
    split; [apply (ft_get Hft) | reflexivity]. }
  intros [] t1 ->.
  eapply returns_bind with (R1 := fun _ tr => tr = [EReadyState 30]).
  { unfold wait_for_page_load, on_driver. rewrite Hd. apply returns_perform. intros w.
    exists tt. split; [apply (ft_ready Hft) | reflexivity]. }
  intros [] t2 ->.
  eapply returns_bind; [apply delay_returns | ].
  intros [] t3 ->.
  assert (Hurl : forall V : string -> Prop,
             (forall w, exists u, fst (b_current_url b w) = Ok u /\ V u) ->
             returns (current_url b self) (fun u tr => V u /\ tr = [ECurrentUrl])).
  { intros V HV. unfold current_url, on_driver. rewrite Hd. apply returns_perform.
    intros w. destruct (HV w) as [u [Hu Hv]]. exists u. auto. }
  destruct (ft_url Hft) as [Hlogin | Hmail].
  - eapply returns_bind; [apply (Hurl _ Hlogin) | ].
    intros u t4 [Hu ->]. rewrite Hu. apply returns_ret.
    exists tt. split; [reflexivity | ]. exists false. reflexivity.
  - eapply returns_bind; [apply (Hurl _ Hmail) | ].
    intros u t4 [_ ->].
    destruct (contains "google.com/accounts" u).
    + apply returns_ret. exists tt. split; [reflexivity | ]. exists false. reflexivity.
    + eapply returns_bind; [apply (Hurl _ Hmail) | ].
      intros u' t5 [Hu' ->]. rewrite Hu'. apply returns_ret.
      exists tt. split; [reflexivity | ]. exists true. reflexivity.
Qed.

(** The steps of a login attempt: the events of the six operations, then
    the line that reports the success. *)
Lemma login_steps_first email password :
  returns (login_steps b self email password)
    (fun v tr =>
       v = true /\
       exists a, tr = (flat_map snd (login_scenario a email password)
                       ++ [ELog INFO LoginSuccessful])%list).
Proof.
  unfold login_steps.
  eapply returns_bind; [apply load_gmail_first | ].
  intros loaded t1 [y [-> [twice ->]]].
  eapply returns_bind with (R1 := fun _ tr => tr = []); [apply returns_ret; reflexivity | ].
  intros _ t2 ->.
  eapply returns_bind.
  { unfold email_entry. apply returns_require.
    change email_selectors with (hd EmptyString email_selectors :: tl email_selectors).
    apply typed_cascade_first with (after_events := []);
      [apply fc_email | left; reflexivity | reflexivity | apply returns_ret; reflexivity]. }
  intros [l1 n1] t3 [Hl1 [r1 ->]]. simpl in Hl1. subst l1.
  eapply returns_bind.
  { unfold click_next_button. apply returns_require.
    change next_buttons with (("id", "identifierNext") :: tl next_buttons).
    apply click_cascade_first; [apply fc_next | left; reflexivity]. }
  intros [l2 n2] t4 [Hl2 ->]. simpl in Hl2. subst l2.
  eapply returns_bind.
  { unfold password_entry. apply returns_require.
    change password_selectors
      with (hd EmptyString password_selectors :: tl password_selectors).
    apply typed_cascade_first with (after_events := []);
      [apply fc_password | right; left; reflexivity | reflexivity
      | apply returns_ret; reflexivity]. }
  intros [l3 n3] t5 [Hl3 [r3 ->]]. simpl in Hl3. subst l3.
  eapply returns_bind.
  { unfold submit_login. apply returns_require.
    change submit_buttons with (("id", "passwordNext") :: tl submit_buttons).
    apply click_cascade_first; [apply fc_submit | right; left; reflexivity]. }
  intros [l4 n4] t6 [Hl4 ->]. simpl in Hl4. subst l4.
  eapply returns_bind; [apply wait_first; apply fc_landmark | ].
  intros e5 t7 [_ ->].
  eapply returns_bind; [apply log_returns | ].
  intros [] t8 ->. apply returns_ret. split; [reflexivity | ].
  exists {| url_read_twice := twice;
            email_node := n1; email_retyped := r1;
            next_node := n2;
            password_node := n3; password_retyped := r3;
            submit_node := n4 |}.
  unfold login_scenario.
  cbn [flat_map snd url_read_twice email_node email_retyped next_node password_node
       password_retyped submit_node].
  rewrite !app_nil_r. rewrite <- !app_assoc. reflexivity.
Qed.

(** Login succeeds at its first attempt. *)
Lemma login_first email password :
  returns (login_to_gmail b self email password default_max_attempts)
    (fun r tr =>
       r = Some true /\
       exists a, tr = (ELog INFO (LoginAttempt 1 default_max_attempts)
                       :: flat_map snd (login_scenario a email password)
                       ++ [ELog INFO LoginSuccessful])%list).
Proof.
  eapply returns_conseq.
  - unfold login_to_gmail.
    change (range 1 (default_max_attempts + 1)) with [1; 2; 3].
    apply returns_first with
      (R := fun v tr =>
              v = true /\
              exists a, tr = (ELog INFO (LoginAttempt 1 default_max_attempts)
                              :: flat_map snd (login_scenario a email password)
                              ++ [ELog INFO LoginSuccessful])%list).
    apply returns_try. unfold login_attempt.
    eapply returns_bind with
      (R1 := fun v tr =>
               v = true /\
               exists a, tr = (ELog INFO (LoginAttempt 1 default_max_attempts)
                               :: flat_map snd (login_scenario a email password)
                               ++ [ELog INFO LoginSuccessful])%list).
    + eapply returns_bind; [apply log_returns | ].
      intros [] t1 ->. eapply returns_conseq; [apply login_steps_first | ].
      intros v tr [-> [a ->]]. split; [reflexivity | ]. exists a. reflexivity.
    + intros v t1 [-> [a ->]]. apply returns_ret. exists true.
      split; [reflexivity | ]. split; [reflexivity | ].
      exists a. rewrite app_nil_r. reflexivity.
  - intros r tr [y [-> [-> Ha]]]. auto.
Qed.

(** The body cascade whose first candidate resolves: the probe, the click,
    the whole text in one [send_keys]. *)
Lemma fill_body_content_first d body :
  found_by d = (CSS_SELECTOR, dialog_css) ->
  returns (fill_body_content b self d body)
    (fun e tr =>
       found_by e = first_css body_selectors /\
       tr = [EWait (InElement d) 10 visibility_of_element_located (first_css body_selectors);
             EClick e; ESleep 500 1000; ESendKeys e (keys_of body); ESleep 1000 2000]).
Proof.
  intros Hdialog. unfold fill_body_content. apply returns_require.
  change body_selectors with (hd EmptyString body_selectors :: tl body_selectors).
  apply returns_first with
    (R := fun e tr =>
       found_by e = first_css body_selectors /\
       tr = [EWait (InElement d) 10 visibility_of_element_located (first_css body_selectors);
             EClick e; ESleep 500 1000; ESendKeys e (keys_of body); ESleep 1000 2000]).
  apply returns_try.
  eapply returns_bind; [apply wait_first; apply fc_body; exact Hdialog | ].
  intros e t1 [He ->].
  eapply returns_bind;
    [apply click_first; rewrite He; right; right; right; left; reflexivity | ].
  intros [] t2 ->.
  eapply returns_bind; [apply delay_returns | ].
  intros [] t3 ->.
  eapply returns_bind with (R1 := fun _ tr => tr = [ESendKeys e (keys_of body)]).
  { apply returns_perform. intros w. exists tt.
    split; [apply (ft_keys Hft); right; exact He | reflexivity]. }
  intros [] t4 ->.
  eapply returns_bind; [apply delay_returns | ].
  intros [] t5 ->. apply returns_ret. exists e. auto.
Qed.

(** The send cascade whose first candidate resolves. *)
Lemma send_email_first d :
  found_by d = (CSS_SELECTOR, dialog_css) ->
  returns (send_email b self d)
    (fun e tr =>
       found_by e = send_locator (hd EmptyString send_selectors) /\
       tr = [EWait (InElement d) 10 element_to_be_clickable
               (send_locator (hd EmptyString send_selectors));
             ESleep 1000 2000; EClick e]).
Proof.
  intros Hdialog. unfold send_email. apply returns_require.
  change send_selectors with (hd EmptyString send_selectors :: tl send_selectors) at 1.
  apply returns_first with
    (R := fun e tr =>
       found_by e = send_locator (hd EmptyString send_selectors) /\
       tr = [EWait (InElement d) 10 element_to_be_clickable
               (send_locator (hd EmptyString send_selectors));
             ESleep 1000 2000; EClick e]).
  apply returns_try.
  eapply returns_bind with
    (R1 := fun e tr =>
             found_by e = send_locator (hd EmptyString send_selectors) /\
             tr = [EWait (InElement d) 10 element_to_be_clickable
                     (send_locator (hd EmptyString send_selectors))]).
  { pose proof (@wait_first (InElement d) 10 element_to_be_clickable
                  (send_locator (hd EmptyString send_selectors))
                  (@fc_send d Hdialog)) as Hw.
    unfold send_locator in *.
    destruct (startswith (hd EmptyString send_selectors) "//"); exact Hw. }
  intros e t1 [He ->].
  eapply returns_bind; [apply delay_returns | ].
  intros [] t2 ->.
  eapply returns_bind;
    [apply click_first; rewrite He; right; right; right; right; reflexivity | ].
  intros [] t3 ->. apply returns_ret. exists e. auto.
Qed.

(** The steps of a send attempt: the events of the six operations, then the
    line that reports the success. *)
Lemma send_steps_first recipient subject body :
  returns (send_steps b self recipient subject body)
    (fun v tr =>
       v = true /\
       exists a, tr = (flat_map snd (send_scenario a recipient subject body)
                       ++ [ELog INFO EmailSentSuccessfully])%list).
Proof.
  unfold send_steps.
  eapply returns_bind with
    (R1 := fun e tr =>
             found_by e = (XPATH, compose_xpath) /\
             tr = [EWait InDriver 20 element_to_be_clickable (XPATH, compose_xpath);
                   ESleep 1000 2000; EClick e]).
  { unfold click_compose_button.
    eapply returns_bind; [apply wait_first; apply fc_compose | ].
    intros e t1 [He ->].
    eapply returns_bind; [apply delay_returns | ].
    intros [] t2 ->.
    eapply returns_bind;
      [apply click_first; rewrite He; right; right; left; reflexivity | ].
    intros [] t3 ->. apply returns_ret. auto. }
  intros [l1 n1] t1 [Hl1 ->]. simpl in Hl1. subst l1.
  eapply returns_bind with
    (R1 := fun e tr =>
             found_by e = (CSS_SELECTOR, dialog_css) /\
             tr = [EWait InDriver 15 visibility_of_element_located (CSS_SELECTOR, dialog_css);
                   ESleep 1000 2000]).
  { unfold wait_for_compose_window.
    eapply returns_bind; [apply wait_first; apply fc_dialog | ].
    intros e t2 [He ->].
    eapply returns_bind; [apply delay_returns | ].
    intros [] t3 ->. apply returns_ret. auto. }
  intros [l2 n2] t2 [Hl2 ->]. simpl in Hl2. subst l2.
  set (d := {| found_by := (CSS_SELECTOR, dialog_css); node := n2 |}).
  assert (Hdialog : found_by d = (CSS_SELECTOR, dialog_css)) by reflexivity.
  eapply returns_bind.
  { unfold fill_recipient_field. apply returns_require.
    change recipient_selectors
      with (hd EmptyString recipient_selectors :: tl recipient_selectors).
    apply typed_cascade_first with (after_events := [ESleep 1000 2000]);
      [apply fc_recipient; exact Hdialog | right; right; left; reflexivity | reflexivity
      | apply delay_returns]. }
  intros [l3 n3] t3 [Hl3 [r3 ->]]. simpl in Hl3. subst l3.
  eapply returns_bind.
  { unfold fill_subject_field. apply returns_require.
    change subject_selectors
      with (hd EmptyString subject_selectors :: tl subject_selectors).
    apply typed_cascade_first with (after_events := [ESleep 1000 2000]);
      [apply fc_subject; exact Hdialog | right; right; right; reflexivity | reflexivity
      | apply delay_returns]. }
  intros [l4 n4] t4 [Hl4 [r4 ->]]. simpl in Hl4. subst l4.
  eapply returns_bind; [apply fill_body_content_first; exact Hdialog | ].
  intros [l5 n5] t5 [Hl5 ->]. simpl in Hl5. subst l5.
  eapply returns_bind; [apply send_email_first; exact Hdialog | ].
  intros [l6 n6] t6 [Hl6 ->]. simpl in Hl6. subst l6.
  eapply returns_bind; [apply wait_first; apply fc_closed | ].
  intros e7 t7 [_ ->].
  eapply returns_bind; [apply log_returns | ].
  intros [] t8 ->. apply returns_ret. split; [reflexivity | ].
  exists {| compose_node := n1; dialog_node := n2;
            recipient_node := n3; recipient_retyped := r3;
            subject_node := n4; subject_retyped := r4;
            body_node := n5; send_node := n6 |}.
  unfold send_scenario.
  cbn [flat_map snd compose_node dialog_node recipient_node recipient_retyped
       subject_node subject_retyped body_node send_node].
  subst d. rewrite !app_nil_r. rewrite <- !app_assoc. reflexivity.
Qed.

(** Sending succeeds at its first attempt. *)
Lemma send_first recipient subject body :
  returns (compose_and_send_email b self recipient subject body default_max_attempts)
    (fun r tr =>
       r = Some true /\
       exists a, tr = (ELog INFO (EmailSendingAttempt 1 default_max_attempts)
                       :: flat_map snd (send_scenario a recipient subject body)
                       ++ [ELog INFO EmailSentSuccessfully])%list).
Proof.
  eapply returns_conseq.
  - unfold compose_and_send_email.
    change (range 1 (default_max_attempts + 1)) with [1; 2; 3].
    apply returns_first with
      (R := fun v tr =>
              v = true /\
              exists a, tr = (ELog INFO (EmailSendingAttempt 1 default_max_attempts)
                              :: flat_map snd (send_scenario a recipient subject body)
                              ++ [ELog INFO EmailSentSuccessfully])%list).
    apply returns_try. unfold send_attempt.
    eapply returns_bind with
      (R1 := fun v tr =>
               v = true /\
               exists a, tr = (ELog INFO (EmailSendingAttempt 1 default_max_attempts)
                               :: flat_map snd (send_scenario a recipient subject body)
                               ++ [ELog INFO EmailSentSuccessfully])%list).
    + eapply returns_bind; [apply log_returns | ].
      intros [] t1 ->. eapply returns_conseq; [apply send_steps_first | ].
      intros v tr [-> [a ->]]. split; [reflexivity | ]. exists a. reflexivity.
    + intros v t1 [-> [a ->]]. apply returns_ret. exists true.
      split; [reflexivity | ]. split; [reflexivity | ].
      exists a. rewrite app_nil_r. reflexivity.
  - intros r tr [y [-> [-> Ha]]]. auto.
Qed.

End FirstTry.

(** *** What the keystrokes of the scenario enter *)

Lemma keyed_nil l st : keyed l st [] = st.
Proof. reflexivity. Qed.

Lemma keyed_app l st t1 t2 : keyed l st (t1 ++ t2) = keyed l (keyed l st t1) t2.
Proof. unfold keyed. apply fold_left_app. Qed.

Lemma keyed_skip l ev t st : elsewhere l ev -> keyed l st (ev :: t) = keyed l st t.
Proof.
  intros H. destruct ev; try reflexivity.
  simpl in H. unfold keyed. simpl. rewrite H. reflexivity.
Qed.

Lemma keyed_elsewhere l t : Forall (elsewhere l) t -> forall st, keyed l st t = st.
Proof.
  induction 1 as [| ev t Hev _ IH]; intros st; [reflexivity | ].
  rewrite (@keyed_skip l ev t st Hev). apply IH.
Qed.

Lemma keyed_keys l e ks t st :
  locator_eqb (found_by e) l = true ->
  keyed l st (ESendKeys e ks :: t) = keyed l (press_keys false ks st) t.
Proof. intros H. unfold keyed. simpl. rewrite H. reflexivity. Qed.

Lemma append_empty (a : string) : (a ++ EmptyString)%string = a.
Proof. induction a as [| x a IH]; simpl; [reflexivity | rewrite IH; reflexivity]. Qed.

(** A text sent to a field in which nothing is selected is appended. *)
Lemma press_keys_text txt : forall buf,
  press_keys false (keys_of txt) (buf, false) = ((buf ++ txt)%string, false).
Proof.
  induction txt as [| c rest IH]; intros buf; simpl.
  - rewrite append_empty. reflexivity.
  - rewrite IH, append_snoc. reflexivity.
Qed.

Section Keyed.

Context (l : locator) (e : WebElement) (He : locator_eqb (found_by e) l = true).

Lemma keyed_clearing st : keyed l st (clearing_events e) = (EmptyString, false).
Proof.
  unfold clearing_events. rewrite !keyed_keys by exact He.
  rewrite keyed_skip by exact I. reflexivity.
Qed.

Lemma keyed_typing txt : forall buf,
  keyed l (buf, false) (typing_events e txt) = ((buf ++ txt)%string, false).
Proof.
  induction txt as [| c rest IH]; intros buf.
  - exact (press_keys_text EmptyString buf).
  - change (typing_events e (String c rest))
      with (ESendKeys e [Char c] :: ESleep 100 300 :: typing_events e rest).
    rewrite keyed_keys by exact He. rewrite keyed_skip by exact I.
    simpl press_keys. rewrite IH, append_snoc. reflexivity.
Qed.

(** The keystrokes of a whole [human_type] enter the text, with or without
    the retype. *)
Lemma keyed_human_type txt field_name retyped st :
  keyed l st (human_type_events e txt field_name retyped) = (txt, false).
Proof.
  unfold human_type_events. rewrite !keyed_app, keyed_clearing, keyed_typing.
  rewrite keyed_skip by (unfold readback_event; destruct (String.eqb _ _); exact I).
  destruct retyped; [ | reflexivity].
  unfold retype_events. rewrite keyed_skip by exact I.
  rewrite keyed_app, keyed_clearing, keyed_keys by exact He.
  rewrite press_keys_text. reflexivity.
Qed.

End Keyed.

(** The events of a [human_type] on another field send no key to [l]. *)
Lemma human_type_elsewhere l e txt field_name retyped :
  locator_eqb (found_by e) l = false ->
  Forall (elsewhere l) (human_type_events e txt field_name retyped).
Proof.
  intros He.
  assert (Hclear : Forall (elsewhere l) (clearing_events e))
    by (repeat constructor; exact He).
  unfold human_type_events. apply Forall_app. split; [exact Hclear | ].
  apply Forall_app. split.
  - unfold typing_events. induction (keys_of txt) as [| k ks IH]; simpl;
      repeat constructor; [exact He | exact IH].
  - constructor; [unfold readback_event; destruct (String.eqb _ _); exact I | ].
    destruct retyped; [ | constructor].
    unfold retype_events. constructor; [exact I | ].
    apply Forall_app. split; [exact Hclear | repeat constructor; exact He].
Qed.

Lemma keyed_human_type_elsewhere l e txt field_name retyped st :
  locator_eqb (found_by e) l = false ->
  keyed l st (human_type_events e txt field_name retyped) = st.
Proof. intros He. apply keyed_elsewhere. apply human_type_elsewhere. exact He. Qed.

Ltac keystrokes :=
  repeat first
    [ rewrite keyed_nil
    | rewrite keyed_app
    | rewrite keyed_skip by exact I
    | rewrite keyed_skip by reflexivity
    | rewrite keyed_human_type by reflexivity
    | rewrite keyed_human_type_elsewhere by reflexivity
    | rewrite keyed_keys by reflexivity
    | rewrite press_keys_text ].

(** The keystrokes of the scenario enter each text into its field. *)
Lemma happy_path_entered la sa email password recipient subject body :
  let t := happy_path_events la sa email password recipient subject body in
  entered (first_css email_selectors) t = email /\
  entered (first_css password_selectors) t = password /\
  entered (first_css recipient_selectors) t = recipient /\
  entered (first_css subject_selectors) t = subject /\
  entered (first_css body_selectors) t = body.
Proof.
  unfold happy_path_events, login_scenario, send_scenario, entered.
  cbn [flat_map snd]. destruct (url_read_twice la);
    repeat split; cbn [app]; keystrokes; reflexivity.
Qed.

(** C1.  Let the first URL land on the login page or the mailbox, let every
    cascade resolve on its first candidate (and the waits for the Compose
    button and the compose dialog be met), and let the elements found that
    way take keystrokes and clicks.  Then [login_to_gmail] followed by
    [compose_and_send_email], both with the default number of attempts,
    return [True], and the events of the run are exactly those of the
    twelve operations navigate, fill-email, click-next, fill-password,
    click-submit, detect-landmark, open-compose, fill-recipient,
    fill-subject, fill-body, click-send, detect-dialog-closed, in this
    order, each operation with the calls listed for it in the scenario, and
    with them the four log lines that start the two attempts and report the
    two successes: no other navigation, probe, keystroke, click, screenshot
    or call of the driver takes place.  The keystrokes sent enter the
    email, the password, the recipient, the subject and the body, each into
    the field of its own first candidate. *)
Theorem happy_path_operations :
  forall (World : Type) (b : Browser World) (self : GmailAutomation)
         (email password recipient subject body : string) (s : state World),
    driver self = Some Chrome ->
    first_try b ->
    let login := login_to_gmail b self email password default_max_attempts s in
    let send := compose_and_send_email b self recipient subject body
                  default_max_attempts (snd login) in
    fst login = Ok (Some true) /\
    fst send = Ok (Some true) /\
    exists (la : login_replies) (sa : send_replies) (t : list event),
      trace (snd send) = (trace s ++ t)%list /\
      t = happy_path_events la sa email password recipient subject body /\
      map fst (login_scenario la email password ++ send_scenario sa recipient subject body)
      = [navigate; fill_email; click_next; fill_password; click_submit; detect_landmark;
         open_compose; fill_recipient; fill_subject; fill_body; click_send;
         detect_dialog_closed] /\
      entered (first_css email_selectors) t = email /\
      entered (first_css password_selectors) t = password /\
      entered (first_css recipient_selectors) t = recipient /\
      entered (first_css subject_selectors) t = subject /\
      entered (first_css body_selectors) t = body.
Proof.
  intros World b self email password recipient subject body s Hd Hft login send.
  destruct (@login_first World b self Hd Hft email password s)
    as [t1 [Ht1 [r1 [Hr1 [-> [la Hla]]]]]].
  fold login in Ht1, Hr1.
  destruct (@send_first World b self Hd Hft recipient subject body (snd login))
    as [t2 [Ht2 [r2 [Hr2 [-> [sa Hsa]]]]]].
  fold send in Ht2, Hr2.
  split; [exact Hr1 | ]. split; [exact Hr2 | ].
  exists la, sa, (happy_path_events la sa email password recipient subject body).
  split; [ | split; [reflexivity | split; [reflexivity | ]]].
  - rewrite Ht2, Ht1, Hla, Hsa. unfold happy_path_events.
    rewrite <- app_assoc. apply f_equal. cbn [app]. apply f_equal.
    rewrite <- app_assoc. reflexivity.
  - apply happy_path_entered.
Qed.

(** On the simulated page only the first candidates resolve. *)
Lemma Sim_first_try : first_try (Sim.browser sim_first_only).
Proof.
  constructor.
  - intros w. reflexivity.
  - intros w. reflexivity.
  - right. intros w. exists Sim.inbox. split; reflexivity.
  - intros sc t c l Hfc w. exists (Sim.node_of l). destruct Hfc; reflexivity.
  - intros e ks w _. reflexivity.
  - intros e w _. eexists. reflexivity.
  - intros e w _. reflexivity.
Qed.

Lemma happy_path_operations_witness :
  let login := login_to_gmail (Sim.browser sim_first_only) Sim.me "u@x.com" "pw"
                 default_max_attempts Sim.start in
  let send := compose_and_send_email (Sim.browser sim_first_only) Sim.me
                "r@y.com" "Hi" "Hello" default_max_attempts (snd login) in
  fst login = Ok (Some true) /\
  fst send = Ok (Some true) /\
  exists (la : login_replies) (sa : send_replies) (t : list event),
    trace (snd send) = (trace Sim.start ++ t)%list /\
    t = happy_path_events la sa "u@x.com" "pw" "r@y.com" "Hi" "Hello" /\
    map fst (login_scenario la "u@x.com" "pw" ++ send_scenario sa "r@y.com" "Hi" "Hello")
    = [navigate; fill_email; click_next; fill_password; click_submit; detect_landmark;
       open_compose; fill_recipient; fill_subject; fill_body; click_send;
       detect_dialog_closed] /\
    entered (first_css email_selectors) t = "u@x.com" /\
    entered (first_css password_selectors) t = "pw" /\
    entered (first_css recipient_selectors) t = "r@y.com" /\
    entered (first_css subject_selectors) t = "Hi" /\
    entered (first_css body_selectors) t = "Hello".
Proof.
  apply (@happy_path_operations Sim.page (Sim.browser sim_first_only) Sim.me
           "u@x.com" "pw" "r@y.com" "Hi" "Hello" Sim.start).
  - reflexivity.
  - exact Sim_first_try.
Defined.

(** The run on that page: the page lands on the mailbox, so that the
    address is read twice; no read-back differs; no candidate but the
    first of each cascade would have resolved. *)
Lemma happy_path_on_the_simulated_page :
  let login := login_to_gmail (Sim.browser sim_first_only) Sim.me "u@x.com" "pw"
                 default_max_attempts Sim.start in
  let send := compose_and_send_email (Sim.browser sim_first_only) Sim.me
                "r@y.com" "Hi" "Hello" default_max_attempts (snd login) in
  trace (snd send)
  = happy_path_events
      {| url_read_twice := true;
         email_node := 19; email_retyped := false;
         next_node := 14;
         password_node := 22; password_retyped := false;
         submit_node := 12 |}
      {| compose_node := 23; dialog_node := 18;
         recipient_node := 22; recipient_retyped := false;
         subject_node := 24; subject_retyped := false;
         body_node := 30; send_node := 23 |}
      "u@x.com" "pw" "r@y.com" "Hi" "Hello" /\
  forallb (fun sel =>
             match b_wait (Sim.browser sim_first_only) InDriver 10
                     visibility_of_element_located (CSS_SELECTOR, sel) Sim.blank with
             | (Raised _, _) => true
             | (Ok _, _) => false
             end)
    (tl email_selectors ++ tl password_selectors ++ tl recipient_selectors
     ++ tl subject_selectors ++ tl body_selectors)%list = true.
Proof. vm_compute. auto. Qed.
